(** * Inferno Empress slot client: spin orchestration, configuration and bet menu

    A shallow embedding of the client's orchestration code.
    - [GameConfig]: the configuration provider ([loadConfig]) and the
      configuration hooks of [slot-config.ts].
    - [Bet]: the circular bet handlers of the slot machine component.
    - [Slot]: the state owned by the [SlotMachine] and [Home] components, the
      [spin] callback as [useCallback] keeps it from render to render, the
      asynchronous [spin] round written as a resumption (one continuation
      per [await]), the ways a spin is requested, the bonus-wheel handlers,
      the autoplay loop and the border computation.
    - [Loop]: a discrete-event model of the browser event loop (timers fire
      in the order of their due times, a render follows every task) on which
      concrete schedules are replayed.
    - [Round]: the runs of a single task under interference, the relation the
      general statements are about.
    - [Assert], [Samples]: the assertions and the concrete data used by the
      statements.

    Conventions.  JavaScript numbers are whole numbers ([Z]): counts, indices
    (the server may send the payline index [-1]), milliseconds and amounts of
    money.  On whole numbers below [2^53] the double arithmetic of JavaScript
    is exact, so [<], [===] and [-] are those of [Z]; amounts with cents are
    outside the model (on them the comparisons would still be exact, the
    subtraction of [checkAutoplayStopConditions] would round).  Reel and row
    positions are [nat].  A string is falsy exactly when it is empty, a number
    exactly when it is [0].  Optional callback props are the handlers that
    [Home] passes.  Sounds and console output are left out: they neither read
    nor write the state, and the functions of [useSound] and [useToast] keep
    their identity from one render to the next. *)

From stdpp Require Import base list strings.
From Stdlib Require Import ZArith Lia.

Set Warnings "-register-all".

Local Open Scope Z_scope.

(** ** JavaScript array helpers *)

(** [a[i] = x] on a copy of [a]: in range it overwrites, out of range the
    array is extended and the hole is filled with [d] (a hole reads as
    [undefined], which is falsy for flags and is rendered as an empty reel). *)
Definition js_set {A : Type} (d : A) (i : nat) (x : A) (a : list A) : list A :=
  if decide (i < length a)%nat then <[i:=x]> a
  else a ++ replicate (i - length a) d ++ [x].

(** [a.some(f => f)] on an array of flags. *)
Definition some_true (a : list bool) : bool := existsb id a.

(** [Array.from(new Set(a))]: duplicates removed, first occurrences kept in
    insertion order. *)
Fixpoint uniq (seen : list nat) (a : list nat) : list nat :=
  match a with
  | [] => []
  | x :: a' => if bool_decide (x ∈ seen) then uniq seen a' else x :: uniq (x :: seen) a'
  end.

(** [a.indexOf(x)] with strict equality on numbers; [-1] when absent. *)
Fixpoint indexOf_from (i : Z) (a : list Z) (x : Z) : Z :=
  match a with
  | [] => -1
  | y :: a' => if y =? x then i else indexOf_from (i + 1) a' x
  end.

Definition indexOf (a : list Z) (x : Z) : Z := indexOf_from 0 a x.

(** [a[i]] for a numeric index; [None] is [undefined]. *)
Definition js_get {A : Type} (a : list A) (i : Z) : option A :=
  if i <? 0 then None else a !! Z.to_nat i.

(** ** Configuration document, provider and hooks *)

Module GameConfig.

(** The parsed JSON document.  Every field may be absent from the JSON,
    whatever the TypeScript interface declares. *)
Record FrontendGameConfig : Type := {
  gameId : option string;
  numReels : option Z;
  numRows : option Z;
  betAmounts : option (list Z);
  freeSpinsAwarded : option Z;
  scatterSymbol : option string;
  bookSymbol : option string;
  symbols : option (list string);      (* [Object.keys(config.symbols)] *)
  paylines : option (list (list Z));
  reelStrips : option (list (list string))
}.


(** The context value of [GameConfigProvider] once loading has finished. *)
Record GameConfigContextType : Type := {
  config : option FrontendGameConfig;
  loading : bool;
  error : option string
}.





(** [config?.field ?? dflt] *)
Definition opt_chain {A : Type} (c : option FrontendGameConfig)
    (f : FrontendGameConfig → option A) (dflt : A) : A :=
  match c with
  | None => dflt
  | Some doc => default dflt (f doc)
  end.

Definition useNumReels (ctx : GameConfigContextType) : Z := opt_chain (config ctx) numReels 5.
Definition useNumRows (ctx : GameConfigContextType) : Z := opt_chain (config ctx) numRows 3.
Definition usePaylines (ctx : GameConfigContextType) : list (list Z) :=
  opt_chain (config ctx) paylines [].





End GameConfig.

(** ** Bet handlers *)

Module Bet.

(** What a handler did: returned at [if (!config) return], threw on
    [config.betAmounts.indexOf] when the document has no menu, or called
    [setBetAmount] with a menu entry ([None] is [undefined]). *)
Inductive Outcome : Type :=
| NoConfig
| TypeError
| SetBetAmount (v : option Z).

Definition handleIncreaseBet (config : option GameConfig.FrontendGameConfig)
    (betAmount : Z) : Outcome :=
  match config with
  | None => NoConfig
  | Some doc =>
      match GameConfig.betAmounts doc with
      | None => TypeError
      | Some menu =>
          let currentIndex := indexOf menu betAmount in
          if currentIndex =? -1 then SetBetAmount (js_get menu 0)
          else
            let nextIndex := (currentIndex + 1) `mod` Z.of_nat (length menu) in
            SetBetAmount (js_get menu nextIndex)
      end
  end.

Definition handleDecreaseBet (config : option GameConfig.FrontendGameConfig)
    (betAmount : Z) : Outcome :=
  match config with
  | None => NoConfig
  | Some doc =>
      match GameConfig.betAmounts doc with
      | None => TypeError
      | Some menu =>
          let currentIndex := indexOf menu betAmount in
          if currentIndex =? -1 then SetBetAmount (js_get menu 0)
          else
            let prevIndex :=
              if currentIndex =? 0 then Z.of_nat (length menu) - 1
              else currentIndex - 1 in
            SetBetAmount (js_get menu prevIndex)
      end
  end.

(** A configuration whose bet menu is [menu]; the other fields do not
    matter to the handlers. *)
Definition with_menu (menu : list Z) : GameConfig.FrontendGameConfig :=
  {| GameConfig.gameId := None; GameConfig.numReels := Some 5;
     GameConfig.numRows := Some 3; GameConfig.betAmounts := Some menu;
     GameConfig.freeSpinsAwarded := Some 10; GameConfig.scatterSymbol := None;
     GameConfig.bookSymbol := None; GameConfig.symbols := Some [];
     GameConfig.paylines := Some []; GameConfig.reelStrips := None |}.

End Bet.

(** ** The slot machine: data *)

Module Slot.

(** One entry of [winningLines] / [featureGameWinningLines]. *)
Record WinningLine : Type := {
  paylineIndex : Z;          (* [-1] for a scatter win *)
  symbol : string;
  count : Z;
  payout : Z;
  line : list Z
}.

(** [results] of a play response.  [expandedSymbols] and
    [featureGameWinningLines] may be absent; an absent list and an empty
    one take the same branches of [spin], so both are the empty list. *)
Record SpinResult : Type := {
  totalWin : Z;
  r_winningLines : list WinningLine;
  scatter_count : Z;
  triggeredFreeSpins : bool;
  r_grid : list (list string);
  actionGameTriggered : bool;
  expandedSymbols : list (nat * nat);      (* [{reel, row}] *)
  r_featureGameWinningLines : list WinningLine
}.

(** [PlayResponse]: the [player] object and the top-level fields that
    [spin] reads. *)
Record PlayResponse : Type := {
  p_balance : Z;
  p_freeSpinsRemaining : Z;
  p_lastWin : Z;
  p_results : SpinResult;
  p_featureSymbol : string;
  p_accumulatedActionGameWin : option Z;
  top_freeSpins : Z;
  top_actionGameSpins : Z;
  top_featureSymbol : string
}.

(** [PlayRequest] as [spin] builds it.  [betPerPayline] (the float quotient
    [betAmount / 5]) is display data and is left out. *)
Record PlayRequest : Type := {
  q_sessionId : string;
  q_betAmount : Z;
  q_numPaylines : Z;
  q_actionGameSpins : option Z;
  q_gameId : string
}.

(** [ActionGameSpinResponse] *)
Record ActionGameSpinResponse : Type := {
  w_win : Z;
  w_additionalSpins : Z;
  w_wheelResult : string;
  w_remainingSpins : Z;
  w_accumulatedWin : Z;
  w_balance : Z
}.

Record AutoplaySettings : Type := {
  numberOfSpins : Z;
  stopOnAnyWin : bool;
  stopOnSingleWinExceeds : Z;
  stopOnFeature : bool;
  stopOnTotalLossExceeds : Z
}.

Record AutoplayState : Type := {
  isActive : bool;
  settings : option AutoplaySettings;
  spinsRemaining : Z;
  totalLoss : Z;
  originalBalance : Z
}.

(** The notifications raised through [toast]. *)
Inductive Toast : Type :=
| InsufficientBalance
| ConnectionError (msg : string)
| ActionGameWon (spins : Z)
| AutoplayStarted (spins : Z)
| AutoplayStopped
| AutoplayInsufficientBalance.

(** What the [spin] callback of a render closes over: the values of that
    render which its body reads.  All of them but [isSpinning] are in the
    dependency list of its [useCallback] or computed from it
    ([isFreeSpinsMode] from [freeSpinsRemaining]). *)
Record Closure : Type := {
  c_isFreeSpinsMode : bool;
  c_isAnimating : bool;
  c_isSpinning : bool;
  c_isTurboMode : bool;
  c_balance : Z;
  c_totalBet : Z;
  c_freeSpinsRemaining : Z;
  c_actionGameSpins : Z;
  c_sessionId : string
}.

(** The state of [SlotMachine] and of its parent [Home] (from
    [showActionWheel] to [pendingBalanceUpdateRef]), the cancellation ref,
    the [spin] callback that [useCallback] holds, and two logs: the
    notifications shown and the play requests sent. *)
Record St : Type := mkSt {
  grid : list (list string);
  spinningReels : list bool;
  bouncingReels : list bool;
  expandingReels : list bool;
  reelsToExpand : list nat;
  winningLines : list WinningLine;
  baseGameWinningLines : list WinningLine;
  featureGameWinningLines : list WinningLine;
  showFeatureGameWins : bool;
  winningFeedback : option Z;
  lastWin : Z;
  balance : Z;
  freeSpinsRemaining : Z;
  featureSymbol : string;
  wasInFreeSpinsMode : bool;
  sessionId : string;
  isTurboMode : bool;
  betAmount : Z;
  autoplayState : AutoplayState;
  showActionWheel : bool;
  actionGameSpins : Z;
  accumulatedActionWin : Z;
  showFeatureSymbolSelection : bool;
  selectedFeatureSymbol : string;
  freeSpinsCount : Z;
  pendingBalanceUpdateRef : option Z;
  spinCancelledRef : bool;
  spinCallback : Closure;
  toasts : list Toast;
  requests : list PlayRequest
}.

Definition setGrid (v : list (list string)) (s : St) : St :=
  mkSt v (spinningReels s) (bouncingReels s) (expandingReels s) (reelsToExpand s)
  (winningLines s) (baseGameWinningLines s) (featureGameWinningLines s)
  (showFeatureGameWins s) (winningFeedback s) (lastWin s) (balance s)
  (freeSpinsRemaining s) (featureSymbol s) (wasInFreeSpinsMode s) (sessionId s)
  (isTurboMode s) (betAmount s) (autoplayState s) (showActionWheel s) (actionGameSpins
  s) (accumulatedActionWin s) (showFeatureSymbolSelection s) (selectedFeatureSymbol s)
  (freeSpinsCount s) (pendingBalanceUpdateRef s) (spinCancelledRef s) (spinCallback s)
  (toasts s) (requests s).
Definition setSpinningReels (v : list bool) (s : St) : St :=
  mkSt (grid s) v (bouncingReels s) (expandingReels s) (reelsToExpand s) (winningLines
  s) (baseGameWinningLines s) (featureGameWinningLines s) (showFeatureGameWins s)
  (winningFeedback s) (lastWin s) (balance s) (freeSpinsRemaining s) (featureSymbol s)
  (wasInFreeSpinsMode s) (sessionId s) (isTurboMode s) (betAmount s) (autoplayState s)
  (showActionWheel s) (actionGameSpins s) (accumulatedActionWin s)
  (showFeatureSymbolSelection s) (selectedFeatureSymbol s) (freeSpinsCount s)
  (pendingBalanceUpdateRef s) (spinCancelledRef s) (spinCallback s) (toasts s)
  (requests s).
Definition setBouncingReels (v : list bool) (s : St) : St :=
  mkSt (grid s) (spinningReels s) v (expandingReels s) (reelsToExpand s) (winningLines
  s) (baseGameWinningLines s) (featureGameWinningLines s) (showFeatureGameWins s)
  (winningFeedback s) (lastWin s) (balance s) (freeSpinsRemaining s) (featureSymbol s)
  (wasInFreeSpinsMode s) (sessionId s) (isTurboMode s) (betAmount s) (autoplayState s)
  (showActionWheel s) (actionGameSpins s) (accumulatedActionWin s)
  (showFeatureSymbolSelection s) (selectedFeatureSymbol s) (freeSpinsCount s)
  (pendingBalanceUpdateRef s) (spinCancelledRef s) (spinCallback s) (toasts s)
  (requests s).
Definition setExpandingReels (v : list bool) (s : St) : St :=
  mkSt (grid s) (spinningReels s) (bouncingReels s) v (reelsToExpand s) (winningLines
  s) (baseGameWinningLines s) (featureGameWinningLines s) (showFeatureGameWins s)
  (winningFeedback s) (lastWin s) (balance s) (freeSpinsRemaining s) (featureSymbol s)
  (wasInFreeSpinsMode s) (sessionId s) (isTurboMode s) (betAmount s) (autoplayState s)
  (showActionWheel s) (actionGameSpins s) (accumulatedActionWin s)
  (showFeatureSymbolSelection s) (selectedFeatureSymbol s) (freeSpinsCount s)
  (pendingBalanceUpdateRef s) (spinCancelledRef s) (spinCallback s) (toasts s)
  (requests s).
Definition setReelsToExpand (v : list nat) (s : St) : St :=
  mkSt (grid s) (spinningReels s) (bouncingReels s) (expandingReels s) v (winningLines
  s) (baseGameWinningLines s) (featureGameWinningLines s) (showFeatureGameWins s)
  (winningFeedback s) (lastWin s) (balance s) (freeSpinsRemaining s) (featureSymbol s)
  (wasInFreeSpinsMode s) (sessionId s) (isTurboMode s) (betAmount s) (autoplayState s)
  (showActionWheel s) (actionGameSpins s) (accumulatedActionWin s)
  (showFeatureSymbolSelection s) (selectedFeatureSymbol s) (freeSpinsCount s)
  (pendingBalanceUpdateRef s) (spinCancelledRef s) (spinCallback s) (toasts s)
  (requests s).
Definition setWinningLines (v : list WinningLine) (s : St) : St :=
  mkSt (grid s) (spinningReels s) (bouncingReels s) (expandingReels s) (reelsToExpand
  s) v (baseGameWinningLines s) (featureGameWinningLines s) (showFeatureGameWins s)
  (winningFeedback s) (lastWin s) (balance s) (freeSpinsRemaining s) (featureSymbol s)
  (wasInFreeSpinsMode s) (sessionId s) (isTurboMode s) (betAmount s) (autoplayState s)
  (showActionWheel s) (actionGameSpins s) (accumulatedActionWin s)
  (showFeatureSymbolSelection s) (selectedFeatureSymbol s) (freeSpinsCount s)
  (pendingBalanceUpdateRef s) (spinCancelledRef s) (spinCallback s) (toasts s)
  (requests s).
Definition setBaseGameWinningLines (v : list WinningLine) (s : St) : St :=
  mkSt (grid s) (spinningReels s) (bouncingReels s) (expandingReels s) (reelsToExpand
  s) (winningLines s) v (featureGameWinningLines s) (showFeatureGameWins s)
  (winningFeedback s) (lastWin s) (balance s) (freeSpinsRemaining s) (featureSymbol s)
  (wasInFreeSpinsMode s) (sessionId s) (isTurboMode s) (betAmount s) (autoplayState s)
  (showActionWheel s) (actionGameSpins s) (accumulatedActionWin s)
  (showFeatureSymbolSelection s) (selectedFeatureSymbol s) (freeSpinsCount s)
  (pendingBalanceUpdateRef s) (spinCancelledRef s) (spinCallback s) (toasts s)
  (requests s).
Definition setFeatureGameWinningLines (v : list WinningLine) (s : St) : St :=
  mkSt (grid s) (spinningReels s) (bouncingReels s) (expandingReels s) (reelsToExpand
  s) (winningLines s) (baseGameWinningLines s) v (showFeatureGameWins s)
  (winningFeedback s) (lastWin s) (balance s) (freeSpinsRemaining s) (featureSymbol s)
  (wasInFreeSpinsMode s) (sessionId s) (isTurboMode s) (betAmount s) (autoplayState s)
  (showActionWheel s) (actionGameSpins s) (accumulatedActionWin s)
  (showFeatureSymbolSelection s) (selectedFeatureSymbol s) (freeSpinsCount s)
  (pendingBalanceUpdateRef s) (spinCancelledRef s) (spinCallback s) (toasts s)
  (requests s).
Definition setShowFeatureGameWins (v : bool) (s : St) : St :=
  mkSt (grid s) (spinningReels s) (bouncingReels s) (expandingReels s) (reelsToExpand
  s) (winningLines s) (baseGameWinningLines s) (featureGameWinningLines s) v
  (winningFeedback s) (lastWin s) (balance s) (freeSpinsRemaining s) (featureSymbol s)
  (wasInFreeSpinsMode s) (sessionId s) (isTurboMode s) (betAmount s) (autoplayState s)
  (showActionWheel s) (actionGameSpins s) (accumulatedActionWin s)
  (showFeatureSymbolSelection s) (selectedFeatureSymbol s) (freeSpinsCount s)
  (pendingBalanceUpdateRef s) (spinCancelledRef s) (spinCallback s) (toasts s)
  (requests s).
Definition setWinningFeedback (v : option Z) (s : St) : St :=
  mkSt (grid s) (spinningReels s) (bouncingReels s) (expandingReels s) (reelsToExpand
  s) (winningLines s) (baseGameWinningLines s) (featureGameWinningLines s)
  (showFeatureGameWins s) v (lastWin s) (balance s) (freeSpinsRemaining s)
  (featureSymbol s) (wasInFreeSpinsMode s) (sessionId s) (isTurboMode s) (betAmount s)
  (autoplayState s) (showActionWheel s) (actionGameSpins s) (accumulatedActionWin s)
  (showFeatureSymbolSelection s) (selectedFeatureSymbol s) (freeSpinsCount s)
  (pendingBalanceUpdateRef s) (spinCancelledRef s) (spinCallback s) (toasts s)
  (requests s).
Definition setLastWin (v : Z) (s : St) : St :=
  mkSt (grid s) (spinningReels s) (bouncingReels s) (expandingReels s) (reelsToExpand
  s) (winningLines s) (baseGameWinningLines s) (featureGameWinningLines s)
  (showFeatureGameWins s) (winningFeedback s) v (balance s) (freeSpinsRemaining s)
  (featureSymbol s) (wasInFreeSpinsMode s) (sessionId s) (isTurboMode s) (betAmount s)
  (autoplayState s) (showActionWheel s) (actionGameSpins s) (accumulatedActionWin s)
  (showFeatureSymbolSelection s) (selectedFeatureSymbol s) (freeSpinsCount s)
  (pendingBalanceUpdateRef s) (spinCancelledRef s) (spinCallback s) (toasts s)
  (requests s).
Definition setBalance (v : Z) (s : St) : St :=
  mkSt (grid s) (spinningReels s) (bouncingReels s) (expandingReels s) (reelsToExpand
  s) (winningLines s) (baseGameWinningLines s) (featureGameWinningLines s)
  (showFeatureGameWins s) (winningFeedback s) (lastWin s) v (freeSpinsRemaining s)
  (featureSymbol s) (wasInFreeSpinsMode s) (sessionId s) (isTurboMode s) (betAmount s)
  (autoplayState s) (showActionWheel s) (actionGameSpins s) (accumulatedActionWin s)
  (showFeatureSymbolSelection s) (selectedFeatureSymbol s) (freeSpinsCount s)
  (pendingBalanceUpdateRef s) (spinCancelledRef s) (spinCallback s) (toasts s)
  (requests s).
Definition setFreeSpinsRemaining (v : Z) (s : St) : St :=
  mkSt (grid s) (spinningReels s) (bouncingReels s) (expandingReels s) (reelsToExpand
  s) (winningLines s) (baseGameWinningLines s) (featureGameWinningLines s)
  (showFeatureGameWins s) (winningFeedback s) (lastWin s) (balance s) v (featureSymbol
  s) (wasInFreeSpinsMode s) (sessionId s) (isTurboMode s) (betAmount s) (autoplayState
  s) (showActionWheel s) (actionGameSpins s) (accumulatedActionWin s)
  (showFeatureSymbolSelection s) (selectedFeatureSymbol s) (freeSpinsCount s)
  (pendingBalanceUpdateRef s) (spinCancelledRef s) (spinCallback s) (toasts s)
  (requests s).
Definition setFeatureSymbol (v : string) (s : St) : St :=
  mkSt (grid s) (spinningReels s) (bouncingReels s) (expandingReels s) (reelsToExpand
  s) (winningLines s) (baseGameWinningLines s) (featureGameWinningLines s)
  (showFeatureGameWins s) (winningFeedback s) (lastWin s) (balance s)
  (freeSpinsRemaining s) v (wasInFreeSpinsMode s) (sessionId s) (isTurboMode s)
  (betAmount s) (autoplayState s) (showActionWheel s) (actionGameSpins s)
  (accumulatedActionWin s) (showFeatureSymbolSelection s) (selectedFeatureSymbol s)
  (freeSpinsCount s) (pendingBalanceUpdateRef s) (spinCancelledRef s) (spinCallback s)
  (toasts s) (requests s).
Definition setWasInFreeSpinsMode (v : bool) (s : St) : St :=
  mkSt (grid s) (spinningReels s) (bouncingReels s) (expandingReels s) (reelsToExpand
  s) (winningLines s) (baseGameWinningLines s) (featureGameWinningLines s)
  (showFeatureGameWins s) (winningFeedback s) (lastWin s) (balance s)
  (freeSpinsRemaining s) (featureSymbol s) v (sessionId s) (isTurboMode s) (betAmount
  s) (autoplayState s) (showActionWheel s) (actionGameSpins s) (accumulatedActionWin
  s) (showFeatureSymbolSelection s) (selectedFeatureSymbol s) (freeSpinsCount s)
  (pendingBalanceUpdateRef s) (spinCancelledRef s) (spinCallback s) (toasts s)
  (requests s).
Definition setSessionId (v : string) (s : St) : St :=
  mkSt (grid s) (spinningReels s) (bouncingReels s) (expandingReels s) (reelsToExpand
  s) (winningLines s) (baseGameWinningLines s) (featureGameWinningLines s)
  (showFeatureGameWins s) (winningFeedback s) (lastWin s) (balance s)
  (freeSpinsRemaining s) (featureSymbol s) (wasInFreeSpinsMode s) v (isTurboMode s)
  (betAmount s) (autoplayState s) (showActionWheel s) (actionGameSpins s)
  (accumulatedActionWin s) (showFeatureSymbolSelection s) (selectedFeatureSymbol s)
  (freeSpinsCount s) (pendingBalanceUpdateRef s) (spinCancelledRef s) (spinCallback s)
  (toasts s) (requests s).
Definition setIsTurboMode (v : bool) (s : St) : St :=
  mkSt (grid s) (spinningReels s) (bouncingReels s) (expandingReels s) (reelsToExpand
  s) (winningLines s) (baseGameWinningLines s) (featureGameWinningLines s)
  (showFeatureGameWins s) (winningFeedback s) (lastWin s) (balance s)
  (freeSpinsRemaining s) (featureSymbol s) (wasInFreeSpinsMode s) (sessionId s) v
  (betAmount s) (autoplayState s) (showActionWheel s) (actionGameSpins s)
  (accumulatedActionWin s) (showFeatureSymbolSelection s) (selectedFeatureSymbol s)
  (freeSpinsCount s) (pendingBalanceUpdateRef s) (spinCancelledRef s) (spinCallback s)
  (toasts s) (requests s).
Definition setBetAmount (v : Z) (s : St) : St :=
  mkSt (grid s) (spinningReels s) (bouncingReels s) (expandingReels s) (reelsToExpand
  s) (winningLines s) (baseGameWinningLines s) (featureGameWinningLines s)
  (showFeatureGameWins s) (winningFeedback s) (lastWin s) (balance s)
  (freeSpinsRemaining s) (featureSymbol s) (wasInFreeSpinsMode s) (sessionId s)
  (isTurboMode s) v (autoplayState s) (showActionWheel s) (actionGameSpins s)
  (accumulatedActionWin s) (showFeatureSymbolSelection s) (selectedFeatureSymbol s)
  (freeSpinsCount s) (pendingBalanceUpdateRef s) (spinCancelledRef s) (spinCallback s)
  (toasts s) (requests s).
Definition setAutoplayState (v : AutoplayState) (s : St) : St :=
  mkSt (grid s) (spinningReels s) (bouncingReels s) (expandingReels s) (reelsToExpand
  s) (winningLines s) (baseGameWinningLines s) (featureGameWinningLines s)
  (showFeatureGameWins s) (winningFeedback s) (lastWin s) (balance s)
  (freeSpinsRemaining s) (featureSymbol s) (wasInFreeSpinsMode s) (sessionId s)
  (isTurboMode s) (betAmount s) v (showActionWheel s) (actionGameSpins s)
  (accumulatedActionWin s) (showFeatureSymbolSelection s) (selectedFeatureSymbol s)
  (freeSpinsCount s) (pendingBalanceUpdateRef s) (spinCancelledRef s) (spinCallback s)
  (toasts s) (requests s).
Definition setShowActionWheel (v : bool) (s : St) : St :=
  mkSt (grid s) (spinningReels s) (bouncingReels s) (expandingReels s) (reelsToExpand
  s) (winningLines s) (baseGameWinningLines s) (featureGameWinningLines s)
  (showFeatureGameWins s) (winningFeedback s) (lastWin s) (balance s)
  (freeSpinsRemaining s) (featureSymbol s) (wasInFreeSpinsMode s) (sessionId s)
  (isTurboMode s) (betAmount s) (autoplayState s) v (actionGameSpins s)
  (accumulatedActionWin s) (showFeatureSymbolSelection s) (selectedFeatureSymbol s)
  (freeSpinsCount s) (pendingBalanceUpdateRef s) (spinCancelledRef s) (spinCallback s)
  (toasts s) (requests s).
Definition setActionGameSpins (v : Z) (s : St) : St :=
  mkSt (grid s) (spinningReels s) (bouncingReels s) (expandingReels s) (reelsToExpand
  s) (winningLines s) (baseGameWinningLines s) (featureGameWinningLines s)
  (showFeatureGameWins s) (winningFeedback s) (lastWin s) (balance s)
  (freeSpinsRemaining s) (featureSymbol s) (wasInFreeSpinsMode s) (sessionId s)
  (isTurboMode s) (betAmount s) (autoplayState s) (showActionWheel s) v
  (accumulatedActionWin s) (showFeatureSymbolSelection s) (selectedFeatureSymbol s)
  (freeSpinsCount s) (pendingBalanceUpdateRef s) (spinCancelledRef s) (spinCallback s)
  (toasts s) (requests s).
Definition setAccumulatedActionWin (v : Z) (s : St) : St :=
  mkSt (grid s) (spinningReels s) (bouncingReels s) (expandingReels s) (reelsToExpand
  s) (winningLines s) (baseGameWinningLines s) (featureGameWinningLines s)
  (showFeatureGameWins s) (winningFeedback s) (lastWin s) (balance s)
  (freeSpinsRemaining s) (featureSymbol s) (wasInFreeSpinsMode s) (sessionId s)
  (isTurboMode s) (betAmount s) (autoplayState s) (showActionWheel s) (actionGameSpins
  s) v (showFeatureSymbolSelection s) (selectedFeatureSymbol s) (freeSpinsCount s)
  (pendingBalanceUpdateRef s) (spinCancelledRef s) (spinCallback s) (toasts s)
  (requests s).
Definition setShowFeatureSymbolSelection (v : bool) (s : St) : St :=
  mkSt (grid s) (spinningReels s) (bouncingReels s) (expandingReels s) (reelsToExpand
  s) (winningLines s) (baseGameWinningLines s) (featureGameWinningLines s)
  (showFeatureGameWins s) (winningFeedback s) (lastWin s) (balance s)
  (freeSpinsRemaining s) (featureSymbol s) (wasInFreeSpinsMode s) (sessionId s)
  (isTurboMode s) (betAmount s) (autoplayState s) (showActionWheel s) (actionGameSpins
  s) (accumulatedActionWin s) v (selectedFeatureSymbol s) (freeSpinsCount s)
  (pendingBalanceUpdateRef s) (spinCancelledRef s) (spinCallback s) (toasts s)
  (requests s).
Definition setSelectedFeatureSymbol (v : string) (s : St) : St :=
  mkSt (grid s) (spinningReels s) (bouncingReels s) (expandingReels s) (reelsToExpand
  s) (winningLines s) (baseGameWinningLines s) (featureGameWinningLines s)
  (showFeatureGameWins s) (winningFeedback s) (lastWin s) (balance s)
  (freeSpinsRemaining s) (featureSymbol s) (wasInFreeSpinsMode s) (sessionId s)
  (isTurboMode s) (betAmount s) (autoplayState s) (showActionWheel s) (actionGameSpins
  s) (accumulatedActionWin s) (showFeatureSymbolSelection s) v (freeSpinsCount s)
  (pendingBalanceUpdateRef s) (spinCancelledRef s) (spinCallback s) (toasts s)
  (requests s).
Definition setFreeSpinsCount (v : Z) (s : St) : St :=
  mkSt (grid s) (spinningReels s) (bouncingReels s) (expandingReels s) (reelsToExpand
  s) (winningLines s) (baseGameWinningLines s) (featureGameWinningLines s)
  (showFeatureGameWins s) (winningFeedback s) (lastWin s) (balance s)
  (freeSpinsRemaining s) (featureSymbol s) (wasInFreeSpinsMode s) (sessionId s)
  (isTurboMode s) (betAmount s) (autoplayState s) (showActionWheel s) (actionGameSpins
  s) (accumulatedActionWin s) (showFeatureSymbolSelection s) (selectedFeatureSymbol s)
  v (pendingBalanceUpdateRef s) (spinCancelledRef s) (spinCallback s) (toasts s)
  (requests s).
Definition setPendingBalanceUpdateRef (v : option Z) (s : St) : St :=
  mkSt (grid s) (spinningReels s) (bouncingReels s) (expandingReels s) (reelsToExpand
  s) (winningLines s) (baseGameWinningLines s) (featureGameWinningLines s)
  (showFeatureGameWins s) (winningFeedback s) (lastWin s) (balance s)
  (freeSpinsRemaining s) (featureSymbol s) (wasInFreeSpinsMode s) (sessionId s)
  (isTurboMode s) (betAmount s) (autoplayState s) (showActionWheel s) (actionGameSpins
  s) (accumulatedActionWin s) (showFeatureSymbolSelection s) (selectedFeatureSymbol s)
  (freeSpinsCount s) v (spinCancelledRef s) (spinCallback s) (toasts s) (requests s).
Definition setSpinCancelledRef (v : bool) (s : St) : St :=
  mkSt (grid s) (spinningReels s) (bouncingReels s) (expandingReels s) (reelsToExpand
  s) (winningLines s) (baseGameWinningLines s) (featureGameWinningLines s)
  (showFeatureGameWins s) (winningFeedback s) (lastWin s) (balance s)
  (freeSpinsRemaining s) (featureSymbol s) (wasInFreeSpinsMode s) (sessionId s)
  (isTurboMode s) (betAmount s) (autoplayState s) (showActionWheel s) (actionGameSpins
  s) (accumulatedActionWin s) (showFeatureSymbolSelection s) (selectedFeatureSymbol s)
  (freeSpinsCount s) (pendingBalanceUpdateRef s) v (spinCallback s) (toasts s)
  (requests s).
Definition setSpinCallback (v : Closure) (s : St) : St :=
  mkSt (grid s) (spinningReels s) (bouncingReels s) (expandingReels s) (reelsToExpand
  s) (winningLines s) (baseGameWinningLines s) (featureGameWinningLines s)
  (showFeatureGameWins s) (winningFeedback s) (lastWin s) (balance s)
  (freeSpinsRemaining s) (featureSymbol s) (wasInFreeSpinsMode s) (sessionId s)
  (isTurboMode s) (betAmount s) (autoplayState s) (showActionWheel s) (actionGameSpins
  s) (accumulatedActionWin s) (showFeatureSymbolSelection s) (selectedFeatureSymbol s)
  (freeSpinsCount s) (pendingBalanceUpdateRef s) (spinCancelledRef s) v (toasts s)
  (requests s).
Definition setToasts (v : list Toast) (s : St) : St :=
  mkSt (grid s) (spinningReels s) (bouncingReels s) (expandingReels s) (reelsToExpand
  s) (winningLines s) (baseGameWinningLines s) (featureGameWinningLines s)
  (showFeatureGameWins s) (winningFeedback s) (lastWin s) (balance s)
  (freeSpinsRemaining s) (featureSymbol s) (wasInFreeSpinsMode s) (sessionId s)
  (isTurboMode s) (betAmount s) (autoplayState s) (showActionWheel s) (actionGameSpins
  s) (accumulatedActionWin s) (showFeatureSymbolSelection s) (selectedFeatureSymbol s)
  (freeSpinsCount s) (pendingBalanceUpdateRef s) (spinCancelledRef s) (spinCallback s)
  v (requests s).
Definition setRequests (v : list PlayRequest) (s : St) : St :=
  mkSt (grid s) (spinningReels s) (bouncingReels s) (expandingReels s) (reelsToExpand
  s) (winningLines s) (baseGameWinningLines s) (featureGameWinningLines s)
  (showFeatureGameWins s) (winningFeedback s) (lastWin s) (balance s)
  (freeSpinsRemaining s) (featureSymbol s) (wasInFreeSpinsMode s) (sessionId s)
  (isTurboMode s) (betAmount s) (autoplayState s) (showActionWheel s) (actionGameSpins
  s) (accumulatedActionWin s) (showFeatureSymbolSelection s) (selectedFeatureSymbol s)
  (freeSpinsCount s) (pendingBalanceUpdateRef s) (spinCancelledRef s) (spinCallback s)
  (toasts s) v.

Definition toast (t : Toast) (s : St) : St := setToasts (toasts s ++ [t]) s.

Definition initialAutoplay : AutoplayState :=
  {| isActive := false; settings := None; spinsRemaining := 0;
     totalLoss := 0; originalBalance := 0 |}.

(** ** Resumptions

    An [async] function is a tree of suspensions.  [Timer ms k] is
    [await new Promise(r => setTimeout(r, ms))] followed by [k]; [Net q k]
    is the awaited [gameApi.playGame(q)]; [Fork c k] starts a detached task
    ([setTimeout(f, ms)] or a call that is not awaited) and goes on with
    [k]; [Fin r] resolves the promise.  A continuation reads the state that
    holds when it is resumed. *)
Inductive NetAnswer : Type :=
| Replied (resp : PlayResponse) (elapsed : Z)   (* [Date.now() - spinStartTime] *)
| Rejected (msg : string).

Inductive Co : Type :=
| Fin (r : option SpinResult)
| Timer (ms : Z) (k : St → St * Co)
| Net (q : PlayRequest) (k : NetAnswer → St → St * Co)
| Fork (child : Co) (rest : Co).

Definition M (A : Type) : Type := St → St * A.

(** a state update followed by the rest *)
Definition exec (f : St → St) (k : M Co) : M Co := fun s => k (f s).
(** [await] on a timer *)
Definition await (ms : Z) (k : M Co) : M Co := fun s => (s, Timer ms k).
(** [if (spinCancelledRef.current) { cleanup; return null; }] *)
Definition if_cancelled (cleanup : St → St) (k : M Co) : M Co :=
  fun s => if spinCancelledRef s then (cleanup s, Fin None) else k s.
(** [return r] *)
Definition resolve (r : option SpinResult) : M Co := fun s => (s, Fin r).
(** a detached task running beside the rest *)
Definition detach (child : M Co) (k : M Co) : M Co :=
  fun s => let '(s1, c) := child s in let '(s2, r) := k s1 in (s2, Fork c r).

Notation "f ;;; k" := (exec f k) (at level 100, right associativity).

(** functional updaters, [setX(prev => f(prev))] *)
Definition updGrid (f : list (list string) → list (list string)) (s : St) : St :=
  setGrid (f (grid s)) s.
Definition updSpinningReels (f : list bool → list bool) (s : St) : St :=
  setSpinningReels (f (spinningReels s)) s.
Definition updBouncingReels (f : list bool → list bool) (s : St) : St :=
  setBouncingReels (f (bouncingReels s)) s.
Definition updAutoplayState (f : AutoplayState → AutoplayState) (s : St) : St :=
  setAutoplayState (f (autoplayState s)) s.

(** ** Derived values of a render *)

Definition numPaylines : Z := 5.
Definition truthy (x : string) : bool := bool_decide (x ≠ "").
Definition totalBet (s : St) : Z := betAmount s.
Definition isFreeSpinsMode (s : St) : bool := 0 <? freeSpinsRemaining s.
Definition isSpinning (s : St) : bool := some_true (spinningReels s).

Definition isAnimating (s : St) : bool :=
  isSpinning s
  || bool_decide (winningFeedback s ≠ None)
  || some_true (expandingReels s)
  || some_true (bouncingReels s)
  || showFeatureSymbolSelection s
  || showActionWheel s
  || showFeatureGameWins s.

(** ** The memoised [spin] callback *)

(** The closure that a render in state [s] makes. *)
Definition capture (s : St) : Closure :=
  {| c_isFreeSpinsMode := isFreeSpinsMode s; c_isAnimating := isAnimating s;
     c_isSpinning := isSpinning s; c_isTurboMode := isTurboMode s;
     c_balance := balance s; c_totalBet := totalBet s;
     c_freeSpinsRemaining := freeSpinsRemaining s;
     c_actionGameSpins := actionGameSpins s; c_sessionId := sessionId s |}.

(** The dependency list of [spin], as far as it can differ between two
    renders: [isAnimating, balance, totalBet, freeSpinsRemaining,
    actionGameSpins, sessionId, isTurboMode] ([betAmount] is [totalBet],
    [betPerPayline] a quotient of it, [numPaylines] a constant, [numReels]
    and [numRows] those of the configuration).  [isSpinning] is not in the
    list. *)
Definition sameDeps (c c' : Closure) : bool :=
  bool_decide (c_isAnimating c = c_isAnimating c')
  && (c_balance c =? c_balance c')
  && (c_totalBet c =? c_totalBet c')
  && (c_freeSpinsRemaining c =? c_freeSpinsRemaining c')
  && (c_actionGameSpins c =? c_actionGameSpins c')
  && bool_decide (c_sessionId c = c_sessionId c')
  && bool_decide (c_isTurboMode c = c_isTurboMode c').

(** [useCallback(spin, deps)] at a render: the callback of the last render
    is kept unless a dependency has changed. *)
Definition render (s : St) : St :=
  if sameDeps (spinCallback s) (capture s) then s
  else setSpinCallback (capture s) s.

(** [line.paylineIndex === -1 || line.paylineIndex < numPaylines] *)
Definition active (l : WinningLine) : bool :=
  (paylineIndex l =? -1) || (paylineIndex l <? numPaylines).

Definition premium (fs : string) : bool :=
  bool_decide (fs = "Queen") || bool_decide (fs = "Stone")
  || bool_decide (fs = "Leopard") || bool_decide (fs = "Wolf").

Definition expansionThreshold (fs : string) : nat := if premium fs then 2%nat else 3%nat.

Definition scatterLine (n : Z) : WinningLine :=
  {| paylineIndex := -1; symbol := "Scatter"; count := n; payout := 0; line := [] |}.

(** ** Handlers of the parent component *)

Definition handleActionWheelStateChange (showWheel : bool) (spins accumulatedWin : Z)
    (s : St) : St :=
  setAccumulatedActionWin accumulatedWin
    (setActionGameSpins spins (setShowActionWheel showWheel s)).

Definition handleFeatureSymbolSelectionStateChange (show : bool) (sym : string)
    (n : Z) (s : St) : St :=
  setFreeSpinsCount n (setSelectedFeatureSymbol sym (setShowFeatureSymbolSelection show s)).

(** [handleActionWheelSpin] once [gameApi.spinActionGame] has resolved. *)
Definition handleActionWheelSpin (response : ActionGameSpinResponse) (s : St) : St :=
  let s := setActionGameSpins (w_remainingSpins response) s in
  let s := setAccumulatedActionWin (w_accumulatedWin response) s in
  let s := if 0 <? w_remainingSpins response then setShowActionWheel true s else s in
  setPendingBalanceUpdateRef (Some (w_balance response)) s.

Definition handleActionWheelComplete (s : St) : St :=
  setActionGameSpins 0 (setShowActionWheel false s).

(** ** The spin round *)

Section Machine.

(** [useNumReels()], [useNumRows()], [config?.gameId || 'INFERNO_EMPRESS']
    and [config?.bookSymbol || config?.scatterSymbol || 'Scatter']. *)
Variables (numReels numRows : nat) (gameId scatterSymbol : string).

Definition allFalse : list bool := replicate numReels false.

(** [turbo ? a : b] *)
Definition pace (c : Closure) (a b : Z) : Z := if c_isTurboMode c then a else b.

(** From "Update state from response" to [return response.player.results]. *)
Definition finish (c : Closure) (response : PlayResponse) : M Co :=
  let res := p_results response in
  let previousFreeSpins := c_freeSpinsRemaining c in
  let backendAccumulatedWin := default 0 (p_accumulatedActionGameWin response) in
  let spins := top_actionGameSpins response in
  if_cancelled id (
  setBalance (p_balance response) ;;;
  setFreeSpinsRemaining (p_freeSpinsRemaining response) ;;;
  setFeatureSymbol (p_featureSymbol response) ;;;
  setLastWin (p_lastWin response) ;;;
  (if c_isFreeSpinsMode c then
     if actionGameTriggered res
     then handleActionWheelStateChange false spins backendAccumulatedWin
     else id
   else if actionGameTriggered res then
     if negb (triggeredFreeSpins res)
     then handleActionWheelStateChange true spins backendAccumulatedWin
     else handleActionWheelStateChange false spins backendAccumulatedWin
   else handleActionWheelStateChange false spins backendAccumulatedWin) ;;;
  (if (0 <? previousFreeSpins) && (p_freeSpinsRemaining response =? 0) then
     fun s =>
       let s := setWasInFreeSpinsMode true s in
       if (0 <? spins) || (0 <? backendAccumulatedWin)
       then handleActionWheelStateChange true spins backendAccumulatedWin s
       else s
   else if 0 <? p_freeSpinsRemaining response then setWasInFreeSpinsMode false
   else id) ;;;
  (if triggeredFreeSpins res && truthy (top_featureSymbol response)
      && negb (c_isFreeSpinsMode c)
   then handleFeatureSymbolSelectionStateChange true (top_featureSymbol response)
          (top_freeSpins response)
   else fun s =>
     let s := if actionGameTriggered res && negb (c_isFreeSpinsMode c)
                 && negb (triggeredFreeSpins res)
              then toast (ActionGameWon spins) s else s in
     if 0 <? p_lastWin response
     then setWinningFeedback (Some (p_lastWin response)) s
     else s) ;;;
  resolve (Some res)).

Definition clearExpanding : St → St := setExpandingReels allFalse.

(** The [for (const reelIndex of reelsToExpandArray)] loop. *)
Fixpoint expandReels (c : Closure) (fs : string) (reels : list nat) (k : M Co) : M Co :=
  match reels with
  | [] => k
  | reelIndex :: rest =>
      if_cancelled clearExpanding (
      await (pace c 100 300) (
      if_cancelled clearExpanding (
      updGrid (fun prevGrid => <[reelIndex := replicate numRows fs]> prevGrid) ;;;
      await (pace c 200 400) (
      if_cancelled clearExpanding (
      expandReels c fs rest k)))))
  end.

(** [newExpanding[reelIndex] = true] for each reel to expand. *)
Definition markExpanding (reels : list nat) : list bool :=
  foldl (fun acc reelIndex => js_set false reelIndex true acc) allFalse reels.

(** The free-spin branch after the settle wait. *)
Definition freeSpinsReveal (c : Closure) (response : PlayResponse)
    (reelsToExpandArray : list nat) (baseGameLines featureGameLines : list WinningLine)
    : M Co :=
  let res := p_results response in
  let fs := top_featureSymbol response in
  let baseGameLines :=
    if (triggeredFreeSpins res || (0 <? scatter_count res))
       && bool_decide (fs ≠ "Scatter")
    then baseGameLines ++ [scatterLine (scatter_count res)]
    else baseGameLines in
  let willExpand :=
    bool_decide (expansionThreshold fs ≤ length reelsToExpandArray)%nat && truthy fs in
  (if willExpand then setExpandingReels (markExpanding reelsToExpandArray) else id) ;;;
  (match baseGameLines with
   | [] => await (pace c 500 1000)
   | _ => fun k => setWinningLines baseGameLines ;;;
                   setBaseGameWinningLines baseGameLines ;;; k
   end) (
  if willExpand then
    setShowFeatureGameWins false ;;;
    await (pace c 500 1000) (
    if_cancelled clearExpanding (
    expandReels c fs reelsToExpandArray (
    await (pace c 500 1000) (
    if_cancelled clearExpanding (
    setShowFeatureGameWins true ;;;
    setExpandingReels allFalse ;;;
    match featureGameLines with
    | [] =>
        setWinningLines [] ;;;
        setFeatureGameWinningLines [] ;;;
        await (pace c 500 1000) (
        if_cancelled id (
        setShowFeatureGameWins false ;;;
        finish c response))
    | _ =>
        setFeatureGameWinningLines featureGameLines ;;;
        setWinningLines featureGameLines ;;;
        await (pace c 1000 2000) (
        if_cancelled id (
        setShowFeatureGameWins false ;;;
        finish c response))
    end)))))
  else
    setShowFeatureGameWins false ;;;
    finish c response).

(** The base-game branch after the settle wait. *)
Definition normalReveal (c : Closure) (response : PlayResponse)
    (baseGameLines : list WinningLine) : M Co :=
  let res := p_results response in
  let newWinningLines :=
    if triggeredFreeSpins res
    then baseGameLines ++ [scatterLine (scatter_count res)]
    else baseGameLines in
  setWinningLines newWinningLines ;;;
  finish c response.

(** The reel-stop loop, [for (let i = 0; i < numReels; i++)], then [k]. *)
Fixpoint stopReels (c : Closure) (originalGrid : list (list string))
    (i todo : nat) (k : M Co) : M Co :=
  match todo with
  | O => k
  | S todo' =>
      if_cancelled (setSpinningReels allFalse) (
      await (pace c 5 40 + Z.of_nat i * pace c 2 20) (
      if_cancelled (setSpinningReels allFalse) (
      updGrid (js_set [] i (default [] (originalGrid !! i))) ;;;
      await (pace c 2 20) (
      updBouncingReels (js_set false i true) ;;;
      detach (await 300 (updBouncingReels (js_set false i false) ;;; resolve None)) (
      updSpinningReels (js_set false i false) ;;;
      stopReels c originalGrid (S i) todo' k)))))
  end.

(** The [catch] block. *)
Definition onError (msg : string) : M Co :=
  (fun s => if spinCancelledRef s then s else toast (ConnectionError msg) s) ;;;
  setSpinningReels allFalse ;;;
  resolve None.

(** The [try] block from the line after [await gameApi.playGame(...)]. *)
Definition afterResponse (c : Closure) (response : PlayResponse) (elapsed : Z) : M Co :=
  let res := p_results response in
  let originalGrid := r_grid res in
  let fs := top_featureSymbol response in
  let reelsToExpandArray :=
    match expandedSymbols res with
    | [] => []
    | _ => if truthy fs then uniq [] (map fst (expandedSymbols res)) else []
    end in
  let baseGameLines := List.filter active (r_winningLines res) in
  let featureGameLines :=
    if c_isFreeSpinsMode c && truthy fs
    then List.filter active (r_featureGameWinningLines res)
    else [] in
  setReelsToExpand reelsToExpandArray ;;;
  if_cancelled id (
  let remainingTime := Z.max 0 (pace c 200 600 - elapsed) in
  (if 0 <? remainingTime then await remainingTime else fun k => k) (
  if_cancelled id (
  setWinningLines [] ;;;
  setShowFeatureGameWins false ;;;
  stopReels c originalGrid 0 numReels (
  if_cancelled id (
  await (pace c 200 500) (
  if_cancelled id (
  if c_isFreeSpinsMode c
  then freeSpinsReveal c response reelsToExpandArray baseGameLines featureGameLines
  else normalReveal c response baseGameLines))))))).

Definition playRequest (c : Closure) : PlayRequest :=
  {| q_sessionId := c_sessionId c;
     q_betAmount := c_totalBet c;
     q_numPaylines := numPaylines;
     q_actionGameSpins :=
       if negb (c_isFreeSpinsMode c) && (0 <? c_actionGameSpins c)
       then Some (c_actionGameSpins c) else None;
     q_gameId := gameId |}.

(** The [spinPromise] closure: the request and everything after it. *)
Definition spinPromise (c : Closure) : M Co :=
  if_cancelled id (fun s =>
    (setRequests (requests s ++ [playRequest c]) s,
     Net (playRequest c) (fun ans =>
       match ans with
       | Replied response elapsed => afterResponse c response elapsed
       | Rejected msg => onError msg
       end))).

(** [startReelsSequentially], which [spin] calls without awaiting it. *)
Fixpoint startReelsSequentially (c : Closure) (i todo : nat) : M Co :=
  match todo with
  | O => resolve None
  | S todo' =>
      if_cancelled id (
      updSpinningReels (js_set false i true) ;;;
      await (pace c 0 10) (startReelsSequentially c (S i) todo'))
  end.

(** [spin]: the guards, the synchronous reset, then the round.  The call
    runs the callback that [useCallback] holds, with the values that
    callback closed over. *)
Definition spin : M Co := fun s =>
  let c := spinCallback s in
  if c_isFreeSpinsMode c && c_isAnimating c then (s, Fin None)
  else if negb (c_isFreeSpinsMode c) && c_isSpinning c then (s, Fin None)
  else if negb (truthy (c_sessionId c)) then (s, Fin None)
  else if (c_balance c <? c_totalBet c) && (c_freeSpinsRemaining c =? 0)
          && (c_actionGameSpins c =? 0)
  then (toast InsufficientBalance s, Fin None)
  else
    (setSpinCancelledRef true ;;;
     setLastWin 0 ;;;
     setWinningLines [] ;;;
     setBaseGameWinningLines [] ;;;
     setFeatureGameWinningLines [] ;;;
     setShowFeatureGameWins false ;;;
     setReelsToExpand [] ;;;
     setWinningFeedback None ;;;
     setExpandingReels allFalse ;;;
     setBouncingReels allFalse ;;;
     setSpinningReels allFalse ;;;
     await 0 (
     setSpinCancelledRef false ;;;
     detach (startReelsSequentially c 0 numReels) (spinPromise c))) s.

(** ** The ways a spin is requested *)

(** The control panel's [onSpin] prop, [showActionWheel ? (() => {}) : spin]. *)
Definition onSpin : M Co := fun s =>
  if showActionWheel s then (s, Fin None) else spin s.

(** The ["S"] branch of [handleKeyDown]; spinning the bonus wheel is not a
    reel spin.  Every value the handler reads is in the dependency list
    of its effect, so it reads the committed state. *)
Definition handleKeyDown_S : M Co := fun s =>
  if showActionWheel s && (0 <? actionGameSpins s) then (s, Fin None)
  else if negb (isAnimating s) && truthy (sessionId s) && negb (showActionWheel s) then
    if (totalBet s <=? balance s) || (0 <? freeSpinsRemaining s)
       || (0 <? actionGameSpins s)
    then spin s else (s, Fin None)
  else (s, Fin None).

(** ** Autoplay *)

Definition startAutoplay (a : AutoplaySettings) (s : St) : St :=
  toast (AutoplayStarted (numberOfSpins a))
    (setAutoplayState
       {| isActive := true; settings := Some a; spinsRemaining := numberOfSpins a;
          totalLoss := 0; originalBalance := balance s |} s).

Definition stopAutoplay (s : St) : St :=
  toast AutoplayStopped (setAutoplayState initialAutoplay s).

(** [checkAutoplayStopConditions] of a render whose autoplay state is [a]
    and whose balance is [bal].  The loss is a difference of whole
    numbers, which the doubles of JavaScript compute exactly. *)
Definition checkAutoplayStopConditions (a : AutoplayState) (bal : Z)
    (spinResult : SpinResult) : bool :=
  match isActive a, settings a with
  | true, Some cfg =>
      if stopOnAnyWin cfg && (0 <? totalWin spinResult) then true
      else if stopOnSingleWinExceeds cfg <? totalWin spinResult then true
      else if stopOnFeature cfg && triggeredFreeSpins spinResult then true
      else
        let currentLoss := originalBalance a - bal in
        if stopOnTotalLossExceeds cfg <? currentLoss then true else false
  | _, _ => false
  end.

(** What one run of the autoplay effect does. *)
Inductive EffectAction : Type :=
| Idle                     (* autoplay inactive: the effect returns *)
| StoppedAtZero            (* [spinsRemaining <= 0] *)
| StoppedInsufficient      (* balance check *)
| Scheduled (delay : Z)    (* a timer for the next spin was set *)
| Waiting.                 (* animations in progress: no timer *)

Definition autoplayEffect (s : St) : St * EffectAction :=
  let a := autoplayState s in
  match isActive a, settings a with
  | true, Some _ =>
      if spinsRemaining a <=? 0 then (stopAutoplay s, StoppedAtZero)
      else if (balance s <? totalBet s) && negb (isFreeSpinsMode s)
              && (actionGameSpins s =? 0)
      then (toast AutoplayInsufficientBalance (stopAutoplay s), StoppedInsufficient)
      else if negb (isAnimating s)
              && ((totalBet s <=? balance s) || isFreeSpinsMode s
                  || (0 <? actionGameSpins s))
      then (s, Scheduled (if isTurboMode s then 500 else 1000))
      else (s, Waiting)
  | _, _ => (s, Idle)
  end.

(** The [.then] callback of the autoplay timer.  [render] is the state of
    the render whose effect set the timer: [checkAutoplayStopConditions]
    is that render's closure. *)
Definition autoplayThen (render : St) (spinResult : option SpinResult) (s : St) : St :=
  match spinResult with
  | Some r =>
      if checkAutoplayStopConditions (autoplayState render) (balance render) r
      then stopAutoplay s
      else updAutoplayState (fun prev =>
             {| isActive := isActive prev; settings := settings prev;
                spinsRemaining := spinsRemaining prev - 1;
                totalLoss := totalLoss prev;
                originalBalance := originalBalance prev |}) s
  | None =>
      updAutoplayState (fun prev =>
        {| isActive := isActive prev; settings := settings prev;
           spinsRemaining := spinsRemaining prev - 1;
           totalLoss := totalLoss prev;
           originalBalance := originalBalance prev |}) s
  end.

(** The autoplay timer callback: [if (!isAnimating) spin().then(...)].
    The result is the spin's resumption, or [None] when no spin is called. *)
Definition autoplayTimer (s : St) : St * option Co :=
  if negb (isAnimating s) then let '(s', c) := spin s in (s', Some c)
  else (s, None).

(** ** Borders *)

(** [getWinningLineIndices(reelIndex, rowIndex)]: the payline indices whose
    border is drawn on a cell ([10] marks a scatter win). *)
Definition getWinningLineIndices (s : St) (reelIndex rowIndex : nat) : list Z :=
  match winningLines s with
  | [] => []
  | _ =>
      let fs := featureSymbol s in
      let isShowingFeatureGameWins :=
        isFreeSpinsMode s && showFeatureGameWins s
        && bool_decide (expansionThreshold fs ≤ length (reelsToExpand s))%nat in
      let gridSymbol : option string := grid s !! reelIndex ≫= (.!! rowIndex) in
      let featureGameLines :=
        List.filter (fun l => negb (paylineIndex l =? -1)
                              && bool_decide (symbol l = fs)
                              && (paylineIndex l <? numPaylines))
                    (winningLines s) in
      let onExpandedReel :=
        isFreeSpinsMode s && bool_decide (reelIndex ∈ reelsToExpand s) && truthy fs in
      match onExpandedReel, featureGameLines with
      | true, _ :: _ => map paylineIndex featureGameLines
      | _, _ =>
          foldl (fun acc l =>
            if isFreeSpinsMode s && isShowingFeatureGameWins then acc
            else if negb (paylineIndex l =? -1) then
              if (paylineIndex l <? numPaylines)
                 && bool_decide (line l !! reelIndex = Some (Z.of_nat rowIndex))
                 && (Z.of_nat reelIndex <? count l)
                 && (bool_decide (gridSymbol = Some (symbol l))
                     || bool_decide (gridSymbol = Some scatterSymbol))
              then acc ++ [paylineIndex l] else acc
            else
              if (3 <=? count l) && bool_decide (gridSymbol = Some (symbol l))
                 && (negb (isFreeSpinsMode s)
                     || (bool_decide (fs ≠ "Scatter") && negb isShowingFeatureGameWins))
              then acc ++ [10] else acc)
            [] (winningLines s)
      end
  end.

End Machine.

End Slot.

(** ** The event loop *)

Module Loop.

Import Slot.

(** A suspended task is either detached (its result is dropped) or a spin
    promise, possibly with the [.then] callback that autoplay attached. *)
Inductive Role : Type :=
| Detached
| SpinPromise (then_cb : option (option SpinResult → St → St)).

Record Task : Type := {
  due : Z;            (* when its timer expires (timers only) *)
  born : Z;           (* when it was suspended *)
  body : Co;
  role : Role
}.

(** Virtual time in milliseconds, the component state, the suspended tasks
    in the order they were suspended, the values the spin promises resolved
    with, and whether an event from outside has met a timer expiring at its
    very millisecond. *)
Record World : Type := {
  now : Z;
  ui : St;
  pool : list Task;
  resolved : list (option SpinResult);
  tied : bool
}.

Definition with_ui (s : St) (w : World) : World :=
  {| now := now w; ui := s; pool := pool w; resolved := resolved w; tied := tied w |}.

(** React renders once the state changes of a task are in: the component
    body runs and [useCallback] decides which [spin] the next task sees. *)
Definition commit (w : World) : World := with_ui (render (ui w)) w.

(** Registers what a step left behind at time [t]. *)
Fixpoint spawn (t : Z) (r : Role) (c : Co) (w : World) : World :=
  match c with
  | Fin v =>
      match r with
      | Detached => w
      | SpinPromise cb =>
          {| now := now w;
             ui := match cb with Some f => f v (ui w) | None => ui w end;
             pool := pool w;
             resolved := resolved w ++ [v];
             tied := tied w |}
      end
  | Timer ms _ =>
      {| now := now w; ui := ui w;
         pool := pool w ++ [{| due := t + ms; born := t; body := c; role := r |}];
         resolved := resolved w; tied := tied w |}
  | Net _ _ =>
      {| now := now w; ui := ui w;
         pool := pool w ++ [{| due := t; born := t; body := c; role := r |}];
         resolved := resolved w; tied := tied w |}
  | Fork child rest => spawn t r rest (spawn t Detached child w)
  end.

Definition is_timer (k : Task) : bool :=
  match body k with Timer _ _ => true | _ => false end.

Definition is_request (k : Task) : bool :=
  match body k with Net _ _ => true | _ => false end.

(** Index of the timer that expires first; among equal due times the one
    set first. *)
Fixpoint next_timer (i : nat) (best : option (nat * Z)) (l : list Task) : option (nat * Z) :=
  match l with
  | [] => best
  | k :: l' =>
      let best' :=
        if is_timer k then
          match best with
          | Some (_, d) => if due k <? d then Some (i, due k) else best
          | None => Some (i, due k)
          end
        else best in
      next_timer (S i) best' l'
  end.

(** Index of the oldest pending request. *)
Fixpoint first_request (i : nat) (l : list Task) : option nat :=
  match l with
  | [] => None
  | k :: l' => if is_request k then Some i else first_request (S i) l'
  end.

(** Resumes the [i]-th suspended task at time [t] with answer [ans] (timers
    ignore the answer); a render follows. *)
Definition resume (i : nat) (t : Z) (ans : NetAnswer) (w : World) : World :=
  match pool w !! i with
  | None => w
  | Some k =>
      let w' := {| now := t; ui := ui w; pool := delete i (pool w);
                   resolved := resolved w; tied := tied w |} in
      match body k with
      | Timer _ f => let '(s, c) := f (ui w) in commit (spawn t (role k) c (with_ui s w'))
      | Net _ f => let '(s, c) := f ans (ui w) in commit (spawn t (role k) c (with_ui s w'))
      | _ => w
      end
  end.

(** Lets time pass up to [limit], firing the expired timers in order. *)
Fixpoint advance (fuel : nat) (limit : Z) (w : World) : World :=
  match fuel with
  | O => w
  | S fuel' =>
      match next_timer 0 None (pool w) with
      | Some (i, d) =>
          if d <=? limit
          then advance fuel' limit (resume i (Z.max (now w) d) (Rejected "") w)
          else {| now := Z.max (now w) limit; ui := ui w; pool := pool w;
                  resolved := resolved w; tied := tied w |}
      | None => {| now := Z.max (now w) limit; ui := ui w; pool := pool w;
                   resolved := resolved w; tied := tied w |}
      end
  end.

(** A timer of the pool expires at [t] exactly. *)
Definition expires_at (t : Z) (w : World) : bool :=
  existsb (fun k => is_timer k && (due k =? t)) (pool w).

Section Events.

Variables (numReels numRows : nat) (gameId : string).

(** What happens from outside, each at a time: a click on the spin
    control, the ["S"] key, the autoplay timer going off, the server
    answering or failing the oldest pending request, the autoplay effect
    running after a render, or nothing (time passes). *)
Inductive Event : Type :=
| Click (t : Z)
| KeyS (t : Z)
| AutoplayTimerFires (t : Z)
| AutoplayEffectRuns (t : Z)
| PlayReplies (t : Z) (response : PlayResponse)
| PlayRejects (t : Z) (msg : string)
| Pass (t : Z).

Definition time_of (e : Event) : Z :=
  match e with
  | Click t | KeyS t | AutoplayTimerFires t | AutoplayEffectRuns t
  | PlayReplies t _ | PlayRejects t _ | Pass t => t
  end.

(** [Pass] only lets time pass; the other events come from outside. *)
Definition from_outside (e : Event) : bool :=
  match e with Pass _ => false | _ => true end.

(** A handler runs; a round it started is registered, a call that
    returned at once leaves only its state changes; a render follows. *)
Definition call (t : Z) (r : Role) (f : M Co) (w : World) : World :=
  let '(s, c) := f (ui w) in
  match c with
  | Fin _ => commit (with_ui s w)
  | _ => commit (spawn t r c (with_ui s w))
  end.

Definition answer (t : Z) (a : Z → NetAnswer) (w : World) : World :=
  match first_request 0 (pool w) with
  | Some i =>
      match pool w !! i with
      | Some k => resume i t (a (t - born k)) w
      | None => w
      end
  | None => w
  end.

(** The timers that expired before [t] have fired when the event of time
    [t] is handled.  An event from outside goes before a timer that
    expires in its very millisecond (a key pressed twice in one instant
    is handled twice before the 0 ms timer of the first press fires);
    for a timer set earlier the browser leaves the order open, and
    [tied] records that the case arose.  [Pass t] lets the timers up to
    and including [t] fire. *)
Definition handle (fuel : nat) (e : Event) (w : World) : World :=
  let t := time_of e in
  let w := advance fuel (t - 1) w in
  let w := {| now := Z.max (now w) t; ui := ui w; pool := pool w;
              resolved := resolved w;
              tied := tied w || (from_outside e && expires_at t w) |} in
  match e with
  | Click _ => call t (SpinPromise None) (onSpin numReels numRows gameId) w
  | KeyS _ => call t (SpinPromise None) (handleKeyDown_S numReels numRows gameId) w
  | AutoplayTimerFires _ =>
      match snd (autoplayEffect (ui w)) with
      | Scheduled _ =>
          let render := ui w in
          match autoplayTimer numReels numRows gameId (ui w) with
          | (s, Some c) =>
              commit (spawn t (SpinPromise (Some (autoplayThen render))) c (with_ui s w))
          | (s, None) => commit (with_ui s w)
          end
      | _ => w
      end
  | AutoplayEffectRuns _ => commit (with_ui (fst (autoplayEffect (ui w))) w)
  | PlayReplies _ response => answer t (Replied response) w
  | PlayRejects _ msg => answer t (fun _ => Rejected msg) w
  | Pass _ => advance fuel t w
  end.

Definition run (fuel : nat) (es : list Event) (w : World) : World :=
  foldl (fun w e => handle fuel e w) w es.

End Events.

Definition boot (s : St) : World :=
  {| now := 0; ui := s; pool := []; resolved := []; tied := false |}.

End Loop.

(** ** Runs of one task *)

Module Round.

Import Slot.

(** [settles R a s c sf r]: the task [c], suspended in state [s], runs to
    the end and resolves with [r], leaving [sf]; [a] answers its request.
    While it is suspended the rest of the program may change the state
    within [R]. *)
Inductive settles (R : St → St → Prop) (a : NetAnswer)
    : St → Co → St → option SpinResult → Prop :=
| settles_fin s r :
    settles R a s (Fin r) s r
| settles_timer s ms k s' s1 c1 sf r :
    R s s' → k s' = (s1, c1) → settles R a s1 c1 sf r →
    settles R a s (Timer ms k) sf r
| settles_net s q k s' s1 c1 sf r :
    R s s' → k a s' = (s1, c1) → settles R a s1 c1 sf r →
    settles R a s (Net q k) sf r
| settles_fork s child rest sf r :
    settles R a s rest sf r →
    settles R a s (Fork child rest) sf r.

(** A run of [m] from [s]. *)
Definition runs (R : St → St → Prop) (a : NetAnswer) (m : M Co) (s sf : St)
    (r : option SpinResult) : Prop :=
  settles R a (fst (m s)) (snd (m s)) sf r.

(** Every run of [m] from a state in [P] ends in [Q]. *)
Definition triple (R : St → St → Prop) (a : NetAnswer) (P : St → Prop) (m : M Co)
    (Q : St → option SpinResult → Prop) : Prop :=
  ∀ s, P s → ∀ sf r, runs R a m s sf r → Q sf r.

(** Any interference at all. *)
Definition anything : St → St → Prop := fun _ _ => True.

(** Interference that leaves the grid and the winning lines alone: what the
    detached timers of a round (reel start, bounce reset) and the overlay
    callbacks respect. *)
Definition keeps_display : St → St → Prop :=
  fun s s' => grid s' = grid s ∧ winningLines s' = winningLines s.

(** The task run on its own, nothing else touching the state. *)
Fixpoint drive (a : NetAnswer) (c : Co) (s : St) : St * option SpinResult :=
  match c with
  | Fin r => (s, r)
  | Timer _ k => let '(s1, c1) := k s in drive a c1 s1
  | Net _ k => let '(s1, c1) := k a s in drive a c1 s1
  | Fork _ rest => drive a rest s
  end.

(** The task run while the rest of the program does [env] to the state at
    every suspension. *)
Fixpoint drive_amid (env : St → St) (a : NetAnswer) (c : Co) (s : St)
    : St * option SpinResult :=
  match c with
  | Fin r => (s, r)
  | Timer _ k => let '(s1, c1) := k (env s) in drive_amid env a c1 s1
  | Net _ k => let '(s1, c1) := k a (env s) in drive_amid env a c1 s1
  | Fork _ rest => drive_amid env a rest s
  end.

(** A spin round was started: the guards of [spin] passed. *)
Definition started (c : Co) : bool :=
  match c with Timer _ _ => true | _ => false end.

(** The timer a task waits on expires in state [s]. *)
Definition resumeTimer (c : Co) (s : St) : St * Co :=
  match c with Timer _ k => k s | _ => (s, c) end.

End Round.

(** ** Assertions about runs *)

Module Assert.

Import Slot Loop Round.

(** The four player fields of the state are those of the response. *)
Definition synced (response : PlayResponse) (s : St) : Prop :=
  balance s = p_balance response
  ∧ freeSpinsRemaining s = p_freeSpinsRemaining response
  ∧ featureSymbol s = p_featureSymbol response
  ∧ lastWin s = p_lastWin response.

(** A round that resolves with a result has synchronised the player fields
    and returns the response's results. *)
Definition completed_synced (response : PlayResponse) (sf : St)
    (r : option SpinResult) : Prop :=
  ∀ res, r = Some res → synced response sf ∧ res = p_results response.

(** Every run of [m], whatever else happens meanwhile, ends that way. *)
Definition safe (response : PlayResponse) (elapsed : Z) (m : M Co) : Prop :=
  triple anything (Replied response elapsed) (fun _ => True) m
    (completed_synced response).

(** An assertion on what is displayed: the grid and the winning lines. *)
Definition lift (D : list (list string) → list WinningLine → Prop) (s : St) : Prop :=
  D (grid s) (winningLines s).

(** An update that leaves the grid and the winning lines alone. *)
Definition display_only (f : St → St) : Prop :=
  ∀ s, grid (f s) = grid s ∧ winningLines (f s) = winningLines s.

(** All [numReels] reels are on screen and each reel of [reels] among them
    shows [fs] on every row. *)
Definition expanded (numReels numRows : nat) (fs : string) (reels : list nat)
    (g : list (list string)) : Prop :=
  (numReels ≤ length g)%nat
  ∧ ∀ reel, reel ∈ reels → (reel < numReels)%nat →
            g !! reel = Some (replicate numRows fs).

(** The distinct reels on which the response expands the feature symbol. *)
Definition expandedReels (response : PlayResponse) : list nat :=
  uniq [] (map fst (expandedSymbols (p_results response))).

(** The feature-game lines of the response on active paylines. *)
Definition featureLines (response : PlayResponse) : list WinningLine :=
  List.filter active (r_featureGameWinningLines (p_results response)).

(** What a completed free-spin round with expansion shows. *)
Definition revealed (numReels numRows : nat) (fs : string) (reels : list nat)
    (lines : list WinningLine) (sf : St) (r : option SpinResult) : Prop :=
  r ≠ None → expanded numReels numRows fs reels (grid sf) ∧ winningLines sf = lines.

(** The same for the feature symbol, reels and lines of a response. *)
Definition reveals (numReels numRows : nat) (response : PlayResponse)
    : St → option SpinResult → Prop :=
  revealed numReels numRows (top_featureSymbol response) (expandedReels response)
    (featureLines response).

(** Every run of [m] from a display satisfying [D], the display being left
    alone by the rest of the program, ends in [Q]. *)
Definition shown (response : PlayResponse) (elapsed : Z)
    (D : list (list string) → list WinningLine → Prop) (m : M Co)
    (Q : St → option SpinResult → Prop) : Prop :=
  triple keeps_display (Replied response elapsed) (lift D) m Q.

(** Interference that does not touch the cancellation flag: no other spin
    is issued while the round is in flight. *)
Definition undisturbed : St → St → Prop :=
  fun s s' => spinCancelledRef s' = spinCancelledRef s.

(** Every undisturbed run of [m] from a state whose flag is down resolves
    with the response's results. *)
Definition live (response : PlayResponse) (elapsed : Z) (m : M Co) : Prop :=
  triple undisturbed (Replied response elapsed)
    (fun s => spinCancelledRef s = false) m
    (fun _ r => r = Some (p_results response)).

(** An update that does not touch the cancellation flag. *)
Definition flag_free (f : St → St) : Prop :=
  ∀ s, spinCancelledRef (f s) = spinCancelledRef s.

(** The [spin] callback held in [s] is what [useCallback] holds after a
    render of [s]: the callback some render [r] made, no dependency having
    changed from [r] to [s].  The event loop runs every handler in such a
    state ([handle_memoised]). *)
Definition memoised (s : St) : Prop :=
  ∃ r, spinCallback s = capture r ∧ sameDeps (capture r) (capture s) = true.

(** A task no step of which replaces the [spin] callback (only a render
    does). *)
Inductive tame : Co → Prop :=
| tame_fin r : tame (Fin r)
| tame_timer ms k :
    (∀ s, spinCallback (fst (k s)) = spinCallback s) →
    (∀ s, tame (snd (k s))) →
    tame (Timer ms k)
| tame_net q k :
    (∀ a s, spinCallback (fst (k a s)) = spinCallback s) →
    (∀ a s, tame (snd (k a s))) →
    tame (Net q k)
| tame_fork child rest : tame child → tame rest → tame (Fork child rest).

(** The same for a function that starts a task. *)
Definition steady (m : M Co) : Prop :=
  ∀ s, spinCallback (fst (m s)) = spinCallback s ∧ tame (snd (m s)).

(** An update that leaves the [spin] callback alone. *)
Definition keeps_callback (f : St → St) : Prop :=
  ∀ s, spinCallback (f s) = spinCallback s.

(** The suspended tasks are tame and so are the callbacks attached to the
    spin promises. *)
Definition orderly (w : World) : Prop :=
  Forall (fun k => tame (body k)
                   ∧ match role k with
                     | SpinPromise (Some f) => ∀ v, keeps_callback (f v)
                     | _ => True
                     end) (pool w).

(** A state whose callback a render made, with a pool of tame tasks: what
    a step of the event loop leaves before the render that follows it. *)
Definition sound (w : World) : Prop :=
  (∃ r, spinCallback (ui w) = capture r) ∧ orderly w.

(** The balance cannot pay the bet and nothing else pays for the spin. *)
Definition lowBalance (s : St) : Prop :=
  balance s < totalBet s ∧ freeSpinsRemaining s = 0 ∧ actionGameSpins s = 0.

End Assert.

(** ** Sample data *)

(** Every sample state is one that a render has committed: its [spin]
    callback is the one [useCallback] holds after that render. *)

Module Samples.

Import Slot Loop Round.

Definition idle : St :=
  {| grid := replicate 5 (replicate 3 "A");
     spinningReels := replicate 5 false;
     bouncingReels := replicate 5 false;
     expandingReels := replicate 5 false;
     reelsToExpand := [];
     winningLines := [];
     baseGameWinningLines := [];
     featureGameWinningLines := [];
     showFeatureGameWins := false;
     winningFeedback := None;
     lastWin := 0;
     balance := 1000;
     freeSpinsRemaining := 0;
     featureSymbol := "";
     wasInFreeSpinsMode := false;
     sessionId := "session-1";
     isTurboMode := false;
     betAmount := 10;
     autoplayState := initialAutoplay;
     showActionWheel := false;
     actionGameSpins := 0;
     accumulatedActionWin := 0;
     showFeatureSymbolSelection := false;
     selectedFeatureSymbol := "";
     freeSpinsCount := 0;
     pendingBalanceUpdateRef := None;
     spinCancelledRef := false;
     spinCallback :=
       {| c_isFreeSpinsMode := false; c_isAnimating := false; c_isSpinning := false;
          c_isTurboMode := false; c_balance := 1000; c_totalBet := 10;
          c_freeSpinsRemaining := 0; c_actionGameSpins := 0;
          c_sessionId := "session-1" |};
     toasts := [];
     requests := [] |}.

Definition coinLine : WinningLine :=
  {| paylineIndex := 0; symbol := "Coin"; count := 3; payout := 50; line := [1; 1; 1; 0; 0] |}.

Definition coinGrid : list (list string) :=
  [["A"; "Coin"; "K"]; ["Q"; "Coin"; "J"]; ["K"; "Coin"; "A"]; ["J"; "Q"; "K"]; ["A"; "K"; "Q"]].

Definition coinResult : SpinResult :=
  {| totalWin := 50; r_winningLines := [coinLine]; scatter_count := 0;
     triggeredFreeSpins := false; r_grid := coinGrid; actionGameTriggered := false;
     expandedSymbols := []; r_featureGameWinningLines := [] |}.

Definition coinResponse : PlayResponse :=
  {| p_balance := 1040; p_freeSpinsRemaining := 0; p_lastWin := 50;
     p_results := coinResult; p_featureSymbol := "";
     p_accumulatedActionGameWin := None; top_freeSpins := 0;
     top_actionGameSpins := 0; top_featureSymbol := "" |}.

Definition gid : string := "INFERNO_EMPRESS".

(** The win animation of the previous round is still on screen. *)
Definition showingWin : St := render (setWinningFeedback (Some 50) idle).

(** The bonus wheel is open. *)
Definition wheelOpen : St := render (setShowActionWheel true idle).

(** A balance below the bet, no free spins, no bonus spins. *)
Definition broke : St := render (setBalance 5 idle).

(** Five free spins left with the feature symbol "Queen". *)
Definition freeSpinning : St :=
  render (setFeatureSymbol "Queen" (setFreeSpinsRemaining 5 idle)).

Definition queenLine : WinningLine :=
  {| paylineIndex := 2; symbol := "Queen"; count := 4; payout := 200;
     line := [2; 2; 2; 2; 2] |}.

Definition farLine : WinningLine :=
  {| paylineIndex := 7; symbol := "Queen"; count := 3; payout := 20;
     line := [0; 1; 2; 1; 0] |}.

Definition queenGrid : list (list string) :=
  [["A"; "Coin"; "K"]; ["Q"; "Coin"; "Queen"]; ["K"; "Coin"; "A"];
   ["Queen"; "Q"; "K"]; ["A"; "K"; "Q"]].

(** A free-spin response: "Queen" lands on reels 1 and 3. *)
Definition queenResult : SpinResult :=
  {| totalWin := 250; r_winningLines := [coinLine]; scatter_count := 0;
     triggeredFreeSpins := false; r_grid := queenGrid; actionGameTriggered := false;
     expandedSymbols := [(1, 2); (3, 0); (1, 0)]%nat;
     r_featureGameWinningLines := [queenLine; farLine] |}.

Definition queenResponse : PlayResponse :=
  {| p_balance := 1250; p_freeSpinsRemaining := 4; p_lastWin := 250;
     p_results := queenResult; p_featureSymbol := "Queen";
     p_accumulatedActionGameWin := None; top_freeSpins := 4;
     top_actionGameSpins := 0; top_featureSymbol := "Queen" |}.

(** Fifty units of bonus-wheel winnings accumulated so far. *)
Definition banked : St := setAccumulatedActionWin 50 idle.

(** Autoplay: ten spins, stop when more than 5 has been lost. *)
Definition lossLimit : AutoplaySettings :=
  {| numberOfSpins := 10; stopOnAnyWin := false; stopOnSingleWinExceeds := 2000000;
     stopOnFeature := true; stopOnTotalLossExceeds := 5 |}.

Definition autoplaying : St := startAutoplay lossLimit idle.

Definition blankGrid : list (list string) :=
  [["A"; "K"; "Q"]; ["J"; "A"; "K"]; ["Q"; "J"; "A"]; ["K"; "Q"; "J"]; ["A"; "K"; "Q"]].

Definition losingResult : SpinResult :=
  {| totalWin := 0; r_winningLines := []; scatter_count := 0;
     triggeredFreeSpins := false; r_grid := blankGrid; actionGameTriggered := false;
     expandedSymbols := []; r_featureGameWinningLines := [] |}.

(** A losing round: the bet of 10 is gone. *)
Definition losingResponse : PlayResponse :=
  {| p_balance := 990; p_freeSpinsRemaining := 0; p_lastWin := 0;
     p_results := losingResult; p_featureSymbol := "";
     p_accumulatedActionGameWin := None; top_freeSpins := 0;
     top_actionGameSpins := 0; top_featureSymbol := "" |}.

(** A base-game round started with the "S" key, answered after 100 ms and
    left to finish. *)
Definition quietRound : list Event :=
  [KeyS 0; PlayReplies 100 coinResponse; Pass 5000].

(** A base-game round whose reels have all stopped by 1100 ms, whose last
    bounce ends at 1400 ms and whose settle wait ends at 1600 ms; the "S"
    key is pressed again at 1450 ms. *)
Definition supersedingSpin : list Event :=
  [KeyS 0; PlayReplies 100 coinResponse; KeyS 1450; Pass 1600].

(** A free-spin round answered after 100 ms and left to finish. *)
Definition quietFreeSpin : list Event :=
  [KeyS 0; PlayReplies 100 queenResponse; Pass 9000].

(** The request fails 5 ms after it was sent, while the reels are still
    being started 10 ms apart. *)
Definition fastFailure : list Event :=
  [KeyS 0; PlayRejects 5 "Failed to fetch"; Pass 5000].

(** The request fails after all reels have started. *)
Definition slowFailure : list Event :=
  [KeyS 0; PlayRejects 100 "Failed to fetch"; Pass 5000].

(** The autoplay timer goes off, the round loses the bet, the effect runs
    again after the round. *)
Definition losingAutoplayRound : list Event :=
  [AutoplayTimerFires 1000; PlayReplies 1100 losingResponse; Pass 4000;
   AutoplayEffectRuns 4000].

Definition play (es : list Event) (s : St) : World := run 5 3 gid 200 es (boot s).

(** The first reel of a round is being stopped: the stop delay has passed
    and the grid shows the reel; the task now waits for the grid update. *)
Definition stoppingFirstReel : St * Co :=
  let '(s1, c1) :=
    stopReels 5 (capture idle) coinGrid 0 1 (resolve None)
      (setSpinningReels [true; true; true; true; true] idle) in
  resumeTimer c1 s1.



(** A free-spin response with neither win nor expansion. *)
Definition blankFreeSpin : PlayResponse :=
  {| p_balance := 1000; p_freeSpinsRemaining := 3; p_lastWin := 0;
     p_results := losingResult; p_featureSymbol := "Queen";
     p_accumulatedActionGameWin := None; top_freeSpins := 3;
     top_actionGameSpins := 0; top_featureSymbol := "Queen" |}.

(** A free-spin round answered after 100 ms, whose reels have stopped and
    bounced by 1400 ms and which waits until 1600 ms before it shows its
    wins and expands; the "S" key is pressed again at 1450 ms, and the
    second request is answered at 4100 ms. *)
Definition overlappingFreeSpins (until : Z) : list Event :=
  [KeyS 0; PlayReplies 100 queenResponse; KeyS 1450; PlayReplies 4100 blankFreeSpin;
   Pass until].


End Samples.

(** * The code around the spin round

    The functions that the orchestration code calls or is called by: the
    request service, the scatter-symbol hook, the initial session and grid
    effects of the slot machine, the bonus wheel and the handlers of [Home]
    that serve it, the feature-symbol selection screen and the geometry of
    the winning-lines overlay.

    A value of [Math.random()] is a rational [u]; its contract [0 <= u < 1]
    is a hypothesis wherever a statement needs it.  Times and the amounts
    computed from them are rationals as well.  An [undefined] element is
    [None]. *)

From Stdlib Require QArith Qround Qminmax Lqa.
From stdpp Require pretty.

(** [a || b] where [a] is a string or is absent. *)
Definition js_or (a : option string) (b : string) : string :=
  match a with
  | Some x => if Slot.truthy x then x else b
  | None => b
  end.

(** The contract of [Math.random()]. *)
Definition is_random (u : QArith_base.Q) : Prop :=
  QArith_base.Qle (QArith_base.inject_Z 0) u ∧ QArith_base.Qlt u (QArith_base.inject_Z 1).

(** [Math.floor(u * n)], the product taken exactly.  The double product of
    the code is the exact one rounded, so for some draws its floor is the
    neighbouring index; like this one it lies from [0] to [n - 1], and the
    statements below hold for whichever index a draw selects. *)
Definition floor_times (u : QArith_base.Q) (n : nat) : Z :=
  Qround.Qfloor (QArith_base.Qmult u (QArith_base.inject_Z (Z.of_nat n))).

(** ** The request service ([game-api.ts]) and the game id of a spin *)

Module Api.

Import Slot.

Definition DEFAULT_GAME_ID : string := "INFERNO_EMPRESS".

(** [getGameId()]: the [gameId] query parameter ([None] without a window or
    without the parameter), then [NEXT_PUBLIC_GAME_ID], then the default. *)
Definition getGameId (gameIdParam env : option string) : string :=
  match gameIdParam with
  | Some p => if truthy p then p else js_or env DEFAULT_GAME_ID
  | None => js_or env DEFAULT_GAME_ID
  end.

(** The body that [playGame] posts: [{...request, gameId: request.gameId ||
    getGameId()}].  An absent [gameId] and an empty one are both falsy. *)
Definition playGame (gameIdParam env : option string) (request : PlayRequest)
    : PlayRequest :=
  let gameIdToUse := js_or (Some (q_gameId request)) (getGameId gameIdParam env) in
  {| q_sessionId := q_sessionId request;
     q_betAmount := q_betAmount request;
     q_numPaylines := q_numPaylines request;
     q_actionGameSpins := q_actionGameSpins request;
     q_gameId := gameIdToUse |}.

(** [config?.gameId || 'INFERNO_EMPRESS'], the [gameId] that [spin] puts in
    its request. *)
Definition spinGameId (config : option GameConfig.FrontendGameConfig) : string :=
  js_or (config ≫= GameConfig.gameId) "INFERNO_EMPRESS".

End Api.

(** ** The scatter symbol ([slot-config.ts] and the slot machine) *)

Module Scatter.

Import GameConfig.

(** The hook [useScatterSymbol]. *)
Definition useScatterSymbol (ctx : GameConfigContextType) : string :=
  match config ctx with
  | None => "Scatter"
  | Some doc =>
      match bookSymbol doc with
      | Some b => if Slot.truthy b then b else default "Scatter" (scatterSymbol doc)
      | None => default "Scatter" (scatterSymbol doc)
      end
  end.

(** The slot machine's own
    [config?.bookSymbol || config?.scatterSymbol || 'Scatter']. *)
Definition machineScatterSymbol (config : option FrontendGameConfig) : string :=
  js_or (config ≫= bookSymbol) (js_or (config ≫= scatterSymbol) "Scatter").

(** The [config.bookSymbol || 'Scatter'] of the paytable ([TopSection],
    which renders it for a loaded configuration only). *)
Definition paytableScatterSymbol (doc : FrontendGameConfig) : string :=
  js_or (bookSymbol doc) "Scatter".

End Scatter.

(** ** The session effect of the slot machine *)

Module Session.

Import Slot.

(** [initializeGame] up to its [await]: the session id is made from the
    clock and given to the slot machine and to [Home]. *)
Definition initializeGame (now : Z) (s : St) : St :=
  setSessionId ("session-" +:+ pretty.pretty now) s.

(** [initializeGame] after [gameApi.getSession]; [None] is a rejected
    request.  A session response has the fields of a play response. *)
Definition sessionLoaded (answer : option PlayResponse) (s : St) : St :=
  match answer with
  | Some sessionResponse =>
      let balanceFromSession := p_balance sessionResponse in
      let s := setBalance (if 0 <? balanceFromSession then balanceFromSession else 500) s in
      let s := setFreeSpinsRemaining (top_freeSpins sessionResponse) s in
      let s := setFeatureSymbol (top_featureSymbol sessionResponse) s in
      let accumulatedWin := default 0 (p_accumulatedActionGameWin sessionResponse) in
      handleActionWheelStateChange (0 <? top_actionGameSpins sessionResponse)
        (top_actionGameSpins sessionResponse) accumulatedWin s
  | None => setBalance 500 s
  end.

End Session.

(** ** The random grid shown before the first spin *)

Module RandomGrid.

Section Effect.

Variables (numReels numRows : nat) (scatterSymbol : string).

(** The [while] loop that looks for the next symbol of the strip that is
    not the scatter; [budget] is [reelStrip.length - attempts]. *)
Fixpoint skipScatter (reelStrip : list string) (nextIndex : Z) (budget : nat) : Z :=
  match budget with
  | O => nextIndex
  | S budget' =>
      if bool_decide (js_get reelStrip nextIndex = Some scatterSymbol)
      then skipScatter reelStrip
             (Z.rem (nextIndex + 1) (Z.of_nat (length reelStrip))) budget'
      else nextIndex
  end.

(** The body of the [for] loop over the rows: the symbol pushed on [reel]
    at [rowIndex], drawn with [u]. *)
Definition drawSymbol (reelStrip : list string) (firstSymbol : option string)
    (reel : list (option string)) (rowIndex : nat) (u : QArith_base.Q)
    : option string :=
  if (0 <? length reelStrip)%nat then
    let symbolIndex := floor_times u (length reelStrip) in
    let symbol := js_get reelStrip symbolIndex in
    if (0 <? rowIndex)%nat
       && bool_decide (reel !! (rowIndex - 1)%nat = Some (Some scatterSymbol))
       && bool_decide (symbol = Some scatterSymbol)
    then
      let nextIndex := Z.rem (symbolIndex + 1) (Z.of_nat (length reelStrip)) in
      js_get reelStrip (skipScatter reelStrip nextIndex (length reelStrip))
    else symbol
  else firstSymbol.

(** The [for] loop over the rows, from [rowIndex] on. *)
Fixpoint fillReel (reelStrip : list string) (firstSymbol : option string)
    (rnd : nat → QArith_base.Q) (reel : list (option string))
    (rowIndex todo : nat) : list (option string) :=
  match todo with
  | O => reel
  | S todo' =>
      let symbol := drawSymbol reelStrip firstSymbol reel rowIndex (rnd rowIndex) in
      fillReel reelStrip firstSymbol rnd (reel ++ [symbol]) (S rowIndex) todo'
  end.

(** The effect: the grid given to [setGrid], or [None] when the effect
    returns at its guard.  [rnd reelIndex rowIndex] is the draw made for
    a cell; [config.symbols] is present in a loaded configuration. *)
Definition randomGrid (config : option GameConfig.FrontendGameConfig)
    (reelStrips : list (list string)) (rnd : nat → nat → QArith_base.Q)
    : option (list (list (option string))) :=
  match config with
  | None => None
  | Some doc =>
      if (length reelStrips =? 0)%nat then None
      else
        Some (map (fun reelIndex =>
                     let reelStrip := default [] (reelStrips !! reelIndex) in
                     let firstSymbol := head (default [] (GameConfig.symbols doc)) in
                     fillReel reelStrip firstSymbol (rnd reelIndex) [] 0 numRows)
                  (seq 0 numReels))
  end.

(** No scatter lies directly below a scatter on [reel]. *)
Definition unstacked (reel : list (option string)) : Prop :=
  ∀ i, reel !! i = Some (Some scatterSymbol) →
       reel !! (S i) ≠ Some (Some scatterSymbol).

End Effect.

End RandomGrid.

(** ** The bonus wheel ([action-wheel.tsx]) *)

Module Wheel.

Definition WHEEL_SEGMENTS : list string :=
  ["6"; "R10"; ""; "R10"; "R10"; "R10"; ""; "R10"; "R10"; "R10"; ""; "R10"].

(** What [onSpin] resolves with. *)
Record SpinResponse : Type := {
  result : string;
  win : Z;
  additionalSpins : Z
}.

(** What [handleSpin] does, in order: the state it sets, the timeouts it
    awaits (milliseconds) and the callbacks it calls. *)
Inductive Effect : Type :=
| SetIsSpinning (b : bool)
| SetSpinResult (r : option string)
| SetSelectedSegment (i : option Z)
| SetCurrentSegment (i : Z)
| Timeout (ms : QArith_base.Q)
| OnSpin
| OnWin (winAmount : Z) (wheelResult : string) (additional remainingSpins : Z).

Definition totalCycles : Z := 2.
Definition totalSteps : Z := totalCycles * 12.
Definition stepDelay : Z := 50.

(** [WHEEL_SEGMENTS.map((s, i) => s === x ? i : -1).filter(i => i !== -1)] *)
Definition indicesOf (x : string) : list Z :=
  List.filter (fun i => negb (i =? -1))
    (imap (fun i s => if bool_decide (s = x) then Z.of_nat i else -1) WHEEL_SEGMENTS).

(** [l[Math.floor(Math.random() * l.length)]] *)
Definition randomElement (u : QArith_base.Q) (l : list Z) : option Z :=
  js_get l (floor_times u (length l)).

(** [selectedIndex]; [None] is [undefined]. *)
Definition selectIndex (wheelResult : string) (u : QArith_base.Q) : option Z :=
  if bool_decide (wheelResult = "R10") then randomElement u (indicesOf "R10")
  else if bool_decide (wheelResult = "6spins") then Some 0
  else randomElement u (indicesOf "").

(** [stepDelay * (1 + (i - totalSteps) / finalSteps * 3)] *)
Definition delay (i finalSteps : Z) : QArith_base.Q :=
  QArith_base.Qmult (QArith_base.inject_Z stepDelay)
    (QArith_base.Qplus (QArith_base.inject_Z 1)
       (QArith_base.Qmult
          (QArith_base.Qdiv (QArith_base.inject_Z (i - totalSteps))
             (QArith_base.inject_Z finalSteps))
          (QArith_base.inject_Z 3))).

(** The first loop: two full turns at constant speed.  The loop counters
    are never negative, so [%] is [mod]. *)
Definition spinUp : list Effect :=
  flat_map (fun i => [SetCurrentSegment (i `mod` 12);
                      Timeout (QArith_base.inject_Z stepDelay)])
           (seqZ 0 totalSteps).

(** The body of the second loop for the counter [i]. *)
Definition finalStep (selectedIndex finalSteps i : Z) : list Effect :=
  let segmentIndex := i `mod` 12 in
  let isLastStep := i =? totalSteps + finalSteps - 1 in
  [SetCurrentSegment segmentIndex; Timeout (delay i finalSteps)]
  ++ (if isLastStep
      then [SetCurrentSegment (-1); SetSelectedSegment (Some selectedIndex)]
      else []).

(** The second loop: one more turn and on to the selected segment. *)
Definition slowDown (selectedIndex : Z) : list Effect :=
  let finalSteps := selectedIndex + 12 in
  flat_map (finalStep selectedIndex finalSteps) (seqZ totalSteps finalSteps).

(** [handleSpin] of a render whose flag is [isSpinning] and whose prop is
    [totalActionSpins]; [answer] is what [onSpin] settles with ([None]: it
    rejects) and [u] the draw.  With an [undefined] selected index the
    second loop does not run. *)
Definition handleSpin (isSpinning : bool) (totalActionSpins : Z)
    (answer : option SpinResponse) (u : QArith_base.Q) : list Effect :=
  if isSpinning || (totalActionSpins <=? 0) then []
  else
    [SetIsSpinning true; SetSpinResult None; SetSelectedSegment None]
    ++ spinUp
    ++ [OnSpin]
    ++ match answer with
       | None => [SetIsSpinning false]
       | Some spinResponse =>
           match selectIndex (result spinResponse) u with
           | Some selectedIndex => slowDown selectedIndex
           | None => []
           end
           ++ [SetSpinResult (Some (result spinResponse));
               Timeout (QArith_base.inject_Z 300);
               OnWin (win spinResponse) (result spinResponse)
                 (additionalSpins spinResponse)
                 (totalActionSpins - 1 + additionalSpins spinResponse);
               SetIsSpinning false]
       end.

(** The state of the component. *)
Record State : Type := {
  isSpinning : bool;
  currentSegment : Z;
  selectedSegment : option Z;
  spinResult : option string
}.

Definition perform (w : State) (e : Effect) : State :=
  match e with
  | SetIsSpinning b =>
      {| isSpinning := b; currentSegment := currentSegment w;
         selectedSegment := selectedSegment w; spinResult := spinResult w |}
  | SetSpinResult r =>
      {| isSpinning := isSpinning w; currentSegment := currentSegment w;
         selectedSegment := selectedSegment w; spinResult := r |}
  | SetSelectedSegment i =>
      {| isSpinning := isSpinning w; currentSegment := currentSegment w;
         selectedSegment := i; spinResult := spinResult w |}
  | SetCurrentSegment i =>
      {| isSpinning := isSpinning w; currentSegment := i;
         selectedSegment := selectedSegment w; spinResult := spinResult w |}
  | Timeout _ | OnSpin | OnWin _ _ _ _ => w
  end.

(** The state after the effects [es]. *)
Definition replay (es : list Effect) (w : State) : State := foldl perform w es.

(** The calls of [onWin] among the effects. *)
Definition winCalls (es : list Effect) : list Effect :=
  List.filter (fun e => match e with OnWin _ _ _ _ => true | _ => false end) es.

(** The segments highlighted in turn. *)
Definition highlighted (es : list Effect) : list Z :=
  omap (fun e => match e with SetCurrentSegment i => Some i | _ => None end) es.

(** The timeouts awaited in turn. *)
Definition delays (es : list Effect) : list QArith_base.Q :=
  omap (fun e => match e with Timeout ms => Some ms | _ => None end) es.

(** The label that a wheel result stands for. *)
Definition label (wheelResult : string) : string :=
  if bool_decide (wheelResult = "R10") then "R10"
  else if bool_decide (wheelResult = "6spins") then "6"
  else "".

End Wheel.

(** ** The handlers of [Home] that serve the wheel and the selection screen *)

Module Home.

Import Slot.

(** The state of [Home] that the slot machine does not see, beside the
    shared state [machine]; [balanceUpdateRef] tells whether the slot
    machine has registered its [setBalance]. *)
Record State : Type := {
  machine : St;
  actionGameWinMessage : string;
  actionGameWinAmount : Z;
  actionGamesFinished : bool;
  balanceUpdateRef : bool
}.

Definition onMachine (f : St → St) (h : State) : State :=
  {| machine := f (machine h);
     actionGameWinMessage := actionGameWinMessage h;
     actionGameWinAmount := actionGameWinAmount h;
     actionGamesFinished := actionGamesFinished h;
     balanceUpdateRef := balanceUpdateRef h |}.

Definition setActionGameWinMessage (v : string) (h : State) : State :=
  {| machine := machine h;
     actionGameWinMessage := v;
     actionGameWinAmount := actionGameWinAmount h;
     actionGamesFinished := actionGamesFinished h;
     balanceUpdateRef := balanceUpdateRef h |}.

Definition setActionGameWinAmount (v : Z) (h : State) : State :=
  {| machine := machine h;
     actionGameWinMessage := actionGameWinMessage h;
     actionGameWinAmount := v;
     actionGamesFinished := actionGamesFinished h;
     balanceUpdateRef := balanceUpdateRef h |}.

Definition setActionGamesFinished (v : bool) (h : State) : State :=
  {| machine := machine h;
     actionGameWinMessage := actionGameWinMessage h;
     actionGameWinAmount := actionGameWinAmount h;
     actionGamesFinished := v;
     balanceUpdateRef := balanceUpdateRef h |}.

(** A [setTimeout]: the callback, run on the state of its time, may set
    timers of its own. *)
Inductive Job : Type :=
| After (ms : Z) (callback : State → State * list Job).

(** [handleFeatureSymbolSelectionComplete] *)
Definition handleFeatureSymbolSelectionComplete (s : St) : St :=
  setFreeSpinsCount 0 (setSelectedFeatureSymbol "" (setShowFeatureSymbolSelection false s)).

(** The 200 ms callback of [handleActionWheelWin]. *)
Definition applyPendingBalance (h : State) : State :=
  match pendingBalanceUpdateRef (machine h) with
  | Some pending =>
      if balanceUpdateRef h
      then onMachine (fun s => setPendingBalanceUpdateRef None (setBalance pending s)) h
      else h
  | None => h
  end.

(** The [message] and the [displayAmount] of [handleActionWheelWin]; the
    amount reported by the wheel is overwritten in every branch. *)
Definition winDisplay (wheelResult : string) : string * Z :=
  if bool_decide (wheelResult = "R10") then ("Action Game Win!", 10)
  else if bool_decide (wheelResult = "6spins") then ("6 Additional Spins!", 0)
  else ("No Win This Spin", 0).

Definition handleActionWheelWin (winAmount : Z) (wheelResult : string)
    (additional remainingSpins : Z) (h : State) : State * list Job :=
  let '(message, displayAmount) := winDisplay wheelResult in
  (setActionGameWinAmount displayAmount (setActionGameWinMessage message h),
   [After 200 (fun h => (applyPendingBalance h, []));
    After 2000 (fun h =>
      if remainingSpins =? 0 then
        (setActionGamesFinished true
           (setActionGameWinAmount 0 (setActionGameWinMessage "" h)),
         [After 2000 (fun h =>
            (setActionGamesFinished false (onMachine handleActionWheelComplete h), []))])
      else
        (h,
         [After 3000 (fun h =>
            (setActionGameWinAmount 0 (setActionGameWinMessage "" h), []))]))]).

(** *** Timers *)

(** The pending timers with their due times, earliest first; among equal
    due times the one set first comes first. *)
Definition Queue : Type := list (Z * (State → State * list Job)).

Fixpoint enqueue (t : Z) (f : State → State * list Job) (q : Queue) : Queue :=
  match q with
  | [] => [(t, f)]
  | (t', f') :: q' => if t' <=? t then (t', f') :: enqueue t f q' else (t, f) :: q
  end.

Definition schedule (now : Z) (jobs : list Job) (q : Queue) : Queue :=
  foldl (fun q j => match j with After ms f => enqueue (now + ms) f q end) q jobs.

(** Fire, in order, the timers due up to [limit]. *)
Fixpoint elapse (fuel : nat) (limit : Z) (q : Queue) (h : State) : State * Queue :=
  match fuel with
  | O => (h, q)
  | S fuel' =>
      match q with
      | [] => (h, [])
      | (t, f) :: q' =>
          if t <=? limit then
            let '(h', jobs) := f h in
            elapse fuel' limit (schedule t jobs q') h'
          else (h, q)
      end
  end.

(** The state [ms] milliseconds after [handleActionWheelWin] was called. *)
Definition afterWin (ms : Z) (winAmount : Z) (wheelResult : string)
    (additional remainingSpins : Z) (h : State) : State * Queue :=
  let '(h', jobs) := handleActionWheelWin winAmount wheelResult additional remainingSpins h in
  elapse 4 ms (schedule 0 jobs []) h'.

(** *** One turn of the wheel *)

(** [handleActionWheelSpin], the [onSpin] of the wheel: it throws without
    a session id or when the request is rejected ([None]). *)
Definition onActionWheelSpin (answer : option ActionGameSpinResponse) (h : State)
    : State * option Wheel.SpinResponse :=
  if negb (truthy (sessionId (machine h))) then (h, None)
  else
    match answer with
    | None => (h, None)
    | Some response =>
        (onMachine (handleActionWheelSpin response) h,
         Some {| Wheel.result := w_wheelResult response;
                 Wheel.win := w_win response;
                 Wheel.additionalSpins := w_additionalSpins response |})
    end.

(** The wheel as [MiddleSection] wires it: [totalActionSpins] is the
    [actionGameSpins] of the render, [onSpin] and [onWin] are the handlers
    above.  The wheel is idle when it is spun; the result is the state
    [ms] milliseconds after [onWin] was called, or the state after
    [onSpin] when [onWin] is not called. *)
Definition turn (ms : Z) (answer : option ActionGameSpinResponse)
    (u : QArith_base.Q) (h : State) : State * Queue :=
  let totalActionSpins := actionGameSpins (machine h) in
  let '(h1, spinResponse) := onActionWheelSpin answer h in
  match Wheel.winCalls (Wheel.handleSpin false totalActionSpins spinResponse u) with
  | Wheel.OnWin winAmount wheelResult additional remainingSpins :: _ =>
      afterWin ms winAmount wheelResult additional remainingSpins h1
  | _ => (h1, [])
  end.

End Home.

(** ** The feature-symbol selection screen *)

Module Selection.

(** The state of the component and the counters of its effect. *)
Record State : Type := {
  showAnimation : bool;
  showSymbol : bool;
  spinningSymbols : list (option string);
  currentIndex : Z;
  spinCount : Z;
  intervalCleared : bool
}.

Definition totalSpins : Z := 50.

(** [Object.keys(config.symbols).filter(s => s !== 'Scatter')] *)
Definition eligibleSymbols (symbols : list string) : list string :=
  List.filter (fun s => negb (bool_decide (s = "Scatter"))) symbols.

(** The effect when the screen opens, before the first tick. *)
Definition opened : State :=
  {| showAnimation := true; showSymbol := false; spinningSymbols := [];
     currentIndex := 0; spinCount := 0; intervalCleared := false |}.

(** One tick of the 80 ms interval.  With no eligible symbol the index is
    [NaN] and the element read is [undefined]. *)
Definition tick (symbols : list string) (selectedSymbol : string) (w : State) : State :=
  let eligible := eligibleSymbols symbols in
  let currentSymbol :=
    match eligible with
    | [] => None
    | _ => js_get eligible (currentIndex w `mod` Z.of_nat (length eligible))
    end in
  let spinCount' := spinCount w + 1 in
  if totalSpins <=? spinCount' then
    {| showAnimation := showAnimation w; showSymbol := showSymbol w;
       spinningSymbols := [Some selectedSymbol];
       currentIndex := currentIndex w + 1; spinCount := spinCount';
       intervalCleared := true |}
  else
    {| showAnimation := showAnimation w; showSymbol := showSymbol w;
       spinningSymbols := [currentSymbol];
       currentIndex := currentIndex w + 1; spinCount := spinCount';
       intervalCleared := false |}.

(** The interval runs until it is cleared. *)
Fixpoint ticks (n : nat) (symbols : list string) (selectedSymbol : string)
    (w : State) : State :=
  match n with
  | O => w
  | S n' =>
      if intervalCleared w then w
      else ticks n' symbols selectedSymbol (tick symbols selectedSymbol w)
  end.

(** The timer set by the last tick, 500 ms later: the reveal.  After
    3000 ms more [onComplete] is called. *)
Definition reveal (w : State) : State :=
  {| showAnimation := false; showSymbol := true;
     spinningSymbols := spinningSymbols w;
     currentIndex := currentIndex w; spinCount := spinCount w;
     intervalCleared := intervalCleared w |}.

End Selection.

(** ** The winning-lines overlay *)

Module Lines.

Import Slot.

Inductive Screen : Type := xs | sm | md.

Definition PAYLINE_COLORS : list string :=
  ["#FF3366"; "#33FF66"; "#3366FF"; "#FFCC33"; "#33CCFF";
   "#FF33CC"; "#CCFF33"; "#6633FF"; "#FF6633"; "#33FFCC";
   "#FFFF00"].

Definition SYMBOL_WIDTH_MD : Z := 196.
Definition SYMBOL_HEIGHT_MD : Z := 196.
Definition GAP_MD : Z := 4.
Definition PADDING_MD : Z := 16.

Definition SYMBOL_WIDTH_SM : Z := 196.
Definition SYMBOL_HEIGHT_SM : Z := 196.
Definition GAP_SM : Z := 4.
Definition PADDING_SM : Z := 16.

Definition SYMBOL_WIDTH_XS : Z := 196.
Definition SYMBOL_HEIGHT_XS : Z := 196.
Definition GAP_XS : Z := 4.
Definition PADDING_XS : Z := 16.

Record Sizes : Type := {
  symbolWidth : Z;
  symbolHeight : Z;
  gap : Z;
  padding : Z
}.

(** The [switch (screen)] of [getPointForCell] and of [getViewBox]. *)
Definition sizes (screen : Screen) : Sizes :=
  match screen with
  | xs => {| symbolWidth := SYMBOL_WIDTH_XS; symbolHeight := SYMBOL_HEIGHT_XS;
             gap := GAP_XS; padding := PADDING_XS |}
  | sm => {| symbolWidth := SYMBOL_WIDTH_SM; symbolHeight := SYMBOL_HEIGHT_SM;
             gap := GAP_SM; padding := PADDING_SM |}
  | md => {| symbolWidth := SYMBOL_WIDTH_MD; symbolHeight := SYMBOL_HEIGHT_MD;
             gap := GAP_MD; padding := PADDING_MD |}
  end.

(** The centre of a cell.  The symbol sizes are even, so the halves are
    whole numbers. *)
Definition getPointForCell (reel row : Z) (screen : Screen) : Z * Z :=
  let z := sizes screen in
  (padding z + reel * (symbolWidth z + gap z) + symbolWidth z / 2,
   padding z + row * (symbolHeight z + gap z) + symbolHeight z / 2).

(** The points that [getPathForLine] joins. *)
Definition points (line : list Z) (screen : Screen) : list (Z * Z) :=
  imap (fun reel row => getPointForCell (Z.of_nat reel) row screen) line.

Definition getPathForLine (line : list Z) (screen : Screen) : string :=
  match points line screen with
  | [] => ""
  | ps =>
      String.concat " "
        (imap (fun i p => (if (i =? 0)%nat then "M" else "L")
                          +:+ pretty.pretty (fst p) +:+ "," +:+ pretty.pretty (snd p))
              ps)
  end.

(** The width and the height of the view box. *)
Definition viewBoxSize (screen : Screen) (numReels numRows : Z) : Z * Z :=
  let z := sizes screen in
  (symbolWidth z * numReels + gap z * (numReels - 1) + padding z * 2,
   symbolHeight z * numRows + gap z * (numRows - 1) + padding z * 2).

Definition getViewBox (screen : Screen) (numReels numRows : Z) : string :=
  let '(width, height) := viewBoxSize screen numReels numRows in
  "0 0 " +:+ pretty.pretty width +:+ " " +:+ pretty.pretty height.

(** A [<path>] element. *)
Record PathElement : Type := {
  key : Z;
  d : string;
  stroke : option string
}.

(** What [winningLines.map] makes of one winning line on [screen]; [None]
    is [null].  The payline index is in range when the payline is read, and
    not negative when the colour is. *)
Definition drawLine (paylines : list (list Z)) (screen : Screen) (l : WinningLine)
    : option PathElement :=
  if (paylineIndex l <? 0) || (Z.of_nat (length paylines) <=? paylineIndex l) then None
  else
    match js_get paylines (paylineIndex l) with
    | None => None
    | Some payline =>
        let path := getPathForLine payline screen in
        if negb (truthy path) then None
        else
          Some {| key := paylineIndex l;
                  d := path;
                  stroke := js_get PAYLINE_COLORS
                              (paylineIndex l `mod` Z.of_nat (length PAYLINE_COLORS)) |}
    end.

(** The children of the [<svg>] of [screen]. *)
Definition WinningLinesDisplay (paylines : list (list Z)) (screen : Screen)
    (winningLines : list WinningLine) : list (option PathElement) :=
  map (drawLine paylines screen) winningLines.

End Lines.

(** ** The count-up of the win animation *)

Module WinAnimation.

Import QArith Qminmax.

Definition duration : Q := inject_Z 4000.

(** [a < b] on numbers. *)
Definition Qlt_bool (a b : Q) : bool := negb (Qle_bool b a).

(** What one call of [animate] does: the amount it leaves on display,
    whether it asks for another frame, and the amount it hands to
    [onCountComplete] (where the parent supplies one). *)
Record Frame : Type := {
  displayAmount : Q;
  again : bool;
  counted : option Q
}.

(** [animate(currentTime)] of the effect started at [startTime] for the
    win [targetAmount]. *)
Definition animate (targetAmount startTime currentTime : Q) : Frame :=
  let elapsed := (currentTime - startTime)%Q in
  let progress := Qmin (elapsed / duration)%Q (inject_Z 1) in
  let easeProgress := (inject_Z 1 - (inject_Z 1 - progress) ^ 3)%Q in
  let currentAmount := (targetAmount * easeProgress)%Q in
  if Qlt_bool progress (inject_Z 1)
  then {| displayAmount := currentAmount; again := true; counted := None |}
  else {| displayAmount := targetAmount; again := false;
          counted := Some targetAmount |}.

End WinAnimation.

(** ** The payline numbers beside the grid *)

Module Numbers.

Import Slot.

(** [[...new Set(a)]] for numbers: first occurrences, in order. *)
Fixpoint distinct (seen : list Z) (a : list Z) : list Z :=
  match a with
  | [] => []
  | x :: a' =>
      if bool_decide (x ∈ seen) then distinct seen a' else x :: distinct (x :: seen) a'
  end.

Definition activePaylines (numPaylines : Z) (winningLines : list WinningLine) : list Z :=
  distinct []
    (List.filter (fun index => negb (index =? -1) && (index <? numPaylines))
                 (map paylineIndex winningLines)).

(** [Array.from({ length: 5 }, (_, i) => i + 1)] *)
Definition paylineNumbers : list Z := map (fun i => Z.of_nat i + 1) (seq 0 5).

(** One number of a side column: [None] when it is not rendered (the
    payline is missing or empty), else whether it is highlighted. *)
Definition numberBadge (paylines : list (list Z)) (numPaylines : Z)
    (winningLines : list WinningLine) (number : Z) : option bool :=
  let paylineIndex := number - 1 in
  let isActive := bool_decide (paylineIndex ∈ activePaylines numPaylines winningLines) in
  match js_get paylines paylineIndex with
  | None | Some [] => None
  | Some _ => Some isActive
  end.

End Numbers.

(** ** The log of requests *)

Module Log.

Import Slot Round.

(** Interference that sends no request. *)
Definition silent : St → St → Prop := fun s s' => requests s' = requests s.

(** An update that leaves the log of requests alone. *)
Definition logfree (f : St → St) : Prop := ∀ s, requests (f s) = requests s.

(** Every run of [m], nothing else sending a request meanwhile, leaves the
    log as it found it. *)
Definition mute (a : NetAnswer) (m : M Co) : Prop :=
  ∀ log, triple silent a (fun s => requests s = log) m (fun sf _ => requests sf = log).

End Log.

(** ** More sample data *)

Module Examples.

(** A strip that starts with two scatters. *)
Definition scatterStrip : list string := ["Scatter"; "Scatter"; "A"].

Definition stripConfig : GameConfig.FrontendGameConfig :=
  {| GameConfig.gameId := None; GameConfig.numReels := Some 5;
     GameConfig.numRows := Some 3; GameConfig.betAmounts := None;
     GameConfig.freeSpinsAwarded := None; GameConfig.scatterSymbol := None;
     GameConfig.bookSymbol := None; GameConfig.symbols := Some ["Scatter"; "A"];
     GameConfig.paylines := Some []; GameConfig.reelStrips := None |}.

(** Every draw is [0]. *)
Definition zeroDraws : nat → nat → QArith_base.Q := fun _ _ => QArith_base.inject_Z 0.

(** The draw [1/2]. *)
Definition half : QArith_base.Q := QArith_base.Qmake 1 2.

Definition tenRand : Slot.ActionGameSpinResponse :=
  {| Slot.w_win := 10; Slot.w_additionalSpins := 0; Slot.w_wheelResult := "R10";
     Slot.w_remainingSpins := 0; Slot.w_accumulatedWin := 60; Slot.w_balance := 1010 |}.

(** [Home] with the wheel open on its last bonus spin. *)
Definition lastBonusSpin : Home.State :=
  {| Home.machine :=
       Slot.setActionGameSpins 1 (Slot.setShowActionWheel true Samples.idle);
     Home.actionGameWinMessage := "";
     Home.actionGameWinAmount := 0;
     Home.actionGamesFinished := false;
     Home.balanceUpdateRef := true |}.

(** The five paylines of a 5 by 3 game. *)
Definition fivePaylines : list (list Z) :=
  [[1; 1; 1; 1; 1]; [0; 0; 0; 0; 0]; [2; 2; 2; 2; 2]; [0; 1; 2; 1; 0]; [2; 1; 0; 1; 2]].

End Examples.

(** * Properties *)

(** ** Array helpers *)

Lemma indexOf_from_absent (a : list Z) (x i : Z) :
  x ∉ a → indexOf_from i a x = -1.
Proof.
  revert i. induction a as [|y a IH]; intros i Hx; simpl; [done|].
  apply not_elem_of_cons in Hx as [Hne Hx].
  destruct (Z.eqb_spec y x); [congruence | by apply IH].
Qed.

Lemma indexOf_from_present (a : list Z) (x i : Z) :
  x ∈ a →
  ∃ n : nat, indexOf_from i a x = i + Z.of_nat n ∧ a !! n = Some x
             ∧ ∀ m : nat, (m < n)%nat → a !! m ≠ Some x.
Proof.
  revert i. induction a as [|y a IH]; intros i Hx; simpl.
  - by apply elem_of_nil in Hx.
  - destruct (Z.eqb_spec y x) as [->|Hne].
    + exists 0%nat. split; [lia|]. split; [done|]. intros m Hm. lia.
    + apply elem_of_cons in Hx as [Heq|Hx]; [congruence|].
      destruct (IH (i + 1) Hx) as (n & Hi & Hn & Hfirst).
      exists (S n). split; [lia|]. split; [done|].
      intros [|m] Hm; simpl; [congruence|]. apply Hfirst. lia.
Qed.

Lemma js_get_head {A : Type} (a : list A) : js_get a 0 = head a.
Proof. unfold js_get. simpl. by destruct a. Qed.

Lemma js_get_last {A : Type} (a : list A) :
  a ≠ [] → js_get a (Z.of_nat (length a) - 1) = last a.
Proof.
  intros Ha. unfold js_get.
  assert (0 < length a)%nat by (destruct a; [done | simpl; lia]).
  destruct (Z.ltb_spec (Z.of_nat (length a) - 1) 0); [lia|].
  replace (Z.to_nat (Z.of_nat (length a) - 1)) with (pred (length a)) by lia.
  by rewrite last_lookup.
Qed.

(** In a menu without duplicates the position of the last entry is the last
    position. *)
Lemma indexOf_last_NoDup (a : list Z) (x : Z) :
  NoDup a → last a = Some x → indexOf a x = Z.of_nat (length a) - 1.
Proof.
  intros Hnd Hlast.
  assert (Hin : x ∈ a).
  { rewrite last_lookup in Hlast. by eapply list_elem_of_lookup_2. }
  destruct (indexOf_from_present a x 0 Hin) as (n & Hi & Hn & _).
  unfold indexOf. rewrite Hi.
  rewrite last_lookup in Hlast.
  assert (n = pred (length a)) by (eapply NoDup_lookup; eauto).
  apply lookup_lt_Some in Hn. lia.
Qed.

(** ** C10: the bet menu is circular *)

(** C10, the claim as stated fails: in the menu [1; 2; 1] the bet [1] is the
    last entry, yet increasing it gives [2] and not the first entry [1]. *)
Lemma increase_from_repeated_last_entry :
  let menu := [1; 2; 1] in
  menu ≠ []
  ∧ last menu = Some 1
  ∧ head menu = Some 1
  ∧ Bet.handleIncreaseBet (Some (Bet.with_menu menu)) 1 = Bet.SetBetAmount (Some 2).
Proof. repeat split; done. Qed.

(** C10 (amended): for a configuration with a non-empty bet menu, increasing
    wraps to the first entry when the first occurrence of the current bet is
    at the last position, which is so whenever the bet is the last entry of a
    menu without repeated amounts; decreasing when the bet is the first entry
    wraps to the last entry; a bet that is not in the menu is replaced by the
    first entry by both handlers. *)
Theorem bet_menu_wraps (doc : GameConfig.FrontendGameConfig) (menu : list Z) (bet : Z) :
  GameConfig.betAmounts doc = Some menu →
  menu ≠ [] →
  (indexOf menu bet = Z.of_nat (length menu) - 1 →
   Bet.handleIncreaseBet (Some doc) bet = Bet.SetBetAmount (head menu))
  ∧ (NoDup menu → last menu = Some bet →
     Bet.handleIncreaseBet (Some doc) bet = Bet.SetBetAmount (head menu))
  ∧ (head menu = Some bet →
     Bet.handleDecreaseBet (Some doc) bet = Bet.SetBetAmount (last menu))
  ∧ (bet ∉ menu →
     Bet.handleIncreaseBet (Some doc) bet = Bet.SetBetAmount (head menu)
     ∧ Bet.handleDecreaseBet (Some doc) bet = Bet.SetBetAmount (head menu)).
Proof.
  intros Hmenu Hne.
  assert (Hlen : (0 < length menu)%nat) by (destruct menu; [done | simpl; lia]).
  assert (Hinc : indexOf menu bet = Z.of_nat (length menu) - 1 →
                 Bet.handleIncreaseBet (Some doc) bet = Bet.SetBetAmount (head menu)).
  { intros Hi. unfold Bet.handleIncreaseBet. rewrite Hmenu. cbv zeta. rewrite Hi.
    destruct (Z.eqb_spec (Z.of_nat (length menu) - 1) (-1)); [lia|].
    replace (Z.of_nat (length menu) - 1 + 1) with (Z.of_nat (length menu)) by lia.
    rewrite Z_mod_same_full. by rewrite js_get_head. }
  split; [exact Hinc|]. split; [|split].
  - intros Hnd Hlast. apply Hinc. by apply indexOf_last_NoDup.
  - intros Hhead. unfold Bet.handleDecreaseBet. rewrite Hmenu. cbv zeta.
    destruct menu as [|y menu']; [done|]. simpl in Hhead. injection Hhead as ->.
    unfold indexOf. cbn [indexOf_from]. rewrite Z.eqb_refl.
    change (0 =? -1) with false. change (0 =? 0) with true. cbv iota.
    by rewrite js_get_last.
  - intros Habs. unfold Bet.handleIncreaseBet, Bet.handleDecreaseBet. rewrite Hmenu.
    cbv zeta. unfold indexOf. rewrite (indexOf_from_absent menu bet 0 Habs).
    change (-1 =? -1) with true. cbv iota. by rewrite js_get_head.
Qed.

Lemma bet_menu_wraps_witness :
  Bet.handleIncreaseBet (Some (Bet.with_menu [1; 2; 3; 5; 10])) 10 = Bet.SetBetAmount (Some 1)
  ∧ Bet.handleDecreaseBet (Some (Bet.with_menu [1; 2; 3; 5; 10])) 1 = Bet.SetBetAmount (Some 10)
  ∧ Bet.handleIncreaseBet (Some (Bet.with_menu [1; 2; 3; 5; 10])) 7 = Bet.SetBetAmount (Some 1)
  ∧ Bet.handleDecreaseBet (Some (Bet.with_menu [1; 2; 3; 5; 10])) 7 = Bet.SetBetAmount (Some 1).
Proof.
  assert (Hmenu : GameConfig.betAmounts (Bet.with_menu [1; 2; 3; 5; 10]) = Some [1; 2; 3; 5; 10])
    by reflexivity.
  assert (Hne : [1; 2; 3; 5; 10] ≠ ([] : list Z)) by discriminate.
  split; [|split; [|split]].
  - apply (proj1 (bet_menu_wraps _ _ 10 Hmenu Hne)). reflexivity.
  - apply (proj1 (proj2 (proj2 (bet_menu_wraps _ _ 1 Hmenu Hne)))). reflexivity.
  - apply (proj2 (proj2 (proj2 (bet_menu_wraps _ _ 7 Hmenu Hne)))).
    intros Hin. repeat (apply elem_of_cons in Hin as [Hin|Hin]; [discriminate Hin|]).
    by apply elem_of_nil in Hin.
  - apply (proj2 (proj2 (proj2 (bet_menu_wraps _ _ 7 Hmenu Hne)))).
    intros Hin. repeat (apply elem_of_cons in Hin as [Hin|Hin]; [discriminate Hin|]).
    by apply elem_of_nil in Hin.
Defined.

(** ** C9: which configuration fields are required *)




(** ** Reasoning about runs *)

Section Rules.

Import Slot Round.

Context (R : St → St → Prop) (a : NetAnswer).

Lemma triple_resolve (P : St → Prop) (r : option SpinResult) Q :
  (∀ s, P s → Q s r) → triple R a P (resolve r) Q.
Proof.
  intros HQ s HP sf r' Hrun. unfold runs, resolve in Hrun. simpl in Hrun.
  inversion Hrun; subst. by apply HQ.
Qed.

Lemma triple_exec (P P' : St → Prop) (f : St → St) (k : M Co) Q :
  (∀ s, P s → P' (f s)) → triple R a P' k Q → triple R a P (f ;;; k) Q.
Proof. intros Hf Hk s HP sf r Hrun. exact (Hk (f s) (Hf s HP) sf r Hrun). Qed.

Lemma triple_await (P P' : St → Prop) (ms : Z) (k : M Co) Q :
  (∀ s s', P s → R s s' → P' s') → triple R a P' k Q → triple R a P (await ms k) Q.
Proof.
  intros Hstable Hk s HP sf r Hrun. unfold runs, await in Hrun. simpl in Hrun.
  inversion Hrun as [| ? ? ? s' s1 c1 ? ? HR Hstep Hrest | |]; subst.
  apply (Hk s' (Hstable s s' HP HR) sf r). unfold runs. by rewrite Hstep.
Qed.

Lemma triple_if_cancelled (P : St → Prop) (cleanup : St → St) (k : M Co) Q :
  (∀ s, P s → Q (cleanup s) None) → triple R a P k Q →
  triple R a P (if_cancelled cleanup k) Q.
Proof.
  intros Hc Hk s HP sf r Hrun. unfold runs, if_cancelled in Hrun.
  destruct (spinCancelledRef s).
  - simpl in Hrun. inversion Hrun; subst. by apply Hc.
  - by apply (Hk s HP).
Qed.

Lemma triple_detach (P P' : St → Prop) (child k : M Co) Q :
  (∀ s, P s → P' (fst (child s))) → triple R a P' k Q →
  triple R a P (detach child k) Q.
Proof.
  intros Hchild Hk s HP sf r Hrun. unfold runs, detach in Hrun.
  specialize (Hchild s HP).
  destruct (child s) as [s1 c]. simpl in Hchild.
  specialize (Hk s1 Hchild sf r). unfold runs in Hk.
  destruct (k s1) as [s2 rest]. simpl in *.
  inversion Hrun; subst. by apply Hk.
Qed.

Lemma triple_pre (P P' : St → Prop) (m : M Co) Q :
  (∀ s, P s → P' s) → triple R a P' m Q → triple R a P m Q.
Proof. intros HPP Hm s HP. apply Hm. by apply HPP. Qed.

Lemma triple_if (b : bool) (P : St → Prop) (m1 m2 : M Co) Q :
  (b = true → triple R a P m1 Q) → (b = false → triple R a P m2 Q) →
  triple R a P (if b then m1 else m2) Q.
Proof. destruct b; auto. Qed.

End Rules.

(** ** The memoised [spin] callback *)

Section Memo.

Import Slot Assert.

Lemma sameDeps_true (c c' : Closure) :
  sameDeps c c' = true ↔
  c_isAnimating c = c_isAnimating c' ∧ c_balance c = c_balance c'
  ∧ c_totalBet c = c_totalBet c' ∧ c_freeSpinsRemaining c = c_freeSpinsRemaining c'
  ∧ c_actionGameSpins c = c_actionGameSpins c' ∧ c_sessionId c = c_sessionId c'
  ∧ c_isTurboMode c = c_isTurboMode c'.
Proof.
  unfold sameDeps. rewrite !andb_true_iff, !bool_decide_eq_true, !Z.eqb_eq. tauto.
Qed.

(** A render never leaves a callback whose dependencies differ from the
    state, whatever callback it found. *)
Lemma render_sameDeps (s : St) :
  sameDeps (spinCallback (render s)) (capture (render s)) = true.
Proof.
  unfold render. destruct (sameDeps (spinCallback s) (capture s)) eqn:E; [exact E|].
  apply sameDeps_true. repeat split; reflexivity.
Qed.

(** The callback after a render is the one a render made, if the one
    before was. *)
Lemma render_memoised (s : St) :
  (∃ r, spinCallback s = capture r) → memoised (render s).
Proof.
  intros [r Hr]. unfold memoised, render.
  destruct (sameDeps (spinCallback s) (capture s)) eqn:E.
  - exists r. split; [done|]. by rewrite <- Hr.
  - exists s. split; [reflexivity|]. apply sameDeps_true. repeat split; reflexivity.
Qed.

(** What the callback of a committed state has closed over: the state's own
    values, but for [isSpinning]; and a callback made while a reel was
    spinning was made while the composite busy flag was raised. *)
Lemma memoised_closure (s : St) :
  memoised s →
  c_isAnimating (spinCallback s) = isAnimating s
  ∧ c_balance (spinCallback s) = balance s
  ∧ c_totalBet (spinCallback s) = totalBet s
  ∧ c_freeSpinsRemaining (spinCallback s) = freeSpinsRemaining s
  ∧ c_actionGameSpins (spinCallback s) = actionGameSpins s
  ∧ c_sessionId (spinCallback s) = sessionId s
  ∧ c_isTurboMode (spinCallback s) = isTurboMode s
  ∧ c_isFreeSpinsMode (spinCallback s) = isFreeSpinsMode s
  ∧ (c_isSpinning (spinCallback s) = true → isAnimating s = true).
Proof.
  intros (r & Hc & Hdeps). rewrite Hc.
  apply sameDeps_true in Hdeps as (Ha & Hb & Ht & Hf & Hg & Hs & Hm). simpl in *.
  repeat split; try done.
  - unfold isFreeSpinsMode. by rewrite Hf.
  - intros Hsp. rewrite <- Ha. unfold isAnimating. by rewrite Hsp.
Qed.

End Memo.

(** ** Only a render replaces the [spin] callback *)

Section Steady.

Import Slot Loop Round Assert.

Variables (numReels numRows : nat) (gameId : string).

Lemma steady_exec (f : St → St) (k : M Co) :
  keeps_callback f → steady k → steady (f ;;; k).
Proof. intros Hf Hk s. unfold exec. destruct (Hk (f s)) as [-> Ht]. by rewrite Hf. Qed.

Lemma steady_await (ms : Z) (k : M Co) : steady k → steady (await ms k).
Proof.
  intros Hk s. split; [reflexivity|]. simpl.
  apply tame_timer; intros s'; apply Hk.
Qed.

Lemma steady_if_cancelled (cleanup : St → St) (k : M Co) :
  keeps_callback cleanup → steady k → steady (if_cancelled cleanup k).
Proof.
  intros Hc Hk s. unfold if_cancelled. destruct (spinCancelledRef s); [|apply Hk].
  split; [apply Hc | apply tame_fin].
Qed.

Lemma steady_resolve (r : option SpinResult) : steady (resolve r).
Proof. intros s. split; [reflexivity | apply tame_fin]. Qed.

Lemma steady_detach (child k : M Co) : steady child → steady k → steady (detach child k).
Proof.
  intros Hchild Hk s. unfold detach.
  destruct (Hchild s) as [Hc1 Ht1]. destruct (child s) as [s1 c]. simpl in *.
  destruct (Hk s1) as [Hc2 Ht2]. destruct (k s1) as [s2 r]. simpl in *.
  split; [congruence | by apply tame_fork].
Qed.

Lemma keeps_handleActionWheelStateChange b n m :
  keeps_callback (handleActionWheelStateChange b n m).
Proof. intros s. reflexivity. Qed.

Lemma steady_finish c response : steady (finish c response).
Proof.
  unfold finish. apply steady_if_cancelled; [done|].
  do 4 (apply steady_exec; [intros s; reflexivity|]).
  apply steady_exec.
  { repeat case_match; first [apply keeps_handleActionWheelStateChange | done]. }
  apply steady_exec.
  { repeat case_match; intros s; repeat case_match; reflexivity. }
  apply steady_exec.
  { repeat case_match; intros s; repeat case_match; reflexivity. }
  apply steady_resolve.
Qed.

Lemma steady_expandReels c fs reels k :
  steady k → steady (expandReels numReels numRows c fs reels k).
Proof.
  intros Hk. induction reels as [|reel reels IH]; simpl; [exact Hk|].
  apply steady_if_cancelled; [done|]. apply steady_await.
  apply steady_if_cancelled; [done|]. apply steady_exec; [done|].
  apply steady_await. by apply steady_if_cancelled.
Qed.

Lemma steady_freeSpinsReveal c response reels base feature :
  steady (freeSpinsReveal numReels numRows c response reels base feature).
Proof.
  unfold freeSpinsReveal. cbv zeta.
  apply steady_exec; [by case_match|].
  match goal with
  | |- steady (_ ?rest) => assert (Hrest : steady rest)
  end.
  { case_match.
    - apply steady_exec; [done|]. apply steady_await.
      apply steady_if_cancelled; [done|]. apply steady_expandReels.
      apply steady_await. apply steady_if_cancelled; [done|].
      do 2 (apply steady_exec; [done|]).
      destruct feature;
        (do 2 (apply steady_exec; [done|])); apply steady_await;
        (apply steady_if_cancelled; [done|]); (apply steady_exec; [done|]);
        apply steady_finish.
    - apply steady_exec; [done|]. apply steady_finish. }
  match goal with |- steady (match ?l with [] => _ | _ => _ end _) => destruct l end.
  - apply steady_await, Hrest.
  - do 2 (apply steady_exec; [done|]). exact Hrest.
Qed.

Lemma steady_stopReels c originalGrid i todo k :
  steady k → steady (stopReels numReels c originalGrid i todo k).
Proof.
  intros Hk. revert i. induction todo as [|todo IH]; intros i; simpl; [exact Hk|].
  apply steady_if_cancelled; [done|]. apply steady_await.
  apply steady_if_cancelled; [done|]. apply steady_exec; [done|].
  apply steady_await. apply steady_exec; [done|].
  apply steady_detach.
  { apply steady_await. apply steady_exec; [done|]. apply steady_resolve. }
  apply steady_exec; [done|]. apply IH.
Qed.

Lemma steady_onError msg : steady (onError numReels msg).
Proof.
  unfold onError. apply steady_exec; [intros s; by case_match|].
  apply steady_exec; [done|]. apply steady_resolve.
Qed.

Lemma steady_afterResponse c response elapsed :
  steady (afterResponse numReels numRows c response elapsed).
Proof.
  unfold afterResponse. cbv zeta.
  apply steady_exec; [done|]. apply steady_if_cancelled; [done|].
  match goal with
  | |- steady (_ ?rest) => assert (Hrest : steady rest)
  end.
  { apply steady_if_cancelled; [done|].
    do 2 (apply steady_exec; [done|]).
    apply steady_stopReels. apply steady_if_cancelled; [done|].
    apply steady_await. apply steady_if_cancelled; [done|].
    destruct (c_isFreeSpinsMode c); [apply steady_freeSpinsReveal|].
    unfold normalReveal. apply steady_exec; [done|]. apply steady_finish. }
  destruct (0 <? Z.max 0 (pace c 200 600 - elapsed)); [by apply steady_await | exact Hrest].
Qed.

Lemma steady_spinPromise c : steady (spinPromise numReels numRows gameId c).
Proof.
  unfold spinPromise. apply steady_if_cancelled; [done|].
  intros s. split; [reflexivity|]. simpl.
  apply tame_net; intros a s'; destruct a;
    first [apply steady_afterResponse | apply steady_onError].
Qed.

Lemma steady_startReelsSequentially c i todo : steady (startReelsSequentially c i todo).
Proof.
  revert i. induction todo as [|todo IH]; intros i; simpl; [apply steady_resolve|].
  apply steady_if_cancelled; [done|]. apply steady_exec; [done|].
  apply steady_await, IH.
Qed.

Lemma steady_spin : steady (spin numReels numRows gameId).
Proof.
  intros s. unfold spin. cbv zeta.
  repeat match goal with
  | |- context [if ?b then _ else _] =>
      destruct b; [split; [reflexivity | apply tame_fin]|]
  end.
  match goal with
  | |- spinCallback (fst (?m s)) = _ ∧ _ => assert (Hm : steady m)
  end.
  { do 11 (apply steady_exec; [done|]). apply steady_await.
    apply steady_exec; [done|].
    apply steady_detach; [apply steady_startReelsSequentially | apply steady_spinPromise]. }
  apply Hm.
Qed.

Lemma steady_onSpin : steady (onSpin numReels numRows gameId).
Proof.
  intros s. unfold onSpin. destruct (showActionWheel s); [|apply steady_spin].
  split; [reflexivity | apply tame_fin].
Qed.

Lemma steady_handleKeyDown_S : steady (handleKeyDown_S numReels numRows gameId).
Proof.
  intros s. unfold handleKeyDown_S.
  repeat case_match; first [apply steady_spin | split; [reflexivity | apply tame_fin]].
Qed.

Lemma keeps_autoplayThen render v : keeps_callback (autoplayThen render v).
Proof. intros s. unfold autoplayThen. by repeat case_match. Qed.

Lemma keeps_autoplayEffect s : spinCallback (fst (autoplayEffect s)) = spinCallback s.
Proof. unfold autoplayEffect. by repeat case_match. Qed.

(** *** On the event loop *)

Lemma spawn_sound (t : Z) (r : Role) (c : Co) :
  tame c →
  match r with SpinPromise (Some f) => ∀ v, keeps_callback (f v) | _ => True end →
  ∀ w, sound w → sound (spawn t r c w).
Proof.
  intros Hc. revert r.
  induction Hc as [v | ms k Hk1 Hk2 _ | q k Hk1 Hk2 _ | child rest Hch IHc Hre IHr];
    intros r Hr w [Hcb Hpool]; simpl.
  - destruct r as [|[f|]]; [done | | done].
    split; [|exact Hpool]. simpl. by rewrite Hr.
  - split; [exact Hcb|]. unfold orderly. simpl. apply Forall_app. split; [exact Hpool|].
    apply Forall_singleton. split; [by apply tame_timer | exact Hr].
  - split; [exact Hcb|]. unfold orderly. simpl. apply Forall_app. split; [exact Hpool|].
    apply Forall_singleton. split; [by apply tame_net | exact Hr].
  - apply IHr; [exact Hr|]. by apply IHc.
Qed.

Lemma commit_memoised (w : World) :
  sound w → memoised (ui (commit w)) ∧ orderly (commit w).
Proof. intros [Hcb Hpool]. split; [by apply render_memoised | exact Hpool]. Qed.

Lemma memoised_sound (w : World) : memoised (ui w) → orderly w → sound w.
Proof. intros (r & Hr & _) Hpool. split; [by exists r | done]. Qed.

Lemma resume_memoised (i : nat) (t : Z) (ans : NetAnswer) (w : World) :
  memoised (ui w) → orderly w →
  memoised (ui (resume i t ans w)) ∧ orderly (resume i t ans w).
Proof.
  intros Hm Hpool. unfold resume.
  destruct (pool w !! i) as [k|] eqn:Hk; [|done].
  pose proof (Forall_lookup_1 _ _ _ _ Hpool Hk) as [Htame Hrole].
  assert (Hrest : sound {| now := t; ui := ui w; pool := delete i (pool w);
                           resolved := resolved w; tied := tied w |}).
  { destruct Hm as (r & Hr & _). split; [by exists r|].
    unfold orderly. simpl. by apply Forall_delete. }
  destruct (body k) as [v|ms f|q f|child rest] eqn:Hbody; [done | | | done].
  - inversion Htame as [| ? ? Hf1 Hf2 | |]; subst.
    specialize (Hf1 (ui w)). specialize (Hf2 (ui w)).
    destruct (f (ui w)) as [s c]. simpl in *.
    apply commit_memoised, spawn_sound; [done | done |].
    destruct Hrest as [[r Hr] Hp]. split; [|exact Hp]. exists r. simpl in *. congruence.
  - inversion Htame as [| | ? ? Hf1 Hf2 |]; subst.
    specialize (Hf1 ans (ui w)). specialize (Hf2 ans (ui w)).
    destruct (f ans (ui w)) as [s c]. simpl in *.
    apply commit_memoised, spawn_sound; [done | done |].
    destruct Hrest as [[r Hr] Hp]. split; [|exact Hp]. exists r. simpl in *. congruence.
Qed.

Lemma advance_memoised (fuel : nat) (limit : Z) :
  ∀ w, memoised (ui w) → orderly w →
       memoised (ui (advance fuel limit w)) ∧ orderly (advance fuel limit w).
Proof.
  induction fuel as [|fuel IH]; intros w Hm Hpool; simpl; [done|].
  destruct (next_timer 0 None (pool w)) as [[i d]|]; [|done].
  destruct (d <=? limit); [|done].
  destruct (resume_memoised i (Z.max (now w) d) (Rejected "") w Hm Hpool) as [Hm' Hp'].
  by apply IH.
Qed.

Lemma call_memoised (t : Z) (r : Role) (f : M Co) (w : World) :
  steady f →
  match r with SpinPromise (Some g) => ∀ v, keeps_callback (g v) | _ => True end →
  memoised (ui w) → orderly w →
  memoised (ui (call t r f w)) ∧ orderly (call t r f w).
Proof.
  intros Hf Hr Hm Hpool. unfold call.
  destruct (Hf (ui w)) as [Hcb Htame]. destruct (f (ui w)) as [s c]. simpl in *.
  assert (Hs : sound (with_ui s w)).
  { destruct Hm as (r0 & Hr0 & _). split; [|exact Hpool]. exists r0. simpl. congruence. }
  destruct c; apply commit_memoised; first [exact Hs | by apply spawn_sound].
Qed.

(** Every state in which the event loop runs a handler is one that a
    render has committed, if the first one is. *)
Lemma handle_memoised (fuel : nat) (e : Event) (w : World) :
  memoised (ui w) → orderly w →
  memoised (ui (handle numReels numRows gameId fuel e w))
  ∧ orderly (handle numReels numRows gameId fuel e w).
Proof.
  intros Hm Hpool. unfold handle. cbv zeta.
  destruct (advance_memoised fuel (time_of e - 1) w Hm Hpool) as [Hm1 Hp1].
  set (w1 := advance fuel (time_of e - 1) w) in *.
  set (w2 := {| now := Z.max (now w1) (time_of e); ui := ui w1; pool := pool w1;
                resolved := resolved w1;
                tied := tied w1 || (from_outside e && expires_at (time_of e) w1) |}).
  assert (Hm2 : memoised (ui w2)) by exact Hm1.
  assert (Hp2 : orderly w2) by exact Hp1.
  clearbody w2. clear w1 Hm1 Hp1.
  destruct e as [t|t|t|t|t response|t msg|t]; cbv iota beta.
  - apply call_memoised; [apply steady_onSpin | done | done | done].
  - apply call_memoised; [apply steady_handleKeyDown_S | done | done | done].
  - destruct (snd (autoplayEffect (ui w2))); try done.
    unfold autoplayTimer.
    destruct (negb (isAnimating (ui w2))).
    + destruct (steady_spin (ui w2)) as [Hcb Htame].
      destruct (spin numReels numRows gameId (ui w2)) as [s c]. simpl in *.
      apply commit_memoised, spawn_sound; [done | apply keeps_autoplayThen |].
      destruct Hm2 as (r0 & Hr0 & _). split; [|exact Hp2]. exists r0. simpl. congruence.
    + apply commit_memoised. by apply memoised_sound.
  - apply commit_memoised.
    destruct Hm2 as (r0 & Hr0 & _). split; [|exact Hp2]. exists r0. simpl.
    by rewrite keeps_autoplayEffect.
  - unfold answer. destruct (first_request 0 (pool w2)) as [i|]; [|done].
    destruct (pool w2 !! i); [|done]. by apply resume_memoised.
  - unfold answer. destruct (first_request 0 (pool w2)) as [i|]; [|done].
    destruct (pool w2 !! i); [|done]. by apply resume_memoised.
  - by apply advance_memoised.
Qed.

Lemma run_memoised (fuel : nat) (es : list Event) :
  ∀ w, memoised (ui w) → orderly w →
       memoised (ui (run numReels numRows gameId fuel es w))
       ∧ orderly (run numReels numRows gameId fuel es w).
Proof.
  induction es as [|e es IH]; intros w Hm Hpool; simpl; [done|].
  destruct (handle_memoised fuel e w Hm Hpool) as [Hm' Hp']. by apply IH.
Qed.

End Steady.

(** The sample schedules run in committed states throughout. *)
Lemma play_memoised (es : list (Loop.Event)) (s : Slot.St) :
  Assert.memoised s → Assert.memoised (Loop.ui (Samples.play es s)).
Proof.
  intros Hm. apply run_memoised; [exact Hm | apply Forall_nil_2].
Qed.

(** ** C4: the player fields come from the response *)

Section Synced.

Import Slot Round Assert.

Variables (numReels numRows : nat) (gameId : string).
Variables (response : PlayResponse) (elapsed : Z).

Lemma safe_exec f k : safe response elapsed k → safe response elapsed (f ;;; k).
Proof. apply triple_exec; auto. Qed.

Lemma safe_await ms k : safe response elapsed k → safe response elapsed (await ms k).
Proof. apply triple_await; auto. Qed.

Lemma safe_if_cancelled cleanup k :
  safe response elapsed k → safe response elapsed (if_cancelled cleanup k).
Proof. apply triple_if_cancelled. intros s _ res Hres. discriminate Hres. Qed.

Lemma safe_detach child k : safe response elapsed k → safe response elapsed (detach child k).
Proof. apply triple_detach; auto. Qed.

Lemma safe_finish c : safe response elapsed (finish c response).
Proof.
  unfold finish. apply triple_if_cancelled.
  { intros s _ res Hres. discriminate Hres. }
  apply triple_exec with (P' := fun s => balance s = p_balance response); [done|].
  apply triple_exec with
    (P' := fun s => balance s = p_balance response
                    ∧ freeSpinsRemaining s = p_freeSpinsRemaining response); [done|].
  apply triple_exec with
    (P' := fun s => balance s = p_balance response
                    ∧ freeSpinsRemaining s = p_freeSpinsRemaining response
                    ∧ featureSymbol s = p_featureSymbol response).
  { intros s [? ?]. done. }
  apply triple_exec with (P' := synced response).
  { intros s (? & ? & ?). done. }
  apply triple_exec with (P' := synced response).
  { intros s Hs. unfold synced in *. repeat case_match; exact Hs. }
  apply triple_exec with (P' := synced response).
  { intros s Hs. unfold synced in *. repeat case_match; exact Hs. }
  apply triple_exec with (P' := synced response).
  { intros s Hs. unfold synced in *. repeat case_match; exact Hs. }
  apply triple_resolve. intros s Hs res [= <-]. done.
Qed.

Lemma safe_expandReels c fs reels k :
  safe response elapsed k →
  safe response elapsed (expandReels numReels numRows c fs reels k).
Proof.
  intros Hk. induction reels as [|reelIndex rest IH]; simpl; [done|].
  apply safe_if_cancelled, safe_await, safe_if_cancelled, safe_exec, safe_await,
    safe_if_cancelled, IH.
Qed.

Lemma safe_freeSpinsReveal c reels bgl fgl :
  safe response elapsed (freeSpinsReveal numReels numRows c response reels bgl fgl).
Proof.
  unfold freeSpinsReveal. cbv zeta.
  apply safe_exec.
  match goal with
  | |- safe _ _ (_ ?rest) => assert (Hrest : safe response elapsed rest)
  end.
  { case_match.
    - apply safe_exec, safe_await, safe_if_cancelled, safe_expandReels, safe_await,
        safe_if_cancelled, safe_exec, safe_exec.
      destruct fgl;
        apply safe_exec, safe_exec, safe_await, safe_if_cancelled, safe_exec, safe_finish.
    - apply safe_exec, safe_finish. }
  match goal with |- safe _ _ (match ?l with [] => _ | _ => _ end _) => destruct l end.
  - apply safe_await, Hrest.
  - apply safe_exec, safe_exec, Hrest.
Qed.

Lemma safe_normalReveal c bgl : safe response elapsed (normalReveal c response bgl).
Proof. unfold normalReveal. apply safe_exec, safe_finish. Qed.

Lemma safe_stopReels c g i todo k :
  safe response elapsed k → safe response elapsed (stopReels numReels c g i todo k).
Proof.
  intros Hk. revert i. induction todo as [|todo IH]; intros i; simpl; [done|].
  apply safe_if_cancelled, safe_await, safe_if_cancelled, safe_exec, safe_await,
    safe_exec, safe_detach, safe_exec, IH.
Qed.

Lemma safe_afterResponse c :
  safe response elapsed (afterResponse numReels numRows c response elapsed).
Proof.
  unfold afterResponse. cbv zeta.
  apply safe_exec, safe_if_cancelled.
  match goal with
  | |- safe _ _ (_ ?rest) => assert (Hrest : safe response elapsed rest)
  end.
  { apply safe_if_cancelled, safe_exec, safe_exec, safe_stopReels, safe_if_cancelled,
      safe_await, safe_if_cancelled.
    destruct (c_isFreeSpinsMode c); [apply safe_freeSpinsReveal | apply safe_normalReveal]. }
  destruct (0 <? Z.max 0 (pace c 200 600 - elapsed)); [apply safe_await|]; exact Hrest.
Qed.

Lemma safe_spinPromise c : safe response elapsed (spinPromise numReels numRows gameId c).
Proof.
  unfold spinPromise. apply safe_if_cancelled.
  intros s _ sf r Hrun. unfold runs in Hrun. simpl in Hrun.
  inversion Hrun as [| | ? ? ? s' s1 c1 ? ? _ Hstep Hrest |]; subst.
  apply (safe_afterResponse c s' I sf r). unfold runs. by rewrite Hstep.
Qed.

Lemma safe_spin : safe response elapsed (spin numReels numRows gameId).
Proof.
  intros s _ sf r Hrun. unfold runs, spin in Hrun. cbv zeta in Hrun.
  repeat match type of Hrun with
  | context [if ?b then _ else _] =>
      destruct b; [simpl in Hrun; inversion Hrun; subst; intros res Hres; discriminate Hres|]
  end.
  match type of Hrun with
  | settles _ _ (fst (?m s)) _ _ _ => assert (Hm : safe response elapsed m)
  end.
  { do 11 apply safe_exec. apply safe_await, safe_exec, safe_detach, safe_spinPromise. }
  exact (Hm s I sf r Hrun).
Qed.

End Synced.

(** ** C3: expansion and feature lines *)

Lemma uniq_elem (a seen : list nat) (x : nat) :
  x ∈ uniq seen a ↔ x ∈ a ∧ x ∉ seen.
Proof.
  revert seen. induction a as [|y a IH]; intros seen; simpl.
  - split; [intros H; by apply elem_of_nil in H | intros [H _]; by apply elem_of_nil in H].
  - case_bool_decide as Hy.
    + split.
      * intros Hx. apply IH in Hx as [Hx Hs]. split; [by apply elem_of_cons; right | done].
      * intros [Hx Hs]. apply IH. split; [|done].
        apply elem_of_cons in Hx as [->|Hx]; done.
    + split.
      * intros Hx. apply elem_of_cons in Hx as [->|Hx].
        { split; [by apply elem_of_cons; left | done]. }
        apply IH in Hx as [Hx Hs]. split; [by apply elem_of_cons; right|].
        intros Hin. apply Hs. by apply elem_of_cons; right.
      * intros [Hx Hs]. apply elem_of_cons in Hx as [->|Hx]; [by apply elem_of_cons; left|].
        destruct (decide (x = y)) as [->|Hne]; [by apply elem_of_cons; left|].
        apply elem_of_cons; right. apply IH. split; [done|]. intros Hin.
        apply elem_of_cons in Hin as [?|?]; done.
Qed.

Lemma uniq_NoDup (a seen : list nat) : NoDup (uniq seen a).
Proof.
  revert seen. induction a as [|y a IH]; intros seen; simpl; [constructor|].
  case_bool_decide; [apply IH|].
  constructor; [|apply IH].
  intros [_ Hy]%uniq_elem. apply Hy. by apply elem_of_cons; left.
Qed.

(** [uniq] counts the distinct reels: any duplicate-free selection of reels of
    [a] is at most as long. *)
Lemma uniq_counts_distinct (a ds : list nat) :
  NoDup ds → (∀ x, x ∈ ds → x ∈ a) → (length ds ≤ length (uniq [] a))%nat.
Proof.
  intros Hnd Hsub. apply submseteq_length, NoDup_submseteq; [done|].
  intros x Hx. apply uniq_elem. split; [by apply Hsub|]. by intros ?%elem_of_nil.
Qed.

Lemma js_set_length_ge {A : Type} (d x : A) (i : nat) (a : list A) :
  (i ≤ length a)%nat → (S i ≤ length (js_set d i x a))%nat.
Proof.
  intros Hi. unfold js_set. case_decide.
  - rewrite length_insert. lia.
  - rewrite !length_app, length_replicate. simpl. lia.
Qed.

Section Display.

Import Slot Round Assert.

Variables (numReels numRows : nat) (gameId : string).
Variables (response : PlayResponse) (elapsed : Z).

Lemma shown_exec D f k Q :
  display_only f → shown response elapsed D k Q → shown response elapsed D (f ;;; k) Q.
Proof.
  intros Hf. apply triple_exec. intros s HD. unfold lift in *.
  destruct (Hf s) as [-> ->]. exact HD.
Qed.

Lemma shown_updGrid (D D' : list (list string) → list WinningLine → Prop) f k Q :
  (∀ g w, D g w → D' (f g) w) →
  shown response elapsed D' k Q → shown response elapsed D (updGrid f ;;; k) Q.
Proof. intros Hf. apply triple_exec. intros s HD. apply Hf, HD. Qed.

Lemma shown_setWinningLines (D D' : list (list string) → list WinningLine → Prop) v k Q :
  (∀ g w, D g w → D' g v) →
  shown response elapsed D' k Q → shown response elapsed D (setWinningLines v ;;; k) Q.
Proof. intros Hv. apply triple_exec. intros s HD. exact (Hv _ _ HD). Qed.

Lemma shown_await D ms k Q :
  shown response elapsed D k Q → shown response elapsed D (await ms k) Q.
Proof.
  apply triple_await. intros s s' HD [Hg Hw]. unfold lift in *. by rewrite Hg, Hw.
Qed.

Lemma shown_if_cancelled D cleanup k Q :
  (∀ s, Q s None) →
  shown response elapsed D k Q → shown response elapsed D (if_cancelled cleanup k) Q.
Proof. intros HQ. apply triple_if_cancelled. intros s _. apply HQ. Qed.

Lemma shown_detach_timer D ms child k Q :
  shown response elapsed D k Q → shown response elapsed D (detach (await ms child) k) Q.
Proof. apply triple_detach. intros s HD. exact HD. Qed.

Lemma shown_weaken (D D' : list (list string) → list WinningLine → Prop) m Q :
  (∀ g w, D g w → D' g w) → shown response elapsed D' m Q → shown response elapsed D m Q.
Proof. intros HDD. apply triple_pre. intros s. apply HDD. Qed.

Lemma revealed_None fs reels lines s : revealed numReels numRows fs reels lines s None.
Proof. intros H. done. Qed.

Lemma display_only_handleActionWheelStateChange b n m :
  display_only (handleActionWheelStateChange b n m).
Proof. intros s. split; reflexivity. Qed.

(** The closing segment changes neither the grid nor the winning lines. *)
Lemma shown_finish c fs reels lines :
  shown response elapsed
    (fun g w => expanded numReels numRows fs reels g ∧ w = lines)
    (finish c response)
    (revealed numReels numRows fs reels lines).
Proof.
  unfold finish. apply shown_if_cancelled; [intros; apply revealed_None|].
  do 4 (apply shown_exec; [intros s; split; reflexivity|]).
  apply shown_exec.
  { repeat case_match; try apply display_only_handleActionWheelStateChange;
      intros s; split; reflexivity. }
  apply shown_exec.
  { repeat case_match; intros s; repeat case_match; split; reflexivity. }
  apply shown_exec.
  { repeat case_match; intros s; repeat case_match; split; reflexivity. }
  apply triple_resolve. intros s HD _. exact HD.
Qed.

Lemma expanded_insert fs reels reelIndex g :
  expanded numReels numRows fs reels g →
  expanded numReels numRows fs (reels ++ [reelIndex])
    (<[reelIndex := replicate numRows fs]> g).
Proof.
  intros [Hlen Hdone]. split; [by rewrite length_insert|].
  intros reel Hin Hlt.
  destruct (decide (reel = reelIndex)) as [->|Hne].
  - apply list_lookup_insert_eq. lia.
  - rewrite list_lookup_insert_ne by done.
    apply Hdone; [|done].
    apply elem_of_app in Hin as [Hin|Hin]; [done|].
    apply list_elem_of_singleton in Hin. done.
Qed.

(** The expansion loop fills one listed reel after the other. *)
Lemma shown_expandReels c fs reels done k Q :
  (∀ s, Q s None) →
  shown response elapsed
    (fun g _ => expanded numReels numRows fs (done ++ reels) g) k Q →
  shown response elapsed
    (fun g _ => expanded numReels numRows fs done g)
    (expandReels numReels numRows c fs reels k) Q.
Proof.
  intros HQ. revert done. induction reels as [|reelIndex rest IH]; intros done Hk; simpl.
  - by rewrite app_nil_r in Hk.
  - apply shown_if_cancelled; [done|]. apply shown_await.
    apply shown_if_cancelled; [done|].
    apply shown_updGrid with
      (D' := fun g _ => expanded numReels numRows fs (done ++ [reelIndex]) g).
    { intros g w. apply expanded_insert. }
    apply shown_await. apply shown_if_cancelled; [done|].
    apply IH. by rewrite <- app_assoc.
Qed.

(** The stop loop puts reels [i], [i+1], ... on screen. *)
Lemma shown_stopReels c og i todo k Q :
  (∀ s, Q s None) →
  shown response elapsed (fun g _ => (i + todo ≤ length g)%nat) k Q →
  shown response elapsed (fun g _ => (i ≤ length g)%nat)
    (stopReels numReels c og i todo k) Q.
Proof.
  intros HQ. revert i. induction todo as [|todo IH]; intros i Hk; simpl.
  - eapply shown_weaken; [|exact Hk]. intros g w Hi. simpl in *. lia.
  - apply shown_if_cancelled; [done|]. apply shown_await.
    apply shown_if_cancelled; [done|].
    apply shown_updGrid with (D' := fun g _ => (S i ≤ length g)%nat).
    { intros g w. apply js_set_length_ge. }
    apply shown_await.
    apply shown_exec; [intros s; split; reflexivity|].
    apply shown_detach_timer.
    apply shown_exec; [intros s; split; reflexivity|].
    apply IH. eapply shown_weaken; [|exact Hk]. intros g w Hi. simpl in *. lia.
Qed.

End Display.

Section Reveal.

Import Slot Round Assert.

Variables (numReels numRows : nat) (gameId : string).
Variables (response : PlayResponse) (elapsed : Z).

Hypothesis Hfs : truthy (top_featureSymbol response) = true.
Hypothesis Hthreshold :
  (expansionThreshold (top_featureSymbol response) ≤ length (expandedReels response))%nat.

Lemma shown_freeSpinsReveal c bgl :
  shown response elapsed (fun g _ => (numReels ≤ length g)%nat)
    (freeSpinsReveal numReels numRows c response (expandedReels response) bgl
       (featureLines response))
    (reveals numReels numRows response).
Proof.
  unfold reveals.
  unfold freeSpinsReveal. cbv zeta.
  rewrite Hfs, bool_decide_eq_true_2 by exact Hthreshold. simpl andb. cbv iota.
  apply shown_exec; [intros s; split; reflexivity|].
  match goal with
  | |- shown _ _ _ (_ ?rest) _ =>
      assert (Hrest : shown response elapsed (fun g _ => (numReels ≤ length g)%nat) rest
                        (reveals numReels numRows response))
  end; unfold reveals in *.
  { apply shown_exec; [intros s; split; reflexivity|].
    apply shown_await.
    apply shown_if_cancelled; [intros; apply revealed_None|].
    apply shown_weaken with
      (D' := fun g _ => expanded numReels numRows (top_featureSymbol response) [] g).
    { intros g w Hlen. split; [exact Hlen|]. intros reel Hin. by apply elem_of_nil in Hin. }
    apply shown_expandReels; [intros; apply revealed_None|]. simpl app.
    apply shown_await.
    apply shown_if_cancelled; [intros; apply revealed_None|].
    do 2 (apply shown_exec; [intros s; split; reflexivity|]).
    destruct (featureLines response) as [|l ls] eqn:Hlines.
    - apply shown_setWinningLines with
        (D' := fun g w => expanded numReels numRows (top_featureSymbol response)
                          (expandedReels response) g ∧ w = []).
      { intros g w Hg. split; [exact Hg | reflexivity]. }
      apply shown_exec; [intros s; split; reflexivity|].
      apply shown_await.
      apply shown_if_cancelled; [intros; apply revealed_None|].
      apply shown_exec; [intros s; split; reflexivity|].
      apply shown_finish.
    - apply shown_exec; [intros s; split; reflexivity|].
      apply shown_setWinningLines with
        (D' := fun g w => expanded numReels numRows (top_featureSymbol response)
                          (expandedReels response) g ∧ w = l :: ls).
      { intros g w Hg. split; [exact Hg | reflexivity]. }
      apply shown_await.
      apply shown_if_cancelled; [intros; apply revealed_None|].
      apply shown_exec; [intros s; split; reflexivity|].
      apply shown_finish. }
  match goal with |- shown _ _ _ (match ?l with [] => _ | _ => _ end _) _ => destruct l end.
  - apply shown_await, Hrest.
  - apply shown_setWinningLines with (D' := fun g _ => (numReels ≤ length g)%nat);
      [intros ? ? Hg; exact Hg|].
    apply shown_exec; [intros s; split; reflexivity|].
    exact Hrest.
Qed.

Lemma shown_afterResponse c :
  c_isFreeSpinsMode c = true →
  shown response elapsed (fun _ _ => True)
    (afterResponse numReels numRows c response elapsed)
    (reveals numReels numRows response).
Proof.
  unfold reveals.
  intros Hfree. unfold afterResponse. cbv zeta. rewrite Hfree, Hfs. simpl andb.
  cbv iota. fold (featureLines response).
  replace (match expandedSymbols (p_results response) with
           | [] => []
           | _ :: _ => uniq [] (map fst (expandedSymbols (p_results response)))
           end) with (expandedReels response)
    by (unfold expandedReels; destruct (expandedSymbols (p_results response)); reflexivity).
  apply shown_exec; [intros s; split; reflexivity|].
  apply shown_if_cancelled; [intros; apply revealed_None|].
  match goal with
  | |- shown _ _ _ (_ ?rest) _ =>
      assert (Hrest : shown response elapsed (fun _ _ => True) rest
                        (reveals numReels numRows response))
  end; unfold reveals in *.
  { apply shown_if_cancelled; [intros; apply revealed_None|].
    apply shown_setWinningLines with (D' := fun _ _ => True); [done|].
    apply shown_exec; [intros s; split; reflexivity|].
    apply shown_weaken with (D' := fun g _ => (0 ≤ length g)%nat).
    { intros g w _. simpl. lia. }
    apply shown_stopReels; [intros; apply revealed_None|]. simpl plus.
    apply shown_if_cancelled; [intros; apply revealed_None|].
    apply shown_await.
    apply shown_if_cancelled; [intros; apply revealed_None|].
    apply shown_freeSpinsReveal. }
  destruct (0 <? Z.max 0 (pace c 200 600 - elapsed)); [apply shown_await|]; exact Hrest.
Qed.

Lemma shown_spinPromise c :
  c_isFreeSpinsMode c = true →
  shown response elapsed (fun _ _ => True)
    (spinPromise numReels numRows gameId c)
    (reveals numReels numRows response).
Proof.
  unfold reveals.
  intros Hfree. unfold spinPromise.
  apply shown_if_cancelled; [intros; apply revealed_None|].
  intros s _ sf r Hrun. unfold runs in Hrun. simpl in Hrun.
  inversion Hrun as [| | ? ? ? s' s1 c1 ? ? _ Hstep Hrest |]; subst.
  apply (shown_afterResponse c Hfree s' I sf r). unfold runs. by rewrite Hstep.
Qed.

Lemma shown_spin (s0 : St) :
  c_isFreeSpinsMode (spinCallback s0) = true →
  ∀ sf r, runs keeps_display (Replied response elapsed)
            (spin numReels numRows gameId) s0 sf r →
          reveals numReels numRows response sf r.
Proof.
  unfold reveals.
  intros Hfree sf r Hrun. unfold runs, spin in Hrun. cbv zeta in Hrun.
  repeat match type of Hrun with
  | context [if ?b then _ else _] =>
      destruct b; [simpl in Hrun; inversion Hrun; subst; apply revealed_None|]
  end.
  match type of Hrun with
  | settles _ _ (fst (?m s0)) _ _ _ =>
      assert (Hm : shown response elapsed (fun _ _ => True) m
                     (reveals numReels numRows response))
  end; unfold reveals in *.
  { do 2 (apply shown_exec; [intros s; split; reflexivity|]).
    apply shown_setWinningLines with (D' := fun _ _ => True); [done|].
    do 8 (apply shown_exec; [intros s; split; reflexivity|]).
    apply shown_await.
    apply shown_exec; [intros s; split; reflexivity|].
    apply triple_detach with (P' := lift (fun _ _ => True)); [done|].
    apply shown_spinPromise. exact Hfree. }
  exact (Hm s0 I sf r Hrun).
Qed.

End Reveal.

(** ** Runs exist and, undisturbed, complete *)

Section Live.

Import Slot Round Assert.

Variables (numReels numRows : nat) (gameId : string).
Variables (response : PlayResponse) (elapsed : Z).

(** The task run on its own is a run, for any interference that allows
    doing nothing. *)
Lemma drive_settles (R : St → St → Prop) (a : NetAnswer) :
  (∀ s, R s s) →
  ∀ c s, settles R a s c (fst (drive a c s)) (snd (drive a c s)).
Proof.
  intros HR. fix IH 1. intros [r|ms k|q k|child rest] s; cbn [drive].
  - apply settles_fin.
  - apply settles_timer with (s' := s) (s1 := fst (k s)) (c1 := snd (k s));
      [apply HR | by destruct (k s) |].
    specialize (IH (snd (k s)) (fst (k s))). by destruct (k s).
  - apply settles_net with (s' := s) (s1 := fst (k a s)) (c1 := snd (k a s));
      [apply HR | by destruct (k a s) |].
    specialize (IH (snd (k a s)) (fst (k a s))). by destruct (k a s).
  - apply settles_fork, IH.
Qed.

(** So is the task run amid an environment that stays within the
    interference. *)
Lemma drive_amid_settles (R : St → St → Prop) (a : NetAnswer) (env : St → St) :
  (∀ s, R s (env s)) →
  ∀ c s, settles R a s c (fst (drive_amid env a c s)) (snd (drive_amid env a c s)).
Proof.
  intros HR. fix IH 1. intros [r|ms k|q k|child rest] s; cbn [drive_amid].
  - apply settles_fin.
  - apply settles_timer with (s' := env s) (s1 := fst (k (env s))) (c1 := snd (k (env s)));
      [apply HR | by destruct (k (env s)) |].
    specialize (IH (snd (k (env s))) (fst (k (env s)))). by destruct (k (env s)).
  - apply settles_net with (s' := env s) (s1 := fst (k a (env s)))
                           (c1 := snd (k a (env s)));
      [apply HR | by destruct (k a (env s)) |].
    specialize (IH (snd (k a (env s))) (fst (k a (env s)))). by destruct (k a (env s)).
  - apply settles_fork, IH.
Qed.

(** A run under an interference is a run under any wider one. *)
Lemma settles_wider (R R' : St → St → Prop) (a : NetAnswer) :
  (∀ s s', R s s' → R' s s') →
  ∀ s c sf r, settles R a s c sf r → settles R' a s c sf r.
Proof.
  intros HRR s c sf r Hrun.
  induction Hrun as [s r | s ms k s' s1 c1 sf r HR Hk _ IH
                    | s q k s' s1 c1 sf r HR Hk _ IH | s child rest sf r _ IH].
  - apply settles_fin.
  - eapply settles_timer; [apply HRR, HR | exact Hk | exact IH].
  - eapply settles_net; [apply HRR, HR | exact Hk | exact IH].
  - apply settles_fork, IH.
Qed.

Lemma drive_runs (R : St → St → Prop) (a : NetAnswer) (m : M Co) (s : St) :
  (∀ s, R s s) →
  runs R a m s (fst (drive a (snd (m s)) (fst (m s))))
               (snd (drive a (snd (m s)) (fst (m s)))).
Proof. intros HR. apply drive_settles, HR. Qed.

Lemma live_exec f k :
  flag_free f → live response elapsed k → live response elapsed (f ;;; k).
Proof. intros Hf. apply triple_exec. intros s Hs. by rewrite Hf. Qed.

Lemma live_await ms k : live response elapsed k → live response elapsed (await ms k).
Proof. apply triple_await. intros s s' Hs HR. by rewrite HR. Qed.

Lemma live_if_cancelled cleanup k :
  live response elapsed k → live response elapsed (if_cancelled cleanup k).
Proof.
  intros Hk s Hs sf r Hrun. unfold runs, if_cancelled in Hrun. rewrite Hs in Hrun.
  exact (Hk s Hs sf r Hrun).
Qed.

Lemma live_detach child k :
  (∀ s, spinCancelledRef (fst (child s)) = spinCancelledRef s) →
  live response elapsed k → live response elapsed (detach child k).
Proof. intros Hc. apply triple_detach. intros s Hs. by rewrite Hc. Qed.

Lemma live_finish c : live response elapsed (finish c response).
Proof.
  unfold finish. apply live_if_cancelled.
  do 4 (apply live_exec; [intros s; reflexivity|]).
  do 3 (apply live_exec; [repeat case_match; intros s; repeat case_match; reflexivity|]).
  apply triple_resolve. done.
Qed.

Lemma live_expandReels c fs reels k :
  live response elapsed k → live response elapsed (expandReels numReels numRows c fs reels k).
Proof.
  intros Hk. induction reels as [|reelIndex rest IH]; simpl; [done|].
  apply live_if_cancelled, live_await, live_if_cancelled.
  apply live_exec; [intros s; reflexivity|].
  apply live_await, live_if_cancelled, IH.
Qed.

Lemma live_stopReels c g i todo k :
  live response elapsed k → live response elapsed (stopReels numReels c g i todo k).
Proof.
  intros Hk. revert i. induction todo as [|todo IH]; intros i; simpl; [done|].
  apply live_if_cancelled, live_await, live_if_cancelled.
  apply live_exec; [intros s; reflexivity|].
  apply live_await.
  apply live_exec; [intros s; reflexivity|].
  apply live_detach; [intros s; reflexivity|].
  apply live_exec; [intros s; reflexivity|].
  apply IH.
Qed.

Lemma live_freeSpinsReveal c reels bgl fgl :
  live response elapsed (freeSpinsReveal numReels numRows c response reels bgl fgl).
Proof.
  unfold freeSpinsReveal. cbv zeta.
  apply live_exec; [case_match; intros s; reflexivity|].
  match goal with
  | |- live _ _ (_ ?rest) => assert (Hrest : live response elapsed rest)
  end.
  { case_match.
    - apply live_exec; [intros s; reflexivity|].
      apply live_await, live_if_cancelled, live_expandReels, live_await, live_if_cancelled.
      do 2 (apply live_exec; [intros s; reflexivity|]).
      destruct fgl;
        (do 2 (apply live_exec; [intros s; reflexivity|]));
        apply live_await, live_if_cancelled;
        (apply live_exec; [intros s; reflexivity|]); apply live_finish.
    - apply live_exec; [intros s; reflexivity|]. apply live_finish. }
  match goal with |- live _ _ (match ?l with [] => _ | _ => _ end _) => destruct l end.
  - apply live_await, Hrest.
  - do 2 (apply live_exec; [intros s; reflexivity|]). exact Hrest.
Qed.

Lemma live_afterResponse c :
  live response elapsed (afterResponse numReels numRows c response elapsed).
Proof.
  unfold afterResponse. cbv zeta.
  apply live_exec; [intros s; reflexivity|].
  apply live_if_cancelled.
  match goal with
  | |- live _ _ (_ ?rest) => assert (Hrest : live response elapsed rest)
  end.
  { apply live_if_cancelled.
    do 2 (apply live_exec; [intros s; reflexivity|]).
    apply live_stopReels, live_if_cancelled, live_await, live_if_cancelled.
    destruct (c_isFreeSpinsMode c); [apply live_freeSpinsReveal|].
    unfold normalReveal. apply live_exec; [intros s; reflexivity|]. apply live_finish. }
  destruct (0 <? Z.max 0 (pace c 200 600 - elapsed)); [apply live_await|]; exact Hrest.
Qed.

Lemma live_spinPromise c : live response elapsed (spinPromise numReels numRows gameId c).
Proof.
  unfold spinPromise. apply live_if_cancelled.
  intros s Hs sf r Hrun. unfold runs in Hrun. simpl in Hrun.
  inversion Hrun as [| | ? ? ? s' s1 c1 ? ? HR Hstep Hrest |]; subst.
  apply (live_afterResponse c s' (eq_trans HR Hs) sf r). unfold runs. by rewrite Hstep.
Qed.

Lemma startReelsSequentially_flag c i todo s :
  spinCancelledRef (fst (startReelsSequentially c i todo s)) = spinCancelledRef s.
Proof.
  destruct todo; simpl; [done|]. unfold if_cancelled.
  destruct (spinCancelledRef s) eqn:E; simpl; exact E.
Qed.

(** A round whose guards passed and which no later spin disturbs resolves
    with the results of the response. *)
Lemma spin_completes (s0 sf : St) (r : option SpinResult) :
  started (snd (spin numReels numRows gameId s0)) = true →
  runs undisturbed (Replied response elapsed) (spin numReels numRows gameId) s0 sf r →
  r = Some (p_results response).
Proof.
  intros Hstart Hrun. unfold runs in Hrun. unfold spin in Hrun, Hstart.
  cbv zeta in Hrun, Hstart.
  repeat match type of Hrun with
  | context [if ?b then _ else _] => destruct b; [discriminate Hstart|]
  end.
  match type of Hrun with
  | settles _ _ (fst (?m s0)) _ _ _ =>
      assert (Hm : triple undisturbed (Replied response elapsed) (fun _ => True) m
                     (fun _ r => r = Some (p_results response)))
  end.
  { do 11 (apply triple_exec with (P' := fun _ => True); [done|]).
    apply triple_await with (P' := fun _ => True); [done|].
    apply triple_exec with (P' := fun s => spinCancelledRef s = false); [done|].
    apply live_detach; [apply startReelsSequentially_flag|].
    apply live_spinPromise. }
  exact (Hm s0 I sf r Hrun).
Qed.

End Live.

(** X19.  A round whose guards passed and which no later spin disturbs
    (nothing touches the cancellation flag while it is in flight, whatever
    else is done to the state meanwhile) completes: every such run resolves
    with the results of the response and leaves the balance, the free spins
    remaining, the feature symbol and the last win of the response; and
    whatever the rest of the program does to the state at the suspensions,
    the flag apart, the round runs to that end. *)
Lemma undisturbed_round_completes (numReels numRows : nat) (gameId : string)
    (s0 : Slot.St) (response : Slot.PlayResponse) (elapsed : Z) :
  Round.started (snd (Slot.spin numReels numRows gameId s0)) = true →
  (∀ sf r, Round.runs Assert.undisturbed (Slot.Replied response elapsed)
             (Slot.spin numReels numRows gameId) s0 sf r →
           r = Some (Slot.p_results response) ∧ Assert.synced response sf)
  ∧ (∀ env : Slot.St → Slot.St,
       (∀ s, Slot.spinCancelledRef (env s) = Slot.spinCancelledRef s) →
       let round := Slot.spin numReels numRows gameId s0 in
       let end_ := Round.drive_amid env (Slot.Replied response elapsed)
                     (snd round) (fst round) in
       snd end_ = Some (Slot.p_results response)
       ∧ Assert.synced response (fst end_)
       ∧ Round.runs Assert.undisturbed (Slot.Replied response elapsed)
           (Slot.spin numReels numRows gameId) s0 (fst end_) (snd end_)).
Proof.
  intros Hstart.
  assert (Hall : ∀ sf r, Round.runs Assert.undisturbed (Slot.Replied response elapsed)
                           (Slot.spin numReels numRows gameId) s0 sf r →
                         r = Some (Slot.p_results response) ∧ Assert.synced response sf).
  { intros sf r Hrun.
    pose proof (spin_completes numReels numRows gameId response elapsed s0 sf r Hstart Hrun)
      as ->.
    split; [reflexivity|].
    assert (Hany : Round.runs Round.anything (Slot.Replied response elapsed)
                     (Slot.spin numReels numRows gameId) s0 sf
                     (Some (Slot.p_results response))).
    { unfold Round.runs in *. eapply settles_wider; [|exact Hrun]. done. }
    exact (proj1 (safe_spin numReels numRows gameId response elapsed s0 I _ _ Hany _ eq_refl)). }
  split; [exact Hall|].
  intros env Henv. cbv zeta.
  assert (Hrun : Round.runs Assert.undisturbed (Slot.Replied response elapsed)
                   (Slot.spin numReels numRows gameId) s0
                   (fst (Round.drive_amid env (Slot.Replied response elapsed)
                           (snd (Slot.spin numReels numRows gameId s0))
                           (fst (Slot.spin numReels numRows gameId s0))))
                   (snd (Round.drive_amid env (Slot.Replied response elapsed)
                           (snd (Slot.spin numReels numRows gameId s0))
                           (fst (Slot.spin numReels numRows gameId s0))))).
  { unfold Round.runs. apply drive_amid_settles. exact Henv. }
  destruct (Hall _ _ Hrun) as [Hres Hsync]. done.
Qed.

(** ** Borders come from the winning lines *)

Section Borders.

Import Slot.

Lemma foldl_borders (f : list Z → WinningLine → list Z) :
  (∀ acc l, f acc l = acc ∨ f acc l = acc ++ [paylineIndex l]
            ∨ (paylineIndex l = -1 ∧ f acc l = acc ++ [10])) →
  ∀ (ls : list WinningLine) (acc : list Z) (x : Z),
    x ∈ foldl f acc ls →
    x ∈ acc ∨ ∃ l, l ∈ ls ∧ (x = paylineIndex l ∨ (paylineIndex l = -1 ∧ x = 10)).
Proof.
  intros Hf. induction ls as [|l ls IH]; intros acc x Hx; simpl in Hx; [by left|].
  destruct (IH _ _ Hx) as [Hacc | (l' & Hl' & Hx')].
  - destruct (Hf acc l) as [E | [E | [Hneg E]]]; rewrite E in Hacc.
    + by left.
    + apply elem_of_app in Hacc as [?|Hlast]; [by left|].
      apply list_elem_of_singleton in Hlast. right. exists l.
      split; [apply elem_of_cons; by left | by left].
    + apply elem_of_app in Hacc as [?|Hlast]; [by left|].
      apply list_elem_of_singleton in Hlast. right. exists l.
      split; [apply elem_of_cons; by left | by right].
  - right. exists l'. split; [apply elem_of_cons; by right | done].
Qed.

(** Every border drawn on a cell is the payline index of a current winning
    line, or the scatter mark [10] of a current scatter line. *)
Lemma borders_from_winningLines (scatterSymbol : string) (s : St) (reelIndex rowIndex : nat)
    (x : Z) :
  x ∈ getWinningLineIndices scatterSymbol s reelIndex rowIndex →
  ∃ l, l ∈ winningLines s ∧ (x = paylineIndex l ∨ (paylineIndex l = -1 ∧ x = 10)).
Proof.
  unfold getWinningLineIndices. destruct (winningLines s) as [|l0 ls] eqn:Hw.
  { intros H. by apply elem_of_nil in H. }
  cbv zeta.
  set (fgl := List.filter _ (l0 :: ls)).
  set (f := fun (acc : list Z) (l : WinningLine) => _).
  assert (Hfold : x ∈ foldl f [] (l0 :: ls) →
                  ∃ l, l ∈ l0 :: ls ∧ (x = paylineIndex l ∨ (paylineIndex l = -1 ∧ x = 10))).
  { intros Hx. apply foldl_borders in Hx as [Hnil | Hx]; [by apply elem_of_nil in Hnil | done |].
    intros acc l. subst f. cbv beta.
    destruct (isFreeSpinsMode s && _); [by left|].
    destruct (paylineIndex l =? -1) eqn:E; simpl negb; cbv iota.
    - apply Z.eqb_eq in E. case_match; [right; right; done | by left].
    - case_match; [right; by left | by left]. }
  assert (Hmap : x ∈ map paylineIndex fgl →
                 ∃ l, l ∈ l0 :: ls ∧ (x = paylineIndex l ∨ (paylineIndex l = -1 ∧ x = 10))).
  { intros Hx. apply list_elem_of_fmap in Hx as (l & -> & Hl).
    exists l. split; [|by left].
    apply list_elem_of_In. apply list_elem_of_In in Hl.
    subst fgl. apply filter_In in Hl. tauto. }
  destruct (isFreeSpinsMode s && bool_decide (reelIndex ∈ reelsToExpand s)
            && truthy (featureSymbol s)); [|exact Hfold].
  destruct fgl; [exact Hfold | exact Hmap].
Qed.

End Borders.

(** ** C1: which busy flags hold a spin back *)

Section Gates.

Import Slot Round.

Variables (numReels numRows : nat) (gameId : string).

Lemma isAnimating_false (s : St) :
  isAnimating s = false → isSpinning s = false ∧ showActionWheel s = false.
Proof.
  unfold isAnimating. intros H.
  repeat (apply orb_false_elim in H as [H ?]). done.
Qed.

(** The guards of [spin], read off the callback it runs. *)
Lemma spin_started (s : St) :
  started (snd (spin numReels numRows gameId s))
  = (if c_isFreeSpinsMode (spinCallback s) then negb (c_isAnimating (spinCallback s))
     else negb (c_isSpinning (spinCallback s)))
    && truthy (c_sessionId (spinCallback s))
    && negb ((c_balance (spinCallback s) <? c_totalBet (spinCallback s))
             && (c_freeSpinsRemaining (spinCallback s) =? 0)
             && (c_actionGameSpins (spinCallback s) =? 0)).
Proof.
  unfold spin. cbv zeta.
  destruct (c_isFreeSpinsMode (spinCallback s)), (c_isAnimating (spinCallback s)),
    (c_isSpinning (spinCallback s)), (truthy (c_sessionId (spinCallback s)));
    simpl; try reflexivity;
    destruct ((c_balance (spinCallback s) <? c_totalBet (spinCallback s))
              && (c_freeSpinsRemaining (spinCallback s) =? 0)
              && (c_actionGameSpins (spinCallback s) =? 0)); reflexivity.
Qed.

(** The same for a committed state: every guard but the reel-spinning one
    reads what the state holds. *)
Lemma spin_started_memoised (s : St) :
  Assert.memoised s →
  started (snd (spin numReels numRows gameId s))
  = (if isFreeSpinsMode s then negb (isAnimating s)
     else negb (c_isSpinning (spinCallback s)))
    && truthy (sessionId s)
    && negb ((balance s <? totalBet s) && (freeSpinsRemaining s =? 0)
             && (actionGameSpins s =? 0)).
Proof.
  intros Hm. rewrite spin_started.
  destruct (memoised_closure s Hm) as (-> & -> & -> & -> & -> & -> & _ & -> & _).
  reflexivity.
Qed.

Lemma spin_not_started (s : St) :
  started (snd (spin numReels numRows gameId s)) = false →
  snd (spin numReels numRows gameId s) = Fin None
  ∧ requests (fst (spin numReels numRows gameId s)) = requests s.
Proof.
  unfold spin. cbv zeta.
  repeat match goal with
  | |- context [if ?b then _ else _] => destruct b; [simpl; done|]
  end.
  simpl. discriminate.
Qed.

End Gates.

(** C1, the claim as stated fails: in the base game with no reel spinning
    and the win animation of the last round still showing, the [onSpin]
    callback of the control panel starts a round but the keyboard shortcut
    does not, and autoplay sets no timer; and [onSpin] starts nothing while
    the bonus wheel is open although no reel is spinning. *)
Lemma shortcut_waits_for_win_animation :
  let s := Samples.showingWin in
  Slot.isFreeSpinsMode s = false
  ∧ Slot.isSpinning s = false
  ∧ Round.started (snd (Slot.onSpin 5 3 Samples.gid s)) = true
  ∧ Round.started (snd (Slot.handleKeyDown_S 5 3 Samples.gid s)) = false
  ∧ snd (Slot.autoplayEffect (Slot.startAutoplay Samples.lossLimit s)) = Slot.Waiting
  ∧ Slot.isSpinning Samples.wheelOpen = false
  ∧ Round.started (snd (Slot.onSpin 5 3 Samples.gid Samples.wheelOpen)) = false.
Proof. repeat split; reflexivity. Qed.

(** C1 (amended), for a state that a render has committed.  In free-spin
    mode a call of [spin] starts a round exactly when the composite busy flag
    is false (and there is a session and the balance check passes).  Outside
    free-spin mode [spin] does not test the composite flag but the
    reel-spinning flag its memoised callback holds, which is false whenever
    the composite flag is: so it starts a round whenever nothing is
    animating.  The [onSpin] callback is [spin] unless the bonus wheel is
    open, when it does nothing.  The keyboard shortcut starts a round exactly
    when the composite busy flag is false (with a session, and the bet, free
    spins or bonus spins to pay for it), in either mode; the autoplay timer
    calls [spin] only then, and autoplay sets its timer only then. *)
Theorem spin_requests_and_busy_flags (numReels numRows : nat) (gameId : string) (s : Slot.St) :
  Assert.memoised s →
  Round.started (snd (Slot.spin numReels numRows gameId s))
  = (if Slot.isFreeSpinsMode s then negb (Slot.isAnimating s)
     else negb (Slot.c_isSpinning (Slot.spinCallback s)))
    && Slot.truthy (Slot.sessionId s)
    && negb ((Slot.balance s <? Slot.totalBet s) && (Slot.freeSpinsRemaining s =? 0)
             && (Slot.actionGameSpins s =? 0))
  ∧ (Slot.isAnimating s = false →
     Slot.c_isSpinning (Slot.spinCallback s) = false
     ∧ Round.started (snd (Slot.spin numReels numRows gameId s))
       = Slot.truthy (Slot.sessionId s)
         && negb ((Slot.balance s <? Slot.totalBet s) && (Slot.freeSpinsRemaining s =? 0)
                  && (Slot.actionGameSpins s =? 0)))
  ∧ Round.started (snd (Slot.onSpin numReels numRows gameId s))
    = negb (Slot.showActionWheel s)
      && Round.started (snd (Slot.spin numReels numRows gameId s))
  ∧ Round.started (snd (Slot.handleKeyDown_S numReels numRows gameId s))
    = negb (Slot.isAnimating s) && Slot.truthy (Slot.sessionId s)
      && ((Slot.totalBet s <=? Slot.balance s) || (0 <? Slot.freeSpinsRemaining s)
          || (0 <? Slot.actionGameSpins s))
  ∧ (∀ c, snd (Slot.autoplayTimer numReels numRows gameId s) = Some c →
     Slot.isAnimating s = false
     ∧ c = snd (Slot.spin numReels numRows gameId s))
  ∧ (∀ delay, snd (Slot.autoplayEffect s) = Slot.Scheduled delay →
     Slot.isAnimating s = false).
Proof.
  intros Hm.
  pose proof (spin_started_memoised numReels numRows gameId s Hm) as Hspin.
  destruct (memoised_closure s Hm) as (_ & _ & _ & _ & _ & _ & _ & _ & Hlag).
  assert (Hidle : Slot.isAnimating s = false →
            Slot.c_isSpinning (Slot.spinCallback s) = false
            ∧ Round.started (snd (Slot.spin numReels numRows gameId s))
              = Slot.truthy (Slot.sessionId s)
                && negb ((Slot.balance s <? Slot.totalBet s)
                         && (Slot.freeSpinsRemaining s =? 0)
                         && (Slot.actionGameSpins s =? 0))).
  { intros Hidle.
    assert (Hc : Slot.c_isSpinning (Slot.spinCallback s) = false).
    { destruct (Slot.c_isSpinning (Slot.spinCallback s)); [|done].
      rewrite Hlag in Hidle; done. }
    split; [done|]. rewrite Hspin, Hidle, Hc. by destruct (Slot.isFreeSpinsMode s). }
  split; [exact Hspin|]. split; [exact Hidle|]. split; [|split; [|split]].
  - unfold Slot.onSpin. by destruct (Slot.showActionWheel s).
  - unfold Slot.handleKeyDown_S.
    destruct (Slot.isAnimating s) eqn:Hanim; simpl.
    { by destruct (Slot.showActionWheel s && (0 <? Slot.actionGameSpins s)). }
    destruct (isAnimating_false s Hanim) as [_ ->]. simpl.
    destruct (Hidle eq_refl) as [_ Hstart]. rewrite andb_true_r.
    destruct (Slot.truthy (Slot.sessionId s)); simpl; [|done].
    destruct (Z.leb_spec (Slot.totalBet s) (Slot.balance s)) as [Hpay|Hpay]; simpl.
    { rewrite Hstart. simpl.
      replace (Slot.balance s <? Slot.totalBet s) with false
        by (symmetry; apply Z.ltb_ge; lia). done. }
    destruct (Z.ltb_spec 0 (Slot.freeSpinsRemaining s)) as [Hfs|Hfs]; simpl.
    { rewrite Hstart. simpl.
      replace (Slot.freeSpinsRemaining s =? 0) with false
        by (symmetry; apply Z.eqb_neq; lia). by rewrite andb_false_r. }
    destruct (Z.ltb_spec 0 (Slot.actionGameSpins s)) as [Hag|Hag]; simpl; [|done].
    rewrite Hstart. simpl.
    replace (Slot.actionGameSpins s =? 0) with false
      by (symmetry; apply Z.eqb_neq; lia). by rewrite andb_false_r.
  - intros c. unfold Slot.autoplayTimer.
    destruct (Slot.isAnimating s); simpl; [discriminate|].
    destruct (Slot.spin numReels numRows gameId s) as [s' c']. simpl.
    intros [= <-]. done.
  - intros delay. unfold Slot.autoplayEffect.
    destruct (Slot.isActive (Slot.autoplayState s)); [|discriminate].
    destruct (Slot.settings (Slot.autoplayState s)); [|discriminate].
    destruct (Slot.spinsRemaining (Slot.autoplayState s) <=? 0); [discriminate|].
    destruct ((Slot.balance s <? Slot.totalBet s) && negb (Slot.isFreeSpinsMode s)
              && (Slot.actionGameSpins s =? 0)); [discriminate|].
    destruct (Slot.isAnimating s); simpl; [discriminate | done].
Qed.

Lemma spin_requests_and_busy_flags_witness :
  Round.started (snd (Slot.spin 5 3 Samples.gid Samples.idle)) = true
  ∧ Slot.winningFeedback Samples.showingWin = Some 50
  ∧ Round.started (snd (Slot.onSpin 5 3 Samples.gid Samples.showingWin)) = true
  ∧ Round.started (snd (Slot.handleKeyDown_S 5 3 Samples.gid Samples.showingWin)) = false.
Proof.
  assert (Hidle : Assert.memoised Samples.idle) by (exists Samples.idle; split; reflexivity).
  assert (Hwin : Assert.memoised Samples.showingWin).
  { exists (Slot.setWinningFeedback (Some 50) Samples.idle). split; reflexivity. }
  destruct (spin_requests_and_busy_flags 5 3 Samples.gid Samples.idle Hidle)
    as (_ & Hquiet & _).
  destruct (spin_requests_and_busy_flags 5 3 Samples.gid Samples.showingWin Hwin)
    as (Hspin & _ & Hclick & Hkey & _).
  split; [|split; [reflexivity|split]].
  - rewrite (proj2 (Hquiet eq_refl)). reflexivity.
  - rewrite Hclick, Hspin. reflexivity.
  - rewrite Hkey. reflexivity.
Defined.

(** The reel-spinning flag of the callback lags behind the reels.  A
    base-game round is answered after 100 ms; its last reel stops at 1100 ms
    and bounces until 1400 ms.  At 1200 ms, the last two reels bouncing, no
    reel is spinning, yet the callback still holds the flag of the render in
    which the reels started, no dependency having changed since, and a click
    on the spin control starts nothing.  At 2000 ms, the win animation
    showing, the callback is the one of a later render (the composite flag
    dropped at 1400 ms and rose again at 1600 ms) and the same click starts a
    second round, while the keyboard shortcut still starts none. *)
Lemma spin_guard_lags_behind_the_reels :
  let bouncing := Samples.play [Loop.KeyS 0; Loop.PlayReplies 100 Samples.coinResponse;
                                Loop.Pass 1200] Samples.idle in
  let showing := Samples.play [Loop.KeyS 0; Loop.PlayReplies 100 Samples.coinResponse;
                               Loop.Pass 2000] Samples.idle in
  (Slot.isFreeSpinsMode (Loop.ui bouncing) = false
   ∧ Slot.isSpinning (Loop.ui bouncing) = false
   ∧ Slot.bouncingReels (Loop.ui bouncing) = [false; false; false; true; true]
   ∧ Slot.c_isSpinning (Slot.spinCallback (Loop.ui bouncing)) = true
   ∧ Slot.onSpin 5 3 Samples.gid (Loop.ui bouncing) = (Loop.ui bouncing, Slot.Fin None)
   ∧ Loop.tied bouncing = false)
  ∧ (Slot.isSpinning (Loop.ui showing) = false
     ∧ Slot.winningFeedback (Loop.ui showing) = Some 50
     ∧ Slot.c_isSpinning (Slot.spinCallback (Loop.ui showing)) = false
     ∧ Round.started (snd (Slot.onSpin 5 3 Samples.gid (Loop.ui showing))) = true
     ∧ Round.started (snd (Slot.handleKeyDown_S 5 3 Samples.gid (Loop.ui showing))) = false
     ∧ Loop.tied showing = false).
Proof. vm_compute. repeat split; reflexivity. Qed.

(** ** C7: insufficient balance *)

(** C7, the claim as stated fails: with a balance below the bet and neither
    free spins nor bonus spins, the keyboard shortcut does nothing at all, so
    no notification is shown; and [spin] itself returns silently when the
    session id is not yet set. *)
Lemma shortcut_ignores_insufficient_balance :
  let s := Samples.broke in
  Slot.balance s < Slot.totalBet s
  ∧ Slot.freeSpinsRemaining s = 0
  ∧ Slot.actionGameSpins s = 0
  ∧ Slot.handleKeyDown_S 5 3 Samples.gid s = (s, Slot.Fin None)
  ∧ Slot.toasts (fst (Slot.handleKeyDown_S 5 3 Samples.gid s)) = []
  ∧ Slot.spin 5 3 Samples.gid (Slot.render (Slot.setSessionId "" s))
    = (Slot.render (Slot.setSessionId "" s), Slot.Fin None).
Proof. repeat split; reflexivity. Qed.

(** C7 (amended), for a state that a render has committed: when the balance
    is below the total bet and neither free spins nor bonus spins are
    available, no way of requesting a spin starts a round or sends a request;
    a call of [spin] that gets past its busy guard and its session check, as
    every call does that is made with a session while nothing is animating,
    shows the insufficient-balance notification; the keyboard shortcut leaves
    the state untouched; and a running autoplay stops with its own
    notification.  When free spins or bonus spins are available the balance
    plays no part in whether [spin] starts a round. *)
Theorem insufficient_balance_is_caught_before_any_request
    (numReels numRows : nat) (gameId : string) (s : Slot.St) :
  Assert.memoised s →
  (Assert.lowBalance s →
   (snd (Slot.spin numReels numRows gameId s) = Slot.Fin None
    ∧ Slot.requests (fst (Slot.spin numReels numRows gameId s)) = Slot.requests s)
   ∧ (snd (Slot.onSpin numReels numRows gameId s) = Slot.Fin None
      ∧ Slot.requests (fst (Slot.onSpin numReels numRows gameId s)) = Slot.requests s)
   ∧ Slot.handleKeyDown_S numReels numRows gameId s = (s, Slot.Fin None)
   ∧ (∀ c, snd (Slot.autoplayTimer numReels numRows gameId s) = Some c →
      c = Slot.Fin None
      ∧ Slot.requests (fst (Slot.autoplayTimer numReels numRows gameId s))
        = Slot.requests s)
   ∧ (Slot.c_isSpinning (Slot.spinCallback s) = false →
      Slot.truthy (Slot.sessionId s) = true →
      fst (Slot.spin numReels numRows gameId s) = Slot.toast Slot.InsufficientBalance s)
   ∧ (Slot.isAnimating s = false → Slot.truthy (Slot.sessionId s) = true →
      fst (Slot.spin numReels numRows gameId s) = Slot.toast Slot.InsufficientBalance s)
   ∧ (Slot.isActive (Slot.autoplayState s) = true →
      Slot.settings (Slot.autoplayState s) ≠ None →
      0 < Slot.spinsRemaining (Slot.autoplayState s) →
      Slot.autoplayEffect s
      = (Slot.toast Slot.AutoplayInsufficientBalance (Slot.stopAutoplay s),
         Slot.StoppedInsufficient)))
  ∧ (0 < Slot.freeSpinsRemaining s ∨ 0 < Slot.actionGameSpins s →
     Round.started (snd (Slot.spin numReels numRows gameId s))
     = (if Slot.isFreeSpinsMode s then negb (Slot.isAnimating s)
        else negb (Slot.c_isSpinning (Slot.spinCallback s)))
       && Slot.truthy (Slot.sessionId s)).
Proof.
  intros Hm.
  pose proof (spin_started_memoised numReels numRows gameId s Hm) as Hspin.
  split.
  - intros (Hbal & Hfs & Hag).
    assert (Hstart : Round.started (snd (Slot.spin numReels numRows gameId s)) = false).
    { rewrite Hspin, Hfs, Hag.
      replace (Slot.balance s <? Slot.totalBet s) with true by (symmetry; by apply Z.ltb_lt).
      simpl. by rewrite andb_false_r. }
    pose proof (spin_not_started numReels numRows gameId s Hstart) as [Hfin Hreq].
    assert (Hfree : Slot.isFreeSpinsMode s = false)
      by (unfold Slot.isFreeSpinsMode; by rewrite Hfs).
    assert (Htoast : Slot.c_isSpinning (Slot.spinCallback s) = false →
              Slot.truthy (Slot.sessionId s) = true →
              fst (Slot.spin numReels numRows gameId s)
              = Slot.toast Slot.InsufficientBalance s).
    { intros Hspinning Hsess. unfold Slot.spin. cbv zeta.
      destruct (memoised_closure s Hm) as (_ & -> & -> & -> & -> & -> & _ & -> & _).
      rewrite Hfree, Hspinning, Hsess, Hfs, Hag. simpl.
      replace (Slot.balance s <? Slot.totalBet s) with true by (symmetry; by apply Z.ltb_lt).
      reflexivity. }
    split; [done|]. split; [|split; [|split; [|split; [|split]]]].
    + unfold Slot.onSpin. by destruct (Slot.showActionWheel s).
    + unfold Slot.handleKeyDown_S. rewrite Hfs, Hag.
      replace (Slot.totalBet s <=? Slot.balance s) with false
        by (symmetry; apply Z.leb_gt; lia).
      simpl. rewrite andb_false_r. by repeat case_match.
    + intros c. unfold Slot.autoplayTimer.
      destruct (negb (Slot.isAnimating s)); [|discriminate].
      destruct (Slot.spin numReels numRows gameId s) as [s' c'] eqn:E. simpl in *.
      intros [= <-]. done.
    + exact Htoast.
    + intros Hidle. apply Htoast.
      destruct (memoised_closure s Hm) as (_ & _ & _ & _ & _ & _ & _ & _ & Hlag).
      destruct (Slot.c_isSpinning (Slot.spinCallback s)); [|done].
      rewrite Hlag in Hidle; done.
    + intros Hact Hset Hrem. unfold Slot.autoplayEffect. rewrite Hact.
      destruct (Slot.settings (Slot.autoplayState s)); [|done].
      replace (Slot.spinsRemaining (Slot.autoplayState s) <=? 0) with false
        by (symmetry; apply Z.leb_gt; lia).
      rewrite Hfree, Hag.
      replace (Slot.balance s <? Slot.totalBet s) with true by (symmetry; by apply Z.ltb_lt).
      reflexivity.
  - intros Havail. rewrite Hspin.
    replace ((Slot.balance s <? Slot.totalBet s) && (Slot.freeSpinsRemaining s =? 0)
             && (Slot.actionGameSpins s =? 0)) with false; [by rewrite andb_true_r|].
    symmetry. destruct Havail as [H|H].
    + replace (Slot.freeSpinsRemaining s =? 0) with false by (symmetry; apply Z.eqb_neq; lia).
      by rewrite andb_false_r.
    + replace (Slot.actionGameSpins s =? 0) with false by (symmetry; apply Z.eqb_neq; lia).
      by rewrite andb_false_r.
Qed.

Lemma insufficient_balance_is_caught_before_any_request_witness :
  Slot.spin 5 3 Samples.gid Samples.broke
  = (Slot.toast Slot.InsufficientBalance Samples.broke, Slot.Fin None)
  ∧ Slot.requests (fst (Slot.spin 5 3 Samples.gid Samples.broke)) = [].
Proof.
  assert (Hm : Assert.memoised Samples.broke).
  { exists (Slot.setBalance 5 Samples.idle). split; reflexivity. }
  assert (Hlow : Assert.lowBalance Samples.broke) by (repeat split; reflexivity).
  destruct (proj1 (insufficient_balance_is_caught_before_any_request 5 3 Samples.gid
                     Samples.broke Hm) Hlow)
    as ((Hfin & Hreq) & _ & _ & _ & _ & Htoast & _).
  split; [|exact Hreq].
  rewrite (surjective_pairing (Slot.spin 5 3 Samples.gid Samples.broke)).
  rewrite Hfin, Htoast; reflexivity.
Defined.

(** ** C4: balance, free spins, feature symbol and last win *)

(** C4: whatever else happens while a spin round is in flight, when the round
    runs to its end and resolves with a result, the balance, the free spins
    remaining, the feature symbol and the last win are the values of the
    play response, and the result is the response's. *)
Theorem completed_round_takes_player_fields_from_response
    (numReels numRows : nat) (gameId : string) (s0 sf : Slot.St)
    (response : Slot.PlayResponse) (elapsed : Z) (res : Slot.SpinResult) :
  Round.runs Round.anything (Slot.Replied response elapsed)
    (Slot.spin numReels numRows gameId) s0 sf (Some res) →
  Slot.balance sf = Slot.p_balance response
  ∧ Slot.freeSpinsRemaining sf = Slot.p_freeSpinsRemaining response
  ∧ Slot.featureSymbol sf = Slot.p_featureSymbol response
  ∧ Slot.lastWin sf = Slot.p_lastWin response
  ∧ res = Slot.p_results response.
Proof.
  intros Hrun.
  destruct (safe_spin numReels numRows gameId response elapsed s0 I sf (Some res) Hrun res
              eq_refl) as [(Hb & Hf & Hs & Hl) Hres].
  done.
Qed.

Lemma completed_round_takes_player_fields_from_response_witness :
  let round := Slot.spin 5 3 Samples.gid Samples.idle in
  let sf := fst (Round.drive (Slot.Replied Samples.coinResponse 100) (snd round) (fst round)) in
  Slot.balance sf = 1040
  ∧ Slot.freeSpinsRemaining sf = 0
  ∧ Slot.featureSymbol sf = ""
  ∧ Slot.lastWin sf = 50
  ∧ Samples.coinResult = Slot.p_results Samples.coinResponse.
Proof.
  cbv zeta.
  apply (completed_round_takes_player_fields_from_response 5 3 Samples.gid Samples.idle _
           Samples.coinResponse 100 Samples.coinResult).
  exact (drive_runs Round.anything (Slot.Replied Samples.coinResponse 100)
           (Slot.spin 5 3 Samples.gid) Samples.idle (fun _ => I)).
Defined.

(** ** C3: expanded reels and feature-game lines *)

Lemma expansionThreshold_premium (fs : string) :
  Slot.expansionThreshold fs
  = if bool_decide (fs ∈ ["Queen"; "Stone"; "Leopard"; "Wolf"]) then 2%nat else 3%nat.
Proof.
  unfold Slot.expansionThreshold, Slot.premium.
  repeat case_bool_decide; subst; simpl; try reflexivity;
    try (exfalso; match goal with H : _ ∉ _ |- _ => apply H end;
         repeat (first [apply list_elem_of_here | apply list_elem_of_further])).
  exfalso. repeat match goal with
  | H : _ ∈ _ :: _ |- _ => apply elem_of_cons in H as [H|H]; [congruence|]
  | H : _ ∈ [] |- _ => by apply elem_of_nil in H
  end.
Qed.

(** X25.  In free-spin mode, when the response names the feature symbol and
    its expanded symbols lie on at least as many distinct reels as the
    threshold of that symbol (2 for Queen, Stone, Leopard and Wolf, 3
    otherwise), a round that runs to its end while nothing else writes the
    grid or the winning lines leaves the feature symbol on every row of each
    such reel on screen, and the winning lines it leaves are the response's
    feature-game lines on active paylines. *)
Theorem expansion_fills_reels_and_shows_feature_lines
    (numReels numRows : nat) (gameId : string) (s0 sf : Slot.St)
    (response : Slot.PlayResponse) (elapsed : Z) (res : Slot.SpinResult)
    (distinct : list nat) :
  let fs := Slot.top_featureSymbol response in
  let expandedCells := Slot.expandedSymbols (Slot.p_results response) in
  let lines :=
    List.filter Slot.active (Slot.r_featureGameWinningLines (Slot.p_results response)) in
  Assert.memoised s0 →
  Slot.isFreeSpinsMode s0 = true →
  fs ≠ "" →
  NoDup distinct →
  (∀ reel, reel ∈ distinct → ∃ row, (reel, row) ∈ expandedCells) →
  ((if bool_decide (fs ∈ ["Queen"; "Stone"; "Leopard"; "Wolf"]) then 2 else 3)
   ≤ length distinct)%nat →
  Round.runs Round.keeps_display (Slot.Replied response elapsed)
    (Slot.spin numReels numRows gameId) s0 sf (Some res) →
  (∀ reel row, (reel, row) ∈ expandedCells → (reel < numReels)%nat →
     Slot.grid sf !! reel = Some (replicate numRows fs))
  ∧ Slot.winningLines sf = lines.
Proof.
  intros fs expandedCells lines Hm Hfree Hfs Hnd Hsub Hthr Hrun.
  assert (Htruthy : Slot.truthy fs = true) by (by apply bool_decide_eq_true_2).
  assert (Hcount : (Slot.expansionThreshold fs
                    ≤ length (Assert.expandedReels response))%nat).
  { unfold Assert.expandedReels. rewrite expansionThreshold_premium. etrans; [exact Hthr|].
    apply uniq_counts_distinct; [done|]. intros reel Hin.
    destruct (Hsub reel Hin) as [row Hcell].
    apply list_elem_of_fmap. by exists (reel, row). }
  assert (Hclosure : Slot.c_isFreeSpinsMode (Slot.spinCallback s0) = true).
  { destruct (memoised_closure s0 Hm) as (_ & _ & _ & _ & _ & _ & _ & -> & _). exact Hfree. }
  destruct (shown_spin numReels numRows gameId response elapsed Htruthy Hcount s0 Hclosure
              sf (Some res) Hrun) as [[_ Hgrid] Hlines]; [done|].
  split; [|exact Hlines].
  intros reel row Hcell Hlt. apply Hgrid; [|done].
  apply uniq_elem. split; [|by intros ?%elem_of_nil].
  apply list_elem_of_fmap. by exists (reel, row).
Qed.

Lemma expansion_fills_reels_and_shows_feature_lines_witness :
  let round := Slot.spin 5 3 Samples.gid Samples.freeSpinning in
  let sf := fst (Round.drive (Slot.Replied Samples.queenResponse 100) (snd round) (fst round)) in
  Slot.grid sf !! 1%nat = Some ["Queen"; "Queen"; "Queen"]
  ∧ Slot.grid sf !! 3%nat = Some ["Queen"; "Queen"; "Queen"]
  ∧ Slot.winningLines sf = [Samples.queenLine].
Proof.
  cbv zeta.
  assert (Hm : Assert.memoised Samples.freeSpinning).
  { exists (Slot.setFeatureSymbol "Queen" (Slot.setFreeSpinsRemaining 5 Samples.idle)).
    split; reflexivity. }
  assert (Hnd : NoDup [1%nat; 3%nat]).
  { apply NoDup_cons. split; [|apply NoDup_singleton].
    intros H. apply list_elem_of_singleton in H. discriminate H. }
  assert (Hsub : ∀ reel, reel ∈ [1%nat; 3%nat] →
            ∃ row, (reel, row) ∈ Slot.expandedSymbols (Slot.p_results Samples.queenResponse)).
  { intros reel Hin. apply elem_of_cons in Hin as [->|Hin].
    - exists 2%nat. apply list_elem_of_here.
    - apply list_elem_of_singleton in Hin as ->. exists 0%nat.
      apply list_elem_of_further, list_elem_of_here. }
  destruct (expansion_fills_reels_and_shows_feature_lines 5 3 Samples.gid
              Samples.freeSpinning _ Samples.queenResponse 100 Samples.queenResult
              [1%nat; 3%nat] Hm eq_refl ltac:(discriminate) Hnd Hsub ltac:(simpl; lia)
              (drive_runs Round.keeps_display (Slot.Replied Samples.queenResponse 100)
                 (Slot.spin 5 3 Samples.gid) Samples.freeSpinning
                 (fun _ => conj eq_refl eq_refl)))
    as (Hgrid & Hlines).
  split; [|split].
  - apply (Hgrid 1%nat 2%nat); [apply list_elem_of_here | lia].
  - apply (Hgrid 3%nat 0%nat); [apply list_elem_of_further, list_elem_of_here | lia].
  - exact Hlines.
Defined.

(** The detached tasks of a round, the staggered reel start and the bounce
    reset, leave the grid and the winning lines alone. *)
Lemma detached_tasks_keep_display (c : Slot.Closure) (i todo : nat) (s : Slot.St) :
  Round.keeps_display s (fst (Slot.startReelsSequentially c i todo s))
  ∧ Round.keeps_display s (Slot.updBouncingReels (js_set false i false) s).
Proof.
  split; [|split; reflexivity].
  destruct todo; simpl; [split; reflexivity|].
  unfold Slot.if_cancelled. destruct (Slot.spinCancelledRef s); split; reflexivity.
Qed.

(** The same free-spin round replayed on the event loop, with its detached
    timers interleaved: the expanded reels, the winning lines and the player
    fields are those of the general statements. *)
Lemma free_spin_round_on_the_loop :
  let w := Samples.play Samples.quietFreeSpin Samples.freeSpinning in
  Loop.resolved w = [Some Samples.queenResult]
  ∧ Loop.pool w = []
  ∧ Slot.grid (Loop.ui w)
    = [["A"; "Coin"; "K"]; ["Queen"; "Queen"; "Queen"]; ["K"; "Coin"; "A"];
       ["Queen"; "Queen"; "Queen"]; ["A"; "K"; "Q"]]
  ∧ Slot.winningLines (Loop.ui w) = [Samples.queenLine]
  ∧ Slot.getWinningLineIndices "Scatter" (Loop.ui w) 1 0 = [2]
  ∧ Slot.balance (Loop.ui w) = 1250
  ∧ Slot.freeSpinsRemaining (Loop.ui w) = 4
  ∧ Slot.featureSymbol (Loop.ui w) = "Queen"
  ∧ Slot.lastWin (Loop.ui w) = 250
  ∧ Slot.isSpinning (Loop.ui w) = false.
Proof. vm_compute. repeat split; reflexivity. Qed.

(** C3, the code at the failing schedule.  In free-spin mode with the
    feature symbol Queen a round is answered after 100 ms with Queen on reels
    1 and 3, which is the threshold for Queen.  Its reels have stopped and
    bounced by 1400 ms and it waits until 1600 ms; at 1450 ms, no animation
    being left, the player presses the spin key.  The second spin raises the
    cancellation flag and lowers it again, so the first round is not
    cancelled: it expands reels 1 and 3 (by 4050 ms both show Queen on every
    row).  The answer to the second request comes at 4100 ms and the reels of
    the second round stop one by one, each writing its column of the new
    grid over what is on screen.  The first round goes on, shows its
    feature-game line at 5000 ms and resolves with its results at 7000 ms:
    then reels 1 and 3 show the symbols of the second response, and no cell
    of them carries a border of the feature-game line. *)
Theorem overlapped_round_settles_without_its_expansion :
  let expanding :=
    Samples.play [Loop.KeyS 0; Loop.PlayReplies 100 Samples.queenResponse; Loop.KeyS 1450;
                  Loop.Pass 4050] Samples.freeSpinning in
  let w := Samples.play (Samples.overlappingFreeSpins 7500) Samples.freeSpinning in
  Slot.isFreeSpinsMode Samples.freeSpinning = true
  ∧ Slot.top_featureSymbol Samples.queenResponse = "Queen"
  ∧ Slot.expandedSymbols (Slot.p_results Samples.queenResponse)
    = [(1, 2); (3, 0); (1, 0)]%nat
  ∧ Slot.expansionThreshold "Queen" = 2%nat
  ∧ length (Slot.requests (Loop.ui expanding)) = 2%nat
  ∧ Slot.grid (Loop.ui expanding) !! 1%nat = Some ["Queen"; "Queen"; "Queen"]
  ∧ Slot.grid (Loop.ui expanding) !! 3%nat = Some ["Queen"; "Queen"; "Queen"]
  ∧ Loop.resolved w = [Some Samples.losingResult; Some Samples.queenResult]
  ∧ Loop.pool w = []
  ∧ Loop.tied w = false
  ∧ Slot.grid (Loop.ui w) !! 1%nat = Some ["J"; "A"; "K"]
  ∧ Slot.grid (Loop.ui w) !! 3%nat = Some ["K"; "Q"; "J"]
  ∧ Slot.winningLines (Loop.ui w) = [Samples.queenLine]
  ∧ (∀ row, (row < 3)%nat →
       Slot.getWinningLineIndices "Scatter" (Loop.ui w) 1 row = []
       ∧ Slot.getWinningLineIndices "Scatter" (Loop.ui w) 3 row = []).
Proof.
  cbv zeta. repeat apply conj; try (vm_compute; reflexivity).
  intros row Hrow.
  destruct row as [|[|[|row]]]; [split; vm_compute; reflexivity .. | lia].
Qed.

(** ** C8: the accumulated bonus-wheel win *)

(** C8, the code at the failing input.  Fifty units of bonus-wheel winnings
    are accumulated.  A base-game round is played whose response triggers no
    action game and carries no [accumulatedActionGameWin], a field the API
    declares optional.  The closing segment of the round reads the absent
    field as 0 and hands it to [handleActionWheelStateChange]: when the round
    has resolved the accumulated win is 0.  The other operations the claim
    names behave as it says: completing the wheel leaves the accumulated win
    as it is, and a wheel spin sets it to the [accumulatedWin] of the
    server's answer. *)
Theorem reel_round_resets_accumulated_win :
  let w := Samples.play Samples.quietRound Samples.banked in
  Slot.accumulatedActionWin Samples.banked = 50
  ∧ Slot.p_accumulatedActionGameWin Samples.coinResponse = None
  ∧ Slot.actionGameTriggered (Slot.p_results Samples.coinResponse) = false
  ∧ Loop.resolved w = [Some Samples.coinResult]
  ∧ Loop.pool w = []
  ∧ Loop.tied w = false
  ∧ Slot.accumulatedActionWin (Loop.ui w) = 0
  ∧ (∀ s, Slot.accumulatedActionWin (Slot.handleActionWheelComplete s)
          = Slot.accumulatedActionWin s)
  ∧ (∀ answer s, Slot.accumulatedActionWin (Slot.handleActionWheelSpin answer s)
                 = Slot.w_accumulatedWin answer).
Proof.
  cbv zeta. repeat apply conj; try (vm_compute; reflexivity).
  intros answer s. unfold Slot.handleActionWheelSpin.
  by destruct (0 <? Slot.w_remainingSpins answer).
Qed.

(** ** C2: superseding a round *)

(** X20.  A spin that passes its guards raises the cancellation flag and
    clears the transient display state (last win, winning lines, feature
    display, reels to expand, win animation, and the expanding, bouncing and
    spinning flags of every reel) before anything is sent. *)
Lemma spin_resets_before_request (numReels numRows : nat) (gameId : string) (s : Slot.St) :
  Round.started (snd (Slot.spin numReels numRows gameId s)) = true →
  let s' := fst (Slot.spin numReels numRows gameId s) in
  Slot.spinCancelledRef s' = true
  ∧ Slot.requests s' = Slot.requests s
  ∧ Slot.lastWin s' = 0
  ∧ Slot.winningLines s' = []
  ∧ Slot.baseGameWinningLines s' = []
  ∧ Slot.featureGameWinningLines s' = []
  ∧ Slot.showFeatureGameWins s' = false
  ∧ Slot.reelsToExpand s' = []
  ∧ Slot.winningFeedback s' = None
  ∧ Slot.expandingReels s' = replicate numReels false
  ∧ Slot.bouncingReels s' = replicate numReels false
  ∧ Slot.spinningReels s' = replicate numReels false.
Proof.
  unfold Slot.spin. cbv zeta.
  repeat match goal with
  | |- context [if ?b then _ else _] => destruct b; [simpl; discriminate|]
  end.
  intros _. repeat split; reflexivity.
Qed.

(** C2, the code at the failing schedule.  A base-game round has stopped its
    reels and waits 500 ms before showing its wins; the player presses the
    spin key again at 1450 ms, when no animation is left.  The second spin
    raises the flag, lowers it again when its 0 ms timer fires, and sends its
    own request.  At 1600 ms the first round resumes, reads the flag as not
    set, and shows its winning line, its win animation and its last win while
    the reels of the second round spin and its request is pending.  Besides,
    the continuation of the network await stores the reels to expand before it
    looks at the flag, and the continuation of the grid-update wait of the
    reel-stop loop, resumed with the flag set, starts the bounce and stops the
    reel without looking at it. *)
Theorem superseded_round_shows_its_results :
  let w := Samples.play Samples.supersedingSpin Samples.idle in
  let cancelled := Slot.setSpinCancelledRef true Samples.freeSpinning in
  let stopping := Samples.stoppingFirstReel in
  let afterGridWait :=
    Round.resumeTimer (snd stopping) (Slot.setSpinCancelledRef true (fst stopping)) in
  length (Slot.requests (Loop.ui w)) = 2%nat
  ∧ map Loop.is_request (Loop.pool w) = [true]
  ∧ Slot.spinningReels (Loop.ui w) = [true; true; true; true; true]
  ∧ Slot.spinCancelledRef (Loop.ui w) = false
  ∧ Loop.resolved w = [Some Samples.coinResult]
  ∧ Slot.winningLines (Loop.ui w) = [Samples.coinLine]
  ∧ Slot.winningFeedback (Loop.ui w) = Some 50
  ∧ Slot.lastWin (Loop.ui w) = 50
  ∧ Slot.reelsToExpand cancelled = []
  ∧ Slot.afterResponse 5 3 (Slot.capture Samples.freeSpinning) Samples.queenResponse 100
      cancelled
    = (Slot.setReelsToExpand [1%nat; 3%nat] cancelled, Slot.Fin None)
  ∧ Slot.bouncingReels (fst stopping) = [false; false; false; false; false]
  ∧ Slot.spinningReels (fst stopping) = [true; true; true; true; true]
  ∧ Slot.bouncingReels (fst afterGridWait) = [true; false; false; false; false]
  ∧ Slot.spinningReels (fst afterGridWait) = [false; true; true; true; true].
Proof. vm_compute. repeat split; reflexivity. Qed.

(** ** C6: a rejected request *)

(** When the request fails after all reels have started, the round ends with
    every reel stopped, one notification, one request and nothing pending. *)
Lemma late_failure_stops_all_reels :
  let w := Samples.play Samples.slowFailure Samples.idle in
  Slot.spinningReels (Loop.ui w) = [false; false; false; false; false]
  ∧ Slot.toasts (Loop.ui w) = [Slot.ConnectionError "Failed to fetch"]
  ∧ length (Slot.requests (Loop.ui w)) = 1%nat
  ∧ Loop.pool w = []
  ∧ Loop.resolved w = [None].
Proof. vm_compute. repeat split; reflexivity. Qed.

(** C6, the code at the failing schedule.  The request fails 5 ms after it
    was sent.  The [catch] block shows the notification and stops all reels,
    and no second request is sent; but the detached loop that starts the
    reels 10 ms apart goes on and sets reels 1 to 4 spinning.  Nothing is
    pending any more, the reels spin for good, and neither the spin control
    nor the keyboard shortcut can start a round. *)
Theorem early_failure_leaves_reels_spinning :
  let w := Samples.play Samples.fastFailure Samples.idle in
  Slot.toasts (Loop.ui w) = [Slot.ConnectionError "Failed to fetch"]
  ∧ length (Slot.requests (Loop.ui w)) = 1%nat
  ∧ Loop.resolved w = [None]
  ∧ Loop.pool w = []
  ∧ Slot.spinningReels (Loop.ui w) = [false; true; true; true; true]
  ∧ Slot.isSpinning (Loop.ui w) = true
  ∧ Round.started (snd (Slot.onSpin 5 3 Samples.gid (Loop.ui w))) = false
  ∧ Round.started (snd (Slot.handleKeyDown_S 5 3 Samples.gid (Loop.ui w))) = false.
Proof. vm_compute. repeat split; reflexivity. Qed.

(** ** C5: when autoplay stops *)

(** X21.  With the amounts taken as whole numbers, the stop check of a
    render answers yes exactly when autoplay is active with settings and one
    of these holds: any win with stop-on-any-win set, a win above the
    single-win limit, triggered free spins with stop-on-feature set, or a
    loss above the loss limit, the loss being the balance at which autoplay
    started less the balance of that render. *)
Lemma checkAutoplayStopConditions_true (a : Slot.AutoplayState) (bal : Z)
    (r : Slot.SpinResult) :
  Slot.checkAutoplayStopConditions a bal r = true ↔
  Slot.isActive a = true
  ∧ ∃ cfg, Slot.settings a = Some cfg
    ∧ ((Slot.stopOnAnyWin cfg = true ∧ 0 < Slot.totalWin r)
       ∨ Slot.stopOnSingleWinExceeds cfg < Slot.totalWin r
       ∨ (Slot.stopOnFeature cfg = true ∧ Slot.triggeredFreeSpins r = true)
       ∨ Slot.stopOnTotalLossExceeds cfg < Slot.originalBalance a - bal).
Proof.
  unfold Slot.checkAutoplayStopConditions.
  destruct (Slot.isActive a); [|split; [discriminate | intros [H _]; discriminate H]].
  destruct (Slot.settings a) as [cfg|];
    [|split; [discriminate | intros (_ & cfg & H & _); discriminate H]].
  cbv zeta.
  destruct (Slot.stopOnAnyWin cfg) eqn:E1, (Z.ltb_spec 0 (Slot.totalWin r)) as [L1|L1];
    simpl;
    try (split; [intros _; split; [done|]; exists cfg; split; [done|]; by left | done]);
    (destruct (Z.ltb_spec (Slot.stopOnSingleWinExceeds cfg) (Slot.totalWin r)) as [L2|L2];
     [split; [intros _; split; [done|]; exists cfg; split; [done|]; right; by left | done]|];
     destruct (Slot.stopOnFeature cfg) eqn:E3, (Slot.triggeredFreeSpins r) eqn:E4; simpl;
     try (split; [intros _; split; [done|]; exists cfg; split; [done|];
                  right; right; by left | done]);
     (destruct (Z.ltb_spec (Slot.stopOnTotalLossExceeds cfg) (Slot.originalBalance a - bal))
        as [L5|L5];
      [split; [intros _; split; [done|]; exists cfg; split; [done|];
               right; right; by right | done]|];
      split; [discriminate|];
      intros (_ & cfg' & [= <-] & [[? ?] | [? | [[? ?] | ?]]]);
        first [congruence | lia])).
Qed.

(** X22.  The autoplay effect of an active autoplay stops it exactly when
    the counter is used up or, with spins left, the balance cannot pay the
    bet outside free spins with no bonus spins on hand; in no other case does
    the effect deactivate autoplay. *)
Lemma autoplayEffect_stops (s : Slot.St) :
  Slot.isActive (Slot.autoplayState s) = true →
  Slot.settings (Slot.autoplayState s) ≠ None →
  (snd (Slot.autoplayEffect s) = Slot.StoppedAtZero ↔
   Slot.spinsRemaining (Slot.autoplayState s) ≤ 0)
  ∧ (snd (Slot.autoplayEffect s) = Slot.StoppedInsufficient ↔
     0 < Slot.spinsRemaining (Slot.autoplayState s)
     ∧ Slot.balance s < Slot.totalBet s
     ∧ Slot.isFreeSpinsMode s = false
     ∧ Slot.actionGameSpins s = 0)
  ∧ (Slot.isActive (Slot.autoplayState (fst (Slot.autoplayEffect s))) = false ↔
     snd (Slot.autoplayEffect s) = Slot.StoppedAtZero
     ∨ snd (Slot.autoplayEffect s) = Slot.StoppedInsufficient).
Proof.
  intros Hact Hset. unfold Slot.autoplayEffect. rewrite Hact.
  destruct (Slot.settings (Slot.autoplayState s)); [|done].
  destruct (Z.leb_spec (Slot.spinsRemaining (Slot.autoplayState s)) 0) as [L|L]; simpl.
  { split; [split; [intros _; exact L | reflexivity]|].
    split; [split; [discriminate | intros [? _]; lia]|].
    split; [intros _; by left | reflexivity]. }
  destruct ((Slot.balance s <? Slot.totalBet s) && negb (Slot.isFreeSpinsMode s)
            && (Slot.actionGameSpins s =? 0)) eqn:E; simpl.
  { apply andb_true_iff in E as [E Hag]. apply andb_true_iff in E as [Hbal Hfree].
    apply Z.ltb_lt in Hbal. apply Z.eqb_eq in Hag. apply negb_true_iff in Hfree.
    split; [split; [discriminate | lia]|].
    split; [split; [done | reflexivity]|].
    split; [intros _; by right | reflexivity]. }
  assert (Hno : ¬ (0 < Slot.spinsRemaining (Slot.autoplayState s)
                   ∧ Slot.balance s < Slot.totalBet s
                   ∧ Slot.isFreeSpinsMode s = false
                   ∧ Slot.actionGameSpins s = 0)).
  { intros (_ & Hbal & Hfree & Hag). rewrite Hfree, Hag in E.
    apply Z.ltb_lt in Hbal. rewrite Hbal in E. discriminate E. }
  destruct (negb (Slot.isAnimating s) && _); simpl;
    (split; [split; [discriminate | lia]|]);
    (split; [split; [discriminate | intros H; by destruct (Hno H)]|]);
    (split; [rewrite Hact; discriminate | intros [H|H]; discriminate H]).
Qed.

(** C5, the code at the failing schedule.  Autoplay runs with a loss limit of
    5 from a balance of 1000.  The first round loses the bet and the server
    reports a balance of 990, so the loss since autoplay started is 10.  The
    callback that decides whether to stop belongs to the render that set the
    timer, where the balance was still 1000: it finds no loss, autoplay stays
    active with 9 spins left, and the effect sets the timer for the next
    spin. *)
Theorem loss_limit_is_checked_one_round_late :
  let w := Samples.play Samples.losingAutoplayRound Samples.autoplaying in
  let a := Slot.autoplayState (Loop.ui w) in
  Loop.resolved w = [Some Samples.losingResult]
  ∧ Slot.balance (Loop.ui w) = 990
  ∧ Slot.originalBalance a = 1000
  ∧ (Slot.settings a = Some Samples.lossLimit
     ∧ Slot.stopOnTotalLossExceeds Samples.lossLimit = 5)
  ∧ Slot.checkAutoplayStopConditions a (Slot.balance (Loop.ui w)) Samples.losingResult = true
  ∧ Slot.isActive a = true
  ∧ Slot.spinsRemaining a = 9
  ∧ snd (Slot.autoplayEffect (Loop.ui w)) = Slot.Scheduled 1000.
Proof. vm_compute. repeat split; reflexivity. Qed.

(** ** The sample schedules *)

(** No event of the sample schedules falls on the millisecond at which a
    timer expires, so the order in which the loop takes an event and a timer
    of one instant plays no part in them. *)
Lemma sample_schedules_are_tie_free :
  Loop.tied (Samples.play Samples.quietRound Samples.idle) = false
  ∧ Loop.tied (Samples.play Samples.supersedingSpin Samples.idle) = false
  ∧ Loop.tied (Samples.play Samples.quietFreeSpin Samples.freeSpinning) = false
  ∧ Loop.tied (Samples.play Samples.fastFailure Samples.idle) = false
  ∧ Loop.tied (Samples.play Samples.slowFailure Samples.idle) = false
  ∧ Loop.tied (Samples.play Samples.losingAutoplayRound Samples.autoplaying) = false
  ∧ Loop.tied (Samples.play Samples.quietRound Samples.banked) = false
  ∧ Loop.tied (Samples.play (Samples.overlappingFreeSpins 7500) Samples.freeSpinning)
    = false.
Proof. vm_compute. repeat split; reflexivity. Qed.

(** The "S" key pressed twice in one instant: the second press is handled
    before the 0 ms timer of the first, finds nothing animating, and starts a
    round of its own; both rounds send their request. *)
Lemma key_pressed_twice_in_one_instant :
  let w := Samples.play [Loop.KeyS 0; Loop.KeyS 0; Loop.Pass 50] Samples.idle in
  length (Slot.requests (Loop.ui w)) = 2%nat
  ∧ map Loop.is_request (Loop.pool w) = [true; true]
  ∧ Loop.tied w = true.
Proof. vm_compute. repeat split; reflexivity. Qed.


(** * Further properties of the code *)

(** ** The bet menu *)

Lemma indexOf_NoDup (a : list Z) (x : Z) (n : nat) :
  NoDup a → a !! n = Some x → indexOf a x = Z.of_nat n.
Proof.
  intros Hnd Hn.
  assert (Hin : x ∈ a) by (by eapply list_elem_of_lookup_2).
  destruct (indexOf_from_present a x 0 Hin) as (m & Hi & Hm & _).
  unfold indexOf. rewrite Hi.
  assert (m = n) by (eapply NoDup_lookup; eauto). lia.
Qed.

Lemma js_get_nat {A : Type} (a : list A) (n : nat) : js_get a (Z.of_nat n) = a !! n.
Proof.
  unfold js_get. destruct (Z.ltb_spec (Z.of_nat n) 0); [lia|]. by rewrite Nat2Z.id.
Qed.

Lemma indexOf_range (a : list Z) (x : Z) :
  indexOf a x = -1 ∨ ∃ n : nat, indexOf a x = Z.of_nat n ∧ a !! n = Some x.
Proof.
  destruct (decide (x ∈ a)) as [Hin|Hout].
  - right. destruct (indexOf_from_present a x 0 Hin) as (n & Hi & Hn & _).
    exists n. split; [unfold indexOf; lia | done].
  - left. by apply indexOf_from_absent.
Qed.

(** X1.  Whatever the current bet is, both bet handlers set the bet to an
    entry of the configured menu, as soon as the menu is not empty. *)
Theorem bet_handlers_choose_menu_entries (doc : GameConfig.FrontendGameConfig)
    (menu : list Z) (bet : Z) :
  GameConfig.betAmounts doc = Some menu →
  menu ≠ [] →
  (∃ v, Bet.handleIncreaseBet (Some doc) bet = Bet.SetBetAmount (Some v) ∧ v ∈ menu)
  ∧ (∃ v, Bet.handleDecreaseBet (Some doc) bet = Bet.SetBetAmount (Some v) ∧ v ∈ menu).
Proof.
  intros Hmenu Hne.
  assert (Hlen : (0 < length menu)%nat) by (destruct menu; [done | simpl; lia]).
  assert (Hget : ∀ i : Z, 0 ≤ i < Z.of_nat (length menu) →
                          ∃ v, Bet.SetBetAmount (js_get menu i) = Bet.SetBetAmount (Some v)
                               ∧ v ∈ menu).
  { intros i Hi. replace i with (Z.of_nat (Z.to_nat i)) by lia. rewrite js_get_nat.
    destruct (lookup_lt_is_Some_2 menu (Z.to_nat i)) as [v Hv]; [lia|].
    exists v. split; [by rewrite Hv|]. by eapply list_elem_of_lookup_2. }
  unfold Bet.handleIncreaseBet, Bet.handleDecreaseBet. rewrite Hmenu. cbv zeta.
  destruct (indexOf_range menu bet) as [-> | (n & -> & Hn)].
  - change (-1 =? -1) with true. cbv iota. split; apply Hget; lia.
  - apply lookup_lt_Some in Hn.
    destruct (Z.eqb_spec (Z.of_nat n) (-1)); [lia|]. split.
    + apply Hget. apply Z.mod_pos_bound. lia.
    + apply Hget. destruct (Z.eqb_spec (Z.of_nat n) 0); lia.
Qed.

Lemma bet_handlers_choose_menu_entries_witness :
  (∃ v, Bet.handleIncreaseBet (Some (Bet.with_menu [1; 2; 3; 5; 10])) 4
        = Bet.SetBetAmount (Some v) ∧ v ∈ [1; 2; 3; 5; 10])
  ∧ (∃ v, Bet.handleDecreaseBet (Some (Bet.with_menu [1; 2; 3; 5; 10])) 4
          = Bet.SetBetAmount (Some v) ∧ v ∈ [1; 2; 3; 5; 10]).
Proof.
  apply (bet_handlers_choose_menu_entries (Bet.with_menu [1; 2; 3; 5; 10])
           [1; 2; 3; 5; 10] 4); [reflexivity | discriminate].
Defined.

(** X2.  On a menu without repeated amounts the two handlers undo each
    other: from a bet of the menu, increasing and then decreasing, or
    decreasing and then increasing, gives the bet back, also across the
    wrap-around at either end. *)
Theorem bet_handlers_are_inverse (doc : GameConfig.FrontendGameConfig)
    (menu : list Z) (bet : Z) :
  GameConfig.betAmounts doc = Some menu →
  NoDup menu →
  bet ∈ menu →
  ∃ up down,
    Bet.handleIncreaseBet (Some doc) bet = Bet.SetBetAmount (Some up)
    ∧ Bet.handleDecreaseBet (Some doc) up = Bet.SetBetAmount (Some bet)
    ∧ Bet.handleDecreaseBet (Some doc) bet = Bet.SetBetAmount (Some down)
    ∧ Bet.handleIncreaseBet (Some doc) down = Bet.SetBetAmount (Some bet).
Proof.
  intros Hmenu Hnd Hin.
  apply list_elem_of_lookup_1 in Hin as [n Hn].
  pose proof (lookup_lt_Some _ _ _ Hn) as Hlt.
  set (len := Z.of_nat (length menu)).
  assert (Hat : ∀ i : nat, (i < length menu)%nat →
                  ∃ v, menu !! i = Some v ∧ js_get menu (Z.of_nat i) = Some v
                       ∧ indexOf menu v = Z.of_nat i).
  { intros i Hi. destruct (lookup_lt_is_Some_2 menu i Hi) as [v Hv].
    exists v. split; [done|]. split; [by rewrite js_get_nat | by apply indexOf_NoDup]. }
  (* the entry after [bet], cyclically *)
  set (next := if decide (S n = length menu) then 0%nat else S n).
  assert (Hnext : (Z.of_nat n + 1) `mod` len = Z.of_nat next).
  { subst next len. destruct (decide (S n = length menu)) as [E|E].
    - replace (Z.of_nat n + 1) with (Z.of_nat (length menu)) by lia.
      by rewrite Z_mod_same_full.
    - rewrite Z.mod_small; lia. }
  assert (Hnext_lt : (next < length menu)%nat).
  { subst next. destruct (decide (S n = length menu)); lia. }
  (* the entry before [bet], cyclically *)
  set (prev := if decide (n = 0%nat) then pred (length menu) else pred n).
  assert (Hprev_lt : (prev < length menu)%nat).
  { subst prev. destruct (decide (n = 0%nat)); lia. }
  destruct (Hat next Hnext_lt) as (up & Hup & Hupget & Hupidx).
  destruct (Hat prev Hprev_lt) as (down & Hdown & Hdownget & Hdownidx).
  pose proof (indexOf_NoDup menu bet n Hnd Hn) as Hidx.
  exists up, down.
  unfold Bet.handleIncreaseBet, Bet.handleDecreaseBet. rewrite Hmenu. cbv zeta.
  rewrite Hidx, Hupidx, Hdownidx. fold len.
  destruct (Z.eqb_spec (Z.of_nat n) (-1)); [lia|].
  destruct (Z.eqb_spec (Z.of_nat next) (-1)); [lia|].
  destruct (Z.eqb_spec (Z.of_nat prev) (-1)); [lia|].
  split; [by rewrite Hnext, Hupget|]. split; [|split].
  - f_equal. rewrite <- (js_get_nat menu n) in Hn. rewrite <- Hn. f_equal.
    subst next len. destruct (decide (S n = length menu)) as [E|E].
    + change (Z.of_nat 0 =? 0) with true. cbv iota. lia.
    + destruct (Z.eqb_spec (Z.of_nat (S n)) 0); lia.
  - f_equal. rewrite <- Hdownget. f_equal.
    subst prev len. destruct (decide (n = 0%nat)) as [E|E].
    + subst n. change (Z.of_nat 0 =? 0) with true. cbv iota. lia.
    + destruct (Z.eqb_spec (Z.of_nat n) 0); lia.
  - f_equal. rewrite <- (js_get_nat menu n) in Hn. rewrite <- Hn. f_equal.
    subst prev len. destruct (decide (n = 0%nat)) as [E|E].
    + subst n. replace (Z.of_nat (pred (length menu)) + 1) with (Z.of_nat (length menu)) by lia.
      by rewrite Z_mod_same_full.
    + rewrite Z.mod_small; lia.
Qed.

Lemma bet_handlers_are_inverse_witness :
  ∃ up down,
    Bet.handleIncreaseBet (Some (Bet.with_menu [1; 2; 3; 5; 10])) 10
    = Bet.SetBetAmount (Some up)
    ∧ Bet.handleDecreaseBet (Some (Bet.with_menu [1; 2; 3; 5; 10])) up
      = Bet.SetBetAmount (Some 10)
    ∧ Bet.handleDecreaseBet (Some (Bet.with_menu [1; 2; 3; 5; 10])) 10
      = Bet.SetBetAmount (Some down)
    ∧ Bet.handleIncreaseBet (Some (Bet.with_menu [1; 2; 3; 5; 10])) down
      = Bet.SetBetAmount (Some 10).
Proof.
  apply (bet_handlers_are_inverse (Bet.with_menu [1; 2; 3; 5; 10]) [1; 2; 3; 5; 10] 10).
  - reflexivity.
  - repeat (apply NoDup_cons; split;
            [intros H; repeat (apply elem_of_cons in H as [H|H]; [discriminate H|]);
             by apply elem_of_nil in H|]).
    apply NoDup_nil_2.
  - repeat (apply elem_of_cons; first [by left | right]).
Defined.

(** ** Draws *)

Section Draws.

Import QArith Qround.

(** A draw in [[0, 1)] scaled by [n] and floored is an index below [n]. *)
Lemma floor_times_range (u : Q) (n : nat) :
  (0 <= u)%Q → (u < 1)%Q → (0 < n)%nat → (0 ≤ floor_times u n < Z.of_nat n)%Z.
Proof.
  intros H0 H1 Hn. unfold floor_times.
  assert (Hpos : (0 < inject_Z (Z.of_nat n))%Q).
  { change 0%Q with (inject_Z 0). rewrite <- Zlt_Qlt. lia. }
  split.
  - change 0%Z with (Qfloor (inject_Z 0)). apply Qfloor_resp_le.
    change (inject_Z 0) with 0%Q. apply Qmult_le_0_compat; [done|]. by apply Qlt_le_weak.
  - rewrite Zlt_Qlt. eapply Qle_lt_trans; [apply Qfloor_le|].
    rewrite <- (Qmult_1_l (inject_Z (Z.of_nat n))) at 2.
    by apply Qmult_lt_compat_r.
Qed.

End Draws.

(** ** The random grid *)

Section RandomGridFacts.

Import RandomGrid.

Variables (numReels numRows : nat) (scatterSymbol : string).

Lemma js_get_Some_range {A : Type} (a : list A) (i : Z) (x : A) :
  js_get a i = Some x → 0 ≤ i < Z.of_nat (length a).
Proof.
  unfold js_get. destruct (Z.ltb_spec i 0) as [Hneg|Hpos]; [done|].
  intros Hx. apply lookup_lt_Some in Hx. lia.
Qed.

Lemma js_get_in_range {A : Type} (a : list A) (i : Z) :
  0 ≤ i < Z.of_nat (length a) → ∃ x, js_get a i = Some x ∧ x ∈ a.
Proof.
  intros Hi. unfold js_get. destruct (Z.ltb_spec i 0); [lia|].
  destruct (lookup_lt_is_Some_2 a (Z.to_nat i)) as [x Hx]; [lia|].
  exists x. split; [done|]. by eapply list_elem_of_lookup_2.
Qed.

(** The loop stays inside the strip. *)
Lemma skipScatter_range (reelStrip : list string) (budget : nat) (i : Z) :
  0 ≤ i < Z.of_nat (length reelStrip) →
  0 ≤ skipScatter scatterSymbol reelStrip i budget < Z.of_nat (length reelStrip).
Proof.
  revert i. induction budget as [|b IH]; intros i Hi; simpl; [done|].
  case_bool_decide; [|done]. apply IH.
  rewrite Z.rem_mod_nonneg by lia. apply Z.mod_pos_bound. lia.
Qed.

(** If a symbol other than the scatter lies [d] places further on, with
    [d] within the budget, the loop ends on a symbol other than the
    scatter. *)
Lemma skipScatter_lands (reelStrip : list string) (budget : nat) :
  ∀ (i : Z) (d : nat),
    0 ≤ i < Z.of_nat (length reelStrip) →
    (d ≤ budget)%nat →
    js_get reelStrip ((i + Z.of_nat d) `mod` Z.of_nat (length reelStrip))
      ≠ Some scatterSymbol →
    js_get reelStrip (skipScatter scatterSymbol reelStrip i budget) ≠ Some scatterSymbol.
Proof.
  induction budget as [|b IH]; intros i d Hi Hd Hfar; simpl.
  - replace d with 0%nat in Hfar by lia.
    rewrite Z.add_0_r, Z.mod_small in Hfar by lia. done.
  - case_bool_decide as Hhere; [|done].
    destruct d as [|d'].
    { rewrite Z.add_0_r, Z.mod_small in Hfar by lia. done. }
    apply (IH _ d').
    + rewrite Z.rem_mod_nonneg by lia. apply Z.mod_pos_bound. lia.
    + lia.
    + rewrite Z.rem_mod_nonneg by lia. rewrite Zplus_mod_idemp_l.
      replace (i + 1 + Z.of_nat d') with (i + Z.of_nat (S d')) by lia. done.
Qed.

(** With a symbol other than the scatter on the strip, a full turn of the
    loop finds one. *)
Lemma skipScatter_finds (reelStrip : list string) (i : Z) :
  (∃ x, x ∈ reelStrip ∧ x ≠ scatterSymbol) →
  0 ≤ i < Z.of_nat (length reelStrip) →
  js_get reelStrip (skipScatter scatterSymbol reelStrip i (length reelStrip))
    ≠ Some scatterSymbol.
Proof.
  intros (x & Hin & Hx) Hi.
  apply list_elem_of_lookup_1 in Hin as [p Hp].
  pose proof (lookup_lt_Some _ _ _ Hp) as Hlt.
  set (len := Z.of_nat (length reelStrip)) in *.
  apply (skipScatter_lands reelStrip (length reelStrip) i
           (Z.to_nat ((Z.of_nat p - i) `mod` len))); [done | |].
  - pose proof (Z.mod_pos_bound (Z.of_nat p - i) len). lia.
  - rewrite Z2Nat.id by (apply Z.mod_pos_bound; lia).
    rewrite Zplus_mod_idemp_r.
    replace (i + (Z.of_nat p - i)) with (Z.of_nat p) by lia.
    rewrite Z.mod_small by lia. rewrite js_get_nat, Hp. congruence.
Qed.

Lemma drawSymbol_after_scatter (reelStrip : list string) (firstSymbol : option string)
    (reel : list (option string)) (u : QArith_base.Q) (i : nat) :
  (∃ x, x ∈ reelStrip ∧ x ≠ scatterSymbol) →
  reel !! i = Some (Some scatterSymbol) →
  drawSymbol scatterSymbol reelStrip firstSymbol reel (S i) u ≠ Some scatterSymbol.
Proof.
  intros Hother Hprev. unfold drawSymbol.
  assert (Hlen : (0 < length reelStrip)%nat).
  { destruct Hother as (x & Hin & _). destruct reelStrip; [by apply elem_of_nil in Hin|].
    simpl. lia. }
  destruct (Nat.ltb_spec 0 (length reelStrip)); [|lia]. cbv zeta.
  replace (S i - 1)%nat with i by lia. rewrite Hprev.
  rewrite bool_decide_eq_true_2 by done. simpl.
  case_bool_decide as Hsym; [|done].
  apply skipScatter_finds; [done|].
  apply js_get_Some_range in Hsym.
  rewrite Z.rem_mod_nonneg by lia. apply Z.mod_pos_bound. lia.
Qed.

Lemma unstacked_snoc (reel : list (option string)) (e : option string) :
  unstacked scatterSymbol reel →
  (∀ i, S i = length reel → reel !! i = Some (Some scatterSymbol) → e ≠ Some scatterSymbol) →
  unstacked scatterSymbol (reel ++ [e]).
Proof.
  intros Hreel He i Hi Hnext.
  destruct (decide (S i < length reel)%nat) as [Hlt|Hge].
  - rewrite lookup_app_l in Hi by lia. rewrite lookup_app_l in Hnext by lia.
    by apply (Hreel i).
  - pose proof (lookup_lt_Some _ _ _ Hnext) as Hb. rewrite length_app in Hb. simpl in Hb.
    assert (S i = length reel) as Hlast by lia.
    rewrite lookup_app_l in Hi by lia.
    rewrite lookup_app_r in Hnext by lia.
    replace (S i - length reel)%nat with 0%nat in Hnext by lia. simpl in Hnext.
    injection Hnext as ->. by apply (He i).
Qed.

Lemma fillReel_unstacked (reelStrip : list string) (firstSymbol : option string)
    (rnd : nat → QArith_base.Q) (todo : nat) :
  (∃ x, x ∈ reelStrip ∧ x ≠ scatterSymbol) →
  ∀ reel, unstacked scatterSymbol reel →
          unstacked scatterSymbol (fillReel scatterSymbol reelStrip firstSymbol rnd reel (length reel) todo).
Proof.
  intros Hother. induction todo as [|t IH]; intros reel Hreel; simpl; [done|].
  replace (S (length reel)) with
    (length (reel ++ [drawSymbol scatterSymbol reelStrip firstSymbol reel (length reel)
                        (rnd (length reel))]))
    by (rewrite length_app; simpl; lia).
  apply IH. apply unstacked_snoc; [done|].
  intros i Hi Hprev. rewrite <- Hi. by apply drawSymbol_after_scatter.
Qed.

Lemma randomGrid_reel (config : option GameConfig.FrontendGameConfig)
    (reelStrips : list (list string)) (rnd : nat → nat → QArith_base.Q)
    (grid : list (list (option string))) (reelIndex : nat) (reel : list (option string)) :
  randomGrid numReels numRows scatterSymbol config reelStrips rnd = Some grid →
  grid !! reelIndex = Some reel →
  ∃ firstSymbol,
    reel = fillReel scatterSymbol (default [] (reelStrips !! reelIndex)) firstSymbol
             (rnd reelIndex) [] 0 numRows.
Proof.
  unfold randomGrid. destruct config as [doc|]; [|done].
  destruct (length reelStrips =? 0)%nat; [done|].
  intros [= <-] Hreel. rewrite list_lookup_fmap in Hreel.
  destruct (seq 0 numReels !! reelIndex) as [j|] eqn:Hj; [|done].
  apply lookup_seq in Hj as [-> _]. simpl in Hreel. injection Hreel as <-.
  by eexists.
Qed.

(** X3.  In the random grid shown before the first spin no reel holds the
    scatter symbol on two rows that touch, whatever the draws are, as long
    as the reel's strip holds a symbol other than the scatter. *)
Theorem random_grid_never_stacks_scatters (config : option GameConfig.FrontendGameConfig)
    (reelStrips : list (list string)) (rnd : nat → nat → QArith_base.Q)
    (grid : list (list (option string))) (reelIndex rowIndex : nat)
    (reel : list (option string)) :
  randomGrid numReels numRows scatterSymbol config reelStrips rnd = Some grid →
  grid !! reelIndex = Some reel →
  (∃ x, x ∈ default [] (reelStrips !! reelIndex) ∧ x ≠ scatterSymbol) →
  reel !! rowIndex = Some (Some scatterSymbol) →
  reel !! (S rowIndex) ≠ Some (Some scatterSymbol).
Proof.
  intros Hgrid Hreel Hother.
  destruct (randomGrid_reel _ _ _ _ _ _ Hgrid Hreel) as [firstSymbol ->].
  apply (fillReel_unstacked _ firstSymbol (rnd reelIndex) numRows Hother []).
  intros i Hi. by rewrite lookup_nil in Hi.
Qed.

Lemma fillReel_length (reelStrip : list string) (firstSymbol : option string)
    (rnd : nat → QArith_base.Q) (todo : nat) :
  ∀ reel rowIndex,
    length (fillReel scatterSymbol reelStrip firstSymbol rnd reel rowIndex todo)
    = (length reel + todo)%nat.
Proof.
  induction todo as [|t IH]; intros reel rowIndex; simpl; [lia|].
  rewrite IH, length_app. simpl. lia.
Qed.

Lemma drawSymbol_from_strip (reelStrip : list string) (firstSymbol : option string)
    (reel : list (option string)) (rowIndex : nat) (u : QArith_base.Q) :
  reelStrip ≠ [] →
  is_random u →
  ∃ x, drawSymbol scatterSymbol reelStrip firstSymbol reel rowIndex u = Some x
       ∧ x ∈ reelStrip.
Proof.
  intros Hne [H0 H1]. unfold drawSymbol.
  assert (Hlen : (0 < length reelStrip)%nat) by (destruct reelStrip; [done | simpl; lia]).
  destruct (Nat.ltb_spec 0 (length reelStrip)); [|lia]. cbv zeta.
  pose proof (floor_times_range u (length reelStrip) H0 H1 Hlen) as Hidx.
  destruct (_ && _ && _).
  - apply js_get_in_range, skipScatter_range.
    rewrite Z.rem_mod_nonneg by lia. apply Z.mod_pos_bound. lia.
  - by apply js_get_in_range.
Qed.

Lemma fillReel_from_strip (reelStrip : list string) (firstSymbol : option string)
    (rnd : nat → QArith_base.Q) (todo : nat) :
  reelStrip ≠ [] →
  (∀ row, is_random (rnd row)) →
  ∀ reel rowIndex,
    (∀ cell, cell ∈ reel → ∃ x, cell = Some x ∧ x ∈ reelStrip) →
    ∀ cell, cell ∈ fillReel scatterSymbol reelStrip firstSymbol rnd reel rowIndex todo →
            ∃ x, cell = Some x ∧ x ∈ reelStrip.
Proof.
  intros Hne Hrnd. induction todo as [|t IH]; intros reel rowIndex Hreel cell; simpl;
    [by apply Hreel|].
  apply IH. intros c Hc. apply elem_of_app in Hc as [Hc|Hc]; [by apply Hreel|].
  apply list_elem_of_singleton in Hc as ->.
  destruct (drawSymbol_from_strip reelStrip firstSymbol reel rowIndex (rnd rowIndex)
              Hne (Hrnd rowIndex)) as (x & -> & Hx).
  by exists x.
Qed.

(** X4.  When the effect sets the grid it has [numReels] reels of [numRows]
    cells, and with draws in [[0, 1)] every cell of a reel whose strip is
    not empty holds a symbol of that strip. *)
Theorem random_grid_is_drawn_from_the_strips (config : option GameConfig.FrontendGameConfig)
    (reelStrips : list (list string)) (rnd : nat → nat → QArith_base.Q)
    (grid : list (list (option string))) :
  randomGrid numReels numRows scatterSymbol config reelStrips rnd = Some grid →
  (∀ reel row, is_random (rnd reel row)) →
  length grid = numReels
  ∧ ∀ reelIndex reel,
      grid !! reelIndex = Some reel →
      length reel = numRows
      ∧ ∀ reelStrip, reelStrips !! reelIndex = Some reelStrip → reelStrip ≠ [] →
          ∀ cell, cell ∈ reel → ∃ x, cell = Some x ∧ x ∈ reelStrip.
Proof.
  intros Hgrid Hrnd. split.
  { unfold randomGrid in Hgrid. destruct config; [|done].
    destruct (length reelStrips =? 0)%nat; [done|]. injection Hgrid as <-.
    by rewrite length_map, length_seq. }
  intros reelIndex reel Hreel.
  destruct (randomGrid_reel _ _ _ _ _ _ Hgrid Hreel) as [firstSymbol ->].
  split; [by rewrite fillReel_length|].
  intros reelStrip Hstrip Hne cell. rewrite Hstrip. simpl.
  apply fillReel_from_strip; [done | apply Hrnd |].
  intros c Hc. by apply elem_of_nil in Hc.
Qed.

End RandomGridFacts.

Lemma random_grid_never_stacks_scatters_witness :
  let reel := [Some "Scatter"; Some "A"; Some "Scatter"] in
  reel !! 0%nat = Some (Some "Scatter") ∧ reel !! 1%nat ≠ Some (Some "Scatter").
Proof.
  cbv zeta. split; [reflexivity|].
  apply (random_grid_never_stacks_scatters 5 3 "Scatter" (Some Examples.stripConfig)
           (replicate 5 Examples.scatterStrip) Examples.zeroDraws
           (replicate 5 [Some "Scatter"; Some "A"; Some "Scatter"]) 0 0).
  - vm_compute. reflexivity.
  - reflexivity.
  - exists "A". split; [|discriminate]. simpl. unfold Examples.scatterStrip.
    apply elem_of_cons; right. apply elem_of_cons; right. apply elem_of_cons; by left.
  - reflexivity.
Defined.

Lemma random_grid_is_drawn_from_the_strips_witness :
  let grid := replicate 5 [Some "Scatter"; Some "A"; Some "Scatter"] in
  length grid = 5%nat
  ∧ ∀ reelIndex reel,
      grid !! reelIndex = Some reel →
      length reel = 3%nat
      ∧ ∀ reelStrip, replicate 5 Examples.scatterStrip !! reelIndex = Some reelStrip →
          reelStrip ≠ [] →
          ∀ cell, cell ∈ reel → ∃ x, cell = Some x ∧ x ∈ reelStrip.
Proof.
  cbv zeta.
  apply (random_grid_is_drawn_from_the_strips 5 3 "Scatter" (Some Examples.stripConfig)
           (replicate 5 Examples.scatterStrip) Examples.zeroDraws).
  - vm_compute. reflexivity.
  - intros reel row. split; vm_compute; [discriminate | reflexivity].
Defined.

(** ** The bonus wheel *)

Section WheelFacts.

Import Wheel.

Lemma randomElement_cases (u : QArith_base.Q) (l : list Z) :
  is_random u → l ≠ [] →
  ∃ n : nat, (n < length l)%nat ∧ randomElement u l = l !! n.
Proof.
  intros [H0 H1] Hne. unfold randomElement.
  assert (Hlen : (0 < length l)%nat) by (destruct l; [done | simpl; lia]).
  pose proof (floor_times_range u (length l) H0 H1 Hlen) as Hidx.
  exists (Z.to_nat (floor_times u (length l))). split; [lia|].
  rewrite <- js_get_nat. f_equal. lia.
Qed.

(** The selected index is one of the candidates of the result. *)
Lemma selectIndex_candidates (wheelResult : string) (u : QArith_base.Q) :
  is_random u →
  ∃ selectedIndex,
    selectIndex wheelResult u = Some selectedIndex
    ∧ selectedIndex ∈ (if bool_decide (wheelResult = "R10") then [1; 3; 4; 5; 7; 8; 9; 11]
                       else if bool_decide (wheelResult = "6spins") then [0]
                       else [2; 6; 10]).
Proof.
  intros Hu. unfold selectIndex.
  case_bool_decide as H10.
  { destruct (randomElement_cases u (indicesOf "R10") Hu) as (n & Hn & ->); [done|].
    change (indicesOf "R10") with [1; 3; 4; 5; 7; 8; 9; 11] in *.
    destruct (lookup_lt_is_Some_2 _ _ Hn) as [x Hx]. exists x. split; [done|].
    by eapply list_elem_of_lookup_2. }
  case_bool_decide as H6.
  { exists 0. split; [done|]. apply elem_of_cons. by left. }
  destruct (randomElement_cases u (indicesOf "") Hu) as (n & Hn & ->); [done|].
  change (indicesOf "") with [2; 6; 10] in *.
  destruct (lookup_lt_is_Some_2 _ _ Hn) as [x Hx]. exists x. split; [done|].
  by eapply list_elem_of_lookup_2.
Qed.

Lemma selectIndex_range (wheelResult : string) (u : QArith_base.Q) :
  is_random u →
  ∃ selectedIndex,
    selectIndex wheelResult u = Some selectedIndex
    ∧ selectedIndex ∈ [0; 1; 2; 3; 4; 5; 6; 7; 8; 9; 10; 11].
Proof.
  intros Hu. destruct (selectIndex_candidates wheelResult u Hu) as (i & Hi & Hin).
  exists i. split; [done|].
  repeat case_bool_decide;
    repeat (apply elem_of_cons in Hin as [->|Hin];
            [repeat (apply elem_of_cons; first [by left | right])|]);
    by apply elem_of_nil in Hin.
Qed.

(** X5.  The segment on which the wheel stops carries the result that the
    server reported: a segment labelled R10 for "R10", the segment of the
    six spins for "6spins", an empty segment for anything else, whichever
    of the candidate segments the draw picks. *)
Theorem wheel_stops_on_the_reported_result (wheelResult : string) (u : QArith_base.Q) :
  is_random u →
  ∃ selectedIndex : nat,
    selectIndex wheelResult u = Some (Z.of_nat selectedIndex)
    ∧ WHEEL_SEGMENTS !! selectedIndex = Some (label wheelResult).
Proof.
  intros Hu. destruct (selectIndex_candidates wheelResult u Hu) as (i & -> & Hin).
  unfold label.
  repeat case_bool_decide;
    repeat (apply elem_of_cons in Hin as [->|Hin];
            [match goal with
             | |- ∃ n : nat, Some ?k = _ ∧ _ => exists (Z.to_nat k); split; reflexivity
             end|]);
    by apply elem_of_nil in Hin.
Qed.

Lemma wheel_stops_on_the_reported_result_witness :
  ∃ selectedIndex : nat,
    selectIndex "R10" Examples.half = Some (Z.of_nat selectedIndex)
    ∧ WHEEL_SEGMENTS !! selectedIndex = Some (label "R10").
Proof.
  apply (wheel_stops_on_the_reported_result "R10" Examples.half).
  split; vm_compute; [discriminate | reflexivity].
Defined.

(** The parent is told once when the request succeeds. *)
Lemma winCalls_resolved (totalActionSpins : Z) (spinResponse : SpinResponse)
    (u : QArith_base.Q) :
  is_random u →
  0 < totalActionSpins →
  winCalls (handleSpin false totalActionSpins (Some spinResponse) u)
  = [OnWin (win spinResponse) (result spinResponse) (additionalSpins spinResponse)
       (totalActionSpins - 1 + additionalSpins spinResponse)].
Proof.
  intros Hu Htotal. unfold handleSpin. simpl orb.
  destruct (Z.leb_spec totalActionSpins 0) as [Hle|_]; [lia|].
  destruct (selectIndex_range (result spinResponse) u Hu) as (i & -> & Hin).
  repeat (apply elem_of_cons in Hin as [->|Hin]; [vm_compute; reflexivity|]).
  by apply elem_of_nil in Hin.
Qed.

(** X6.  A spin of the idle wheel with spins on hand always comes to rest.
    When the request succeeds the wheel ends with the selected segment
    shown, no segment lit, the result stored and the spinning flag down,
    and it has told the parent exactly once, with the spins on hand minus
    one plus the additional spins as the remaining count.  When the
    request fails the flag is lowered, nothing is selected and the parent
    is not told. *)
Theorem wheel_spin_comes_to_rest (w : State) (totalActionSpins : Z)
    (spinResponse : SpinResponse) (u : QArith_base.Q) :
  is_random u →
  0 < totalActionSpins →
  (∃ selectedIndex,
     selectIndex (result spinResponse) u = Some selectedIndex
     ∧ replay (handleSpin false totalActionSpins (Some spinResponse) u) w
       = {| isSpinning := false; currentSegment := -1;
            selectedSegment := Some selectedIndex;
            spinResult := Some (result spinResponse) |}
     ∧ winCalls (handleSpin false totalActionSpins (Some spinResponse) u)
       = [OnWin (win spinResponse) (result spinResponse) (additionalSpins spinResponse)
            (totalActionSpins - 1 + additionalSpins spinResponse)])
  ∧ replay (handleSpin false totalActionSpins None u) w
    = {| isSpinning := false; currentSegment := 11;
         selectedSegment := None; spinResult := None |}
  ∧ winCalls (handleSpin false totalActionSpins None u) = [].
Proof.
  intros Hu Htotal.
  pose proof (winCalls_resolved totalActionSpins spinResponse u Hu Htotal) as Hcalls.
  revert Hcalls. unfold handleSpin. simpl orb.
  destruct (Z.leb_spec totalActionSpins 0) as [Hle|_]; [lia|]. intros Hcalls.
  split; [|split; vm_compute; reflexivity].
  destruct (selectIndex_range (result spinResponse) u Hu) as (i & Hi & Hin).
  exists i. split; [done|]. split; [|exact Hcalls].
  rewrite Hi. clear Hcalls Hi.
  repeat (apply elem_of_cons in Hin as [->|Hin]; [vm_compute; reflexivity|]).
  by apply elem_of_nil in Hin.
Qed.

Lemma wheel_spin_comes_to_rest_witness :
  let w := {| isSpinning := false; currentSegment := 0; selectedSegment := None;
              spinResult := None |} in
  let r := {| result := "6spins"; win := 0; additionalSpins := 6 |} in
  (∃ selectedIndex,
     selectIndex (result r) Examples.half = Some selectedIndex
     ∧ replay (handleSpin false 1 (Some r) Examples.half) w
       = {| isSpinning := false; currentSegment := -1;
            selectedSegment := Some selectedIndex;
            spinResult := Some (result r) |}
     ∧ winCalls (handleSpin false 1 (Some r) Examples.half)
       = [OnWin (win r) (result r) (additionalSpins r) (1 - 1 + additionalSpins r)])
  ∧ replay (handleSpin false 1 None Examples.half) w
    = {| isSpinning := false; currentSegment := 11;
         selectedSegment := None; spinResult := None |}
  ∧ winCalls (handleSpin false 1 None Examples.half) = [].
Proof.
  cbv zeta.
  apply (wheel_spin_comes_to_rest _ 1 {| result := "6spins"; win := 0; additionalSpins := 6 |}
           Examples.half).
  - split; vm_compute; [discriminate | reflexivity].
  - lia.
Defined.

(** *** The last turn *)

Lemma highlighted_app (a b : list Effect) :
  highlighted (a ++ b) = highlighted a ++ highlighted b.
Proof. apply omap_app. Qed.

Lemma delays_app (a b : list Effect) : delays (a ++ b) = delays a ++ delays b.
Proof. apply omap_app. Qed.

Lemma finalSteps_seqZ (selectedIndex finalSteps : Z) (n : nat) :
  ∀ m, m + Z.of_nat n = totalSteps + finalSteps →
    highlighted (flat_map (finalStep selectedIndex finalSteps) (seqZ m (Z.of_nat n)))
    = map (fun i => i `mod` 12) (seqZ m (Z.of_nat n)) ++ (if n is O then [] else [-1])
    ∧ delays (flat_map (finalStep selectedIndex finalSteps) (seqZ m (Z.of_nat n)))
      = map (fun i => delay i finalSteps) (seqZ m (Z.of_nat n)).
Proof.
  induction n as [|n IH]; intros m Htop; [done|].
  rewrite Nat2Z.inj_succ, seqZ_cons by lia.
  replace (Z.pred (Z.succ (Z.of_nat n))) with (Z.of_nat n) by lia.
  cbn [flat_map].
  destruct (IH (Z.succ m)) as [IHh IHd]; [lia|].
  rewrite !highlighted_app, !delays_app, IHh, IHd. unfold finalStep. cbv zeta.
  destruct (Z.eqb_spec m (totalSteps + finalSteps - 1)) as [E|E].
  - assert (n = 0%nat) as -> by lia. split; reflexivity.
  - destruct n as [|n]; [lia|]. split; reflexivity.
Qed.

End WheelFacts.

Section WheelTiming.

Import QArith.
Import Wheel.

Lemma delay_bounds (i finalSteps : Z) :
  (totalSteps ≤ i < totalSteps + finalSteps)%Z →
  (50 <= delay i finalSteps)%Q ∧ (delay i finalSteps < 200)%Q.
Proof.
  intros Hi. unfold delay.
  set (x := inject_Z (i - totalSteps)). set (F := inject_Z finalSteps).
  assert (HF : (0 < F)%Q).
  { subst F. change 0%Q with (inject_Z 0). rewrite <- Zlt_Qlt. lia. }
  assert (Hx0 : (0 <= x)%Q).
  { subst x. change 0%Q with (inject_Z 0). rewrite <- Zle_Qle. lia. }
  assert (HxF : (x < F)%Q).
  { subst x F. rewrite <- Zlt_Qlt. lia. }
  assert (0 <= x / F)%Q by (apply Qle_shift_div_l; [done | Lqa.lra]).
  assert (x / F < 1)%Q by (apply Qlt_shift_div_r; [done | Lqa.lra]).
  change (inject_Z stepDelay) with 50%Q. change (inject_Z 1) with 1%Q.
  change (inject_Z 3) with 3%Q.
  split; Lqa.lra.
Qed.

Lemma delay_increases (i finalSteps : Z) :
  (0 < finalSteps)%Z → (delay i finalSteps < delay (i + 1) finalSteps)%Q.
Proof.
  intros HF. unfold delay.
  replace (i + 1 - totalSteps)%Z with ((i - totalSteps) + 1)%Z by lia.
  rewrite inject_Z_plus.
  set (x := inject_Z (i - totalSteps)). set (F := inject_Z finalSteps).
  assert (HFq : (0 < F)%Q).
  { subst F. change 0%Q with (inject_Z 0). rewrite <- Zlt_Qlt. lia. }
  assert (Hc : (0 < / F)%Q) by (by apply Qinv_lt_0_compat).
  change (inject_Z stepDelay) with 50%Q. change (inject_Z 1) with 1%Q.
  change (inject_Z 3) with 3%Q. unfold Qdiv.
  set (c := (/ F)%Q) in *. Lqa.nra.
Qed.

(** X7.  After the answer the light goes round once more and on: with the
    selected segment [k] it takes [k + 12] steps, the last segment lit is
    the one before [k], and only then is the light put out and [k] shown
    as selected.  The waits of these steps start at 50 ms, grow with every
    step and stay below 200 ms. *)
Theorem wheel_last_turn_slows_down (selectedIndex : Z) :
  (0 ≤ selectedIndex)%Z →
  highlighted (slowDown selectedIndex)
  = map (fun i => (i `mod` 12)%Z) (seqZ totalSteps (selectedIndex + 12)) ++ [(-1)%Z]
  ∧ last (map (fun i => (i `mod` 12)%Z) (seqZ totalSteps (selectedIndex + 12)))
    = Some ((selectedIndex + 11) `mod` 12)%Z
  ∧ (∃ d, head (delays (slowDown selectedIndex)) = Some d ∧ (d == 50)%Q)
  ∧ ∀ (j : nat) (d : Q),
      delays (slowDown selectedIndex) !! j = Some d →
      (50 <= d)%Q ∧ (d < 200)%Q
      ∧ ∀ d', delays (slowDown selectedIndex) !! S j = Some d' → (d < d')%Q.
Proof.
  intros Hsel.
  destruct (finalSteps_seqZ selectedIndex (selectedIndex + 12)
              (Z.to_nat (selectedIndex + 12)) totalSteps) as [Hh Hd]; [lia|].
  rewrite Z2Nat.id in Hh, Hd by lia.
  change (flat_map _ _) with (slowDown selectedIndex) in Hh, Hd.
  split; [|split; [|split]].
  - rewrite Hh. destruct (Z.to_nat (selectedIndex + 12)) eqn:E; [lia | done].
  - rewrite last_lookup, length_map, length_seqZ, list_lookup_fmap.
    replace (Init.Nat.pred (Z.to_nat (selectedIndex + 12)))
      with (Z.to_nat (selectedIndex + 11)) by lia.
    rewrite lookup_seqZ_lt by lia. simpl. f_equal.
    rewrite Z2Nat.id by lia.
    replace (totalSteps + (selectedIndex + 11))%Z with (selectedIndex + 11 + 2 * 12)%Z
      by (unfold totalSteps, totalCycles; lia).
    by rewrite Z_mod_plus_full.
  - rewrite Hd. rewrite seqZ_cons by lia. eexists. split; [reflexivity|].
    unfold delay. replace (totalSteps - totalSteps)%Z with 0%Z by lia.
    change (inject_Z stepDelay) with 50%Q. change (inject_Z 1) with 1%Q.
    change (inject_Z 3) with 3%Q. change (inject_Z 0) with 0%Q. unfold Qdiv. ring.
  - intros j d Hj. rewrite Hd in Hj |- *. rewrite list_lookup_fmap in Hj.
    destruct (seqZ totalSteps (selectedIndex + 12) !! j) as [i|] eqn:Hi; [|done].
    apply lookup_seqZ in Hi as [-> Hjlt]. simpl in Hj. injection Hj as <-.
    destruct (delay_bounds (totalSteps + Z.of_nat j) (selectedIndex + 12)) as [Hlo Hhi];
      [lia|].
    split; [done|]. split; [done|].
    intros d' Hj'. rewrite list_lookup_fmap in Hj'.
    destruct (seqZ totalSteps (selectedIndex + 12) !! S j) as [i'|] eqn:Hi'; [|done].
    apply lookup_seqZ in Hi' as [-> _]. simpl in Hj'. injection Hj' as <-.
    replace (totalSteps + Z.of_nat (S j))%Z with (totalSteps + Z.of_nat j + 1)%Z by lia.
    apply delay_increases. lia.
Qed.

Lemma wheel_last_turn_slows_down_witness :
  highlighted (slowDown 2)
  = map (fun i => (i `mod` 12)%Z) (seqZ totalSteps (2 + 12)) ++ [(-1)%Z]
  ∧ last (map (fun i => (i `mod` 12)%Z) (seqZ totalSteps (2 + 12)))
    = Some ((2 + 11) `mod` 12)%Z
  ∧ (∃ d, head (delays (slowDown 2)) = Some d ∧ (d == 50)%Q)
  ∧ ∀ (j : nat) (d : Q),
      delays (slowDown 2) !! j = Some d →
      (50 <= d)%Q ∧ (d < 200)%Q
      ∧ ∀ d', delays (slowDown 2) !! S j = Some d' → (d < d')%Q.
Proof. apply (wheel_last_turn_slows_down 2). lia. Defined.

End WheelTiming.

(** ** One turn of the wheel, seen from [Home] *)

Section HomeFacts.

Import Slot Home.

Lemma turn_resolved (ms : Z) (response : ActionGameSpinResponse) (u : QArith_base.Q)
    (h : State) :
  is_random u →
  truthy (sessionId (machine h)) = true →
  0 < actionGameSpins (machine h) →
  turn ms (Some response) u h
  = afterWin ms (w_win response) (w_wheelResult response) (w_additionalSpins response)
      (actionGameSpins (machine h) - 1 + w_additionalSpins response)
      (onMachine (handleActionWheelSpin response) h).
Proof.
  intros Hu Hsid Hspins. unfold turn, onActionWheelSpin. rewrite Hsid. simpl negb. cbv iota.
  by rewrite winCalls_resolved.
Qed.

(** Before 200 ms have passed only the message is shown. *)
Lemma afterWin_announced (ms winAmount : Z) (wheelResult : string)
    (additional remainingSpins : Z) (h : State) :
  ms < 200 →
  fst (afterWin ms winAmount wheelResult additional remainingSpins h)
  = setActionGameWinAmount (snd (winDisplay wheelResult))
      (setActionGameWinMessage (fst (winDisplay wheelResult)) h).
Proof.
  intros Hms. unfold afterWin, handleActionWheelWin.
  assert (H200 : (200 <=? ms) = false) by (apply Z.leb_gt; lia).
  destruct (winDisplay wheelResult) as [message displayAmount].
  cbn -[Z.leb Z.eqb]. rewrite !Z.add_0_l. change (200 <=? 2000) with true.
  cbn -[Z.leb Z.eqb]. by rewrite H200.
Qed.

(** From 200 ms on, and before two seconds have passed, the pending
    balance has been applied and the message is still shown. *)
Lemma afterWin_paid (ms winAmount : Z) (wheelResult : string)
    (additional remainingSpins : Z) (h : State) :
  200 ≤ ms < 2000 →
  fst (afterWin ms winAmount wheelResult additional remainingSpins h)
  = applyPendingBalance
      (setActionGameWinAmount (snd (winDisplay wheelResult))
         (setActionGameWinMessage (fst (winDisplay wheelResult)) h)).
Proof.
  intros Hms. unfold afterWin, handleActionWheelWin.
  assert (H200 : (200 <=? ms) = true) by (apply Z.leb_le; lia).
  assert (H2000 : (2000 <=? ms) = false) by (apply Z.leb_gt; lia).
  destruct (winDisplay wheelResult) as [message displayAmount].
  cbn -[Z.leb Z.eqb]. rewrite !Z.add_0_l. change (200 <=? 2000) with true.
  cbn -[Z.leb Z.eqb]. rewrite H200. cbn -[Z.leb Z.eqb]. by rewrite H2000.
Qed.

(** The timers of [handleActionWheelWin] have all fired after five
    seconds. *)
Lemma afterWin_settled (ms winAmount : Z) (wheelResult : string)
    (additional remainingSpins : Z) (h : State) :
  5000 ≤ ms →
  afterWin ms winAmount wheelResult additional remainingSpins h
  = (let paid := applyPendingBalance
                   (setActionGameWinAmount (snd (winDisplay wheelResult))
                      (setActionGameWinMessage (fst (winDisplay wheelResult)) h)) in
     if remainingSpins =? 0
     then setActionGamesFinished false
            (onMachine handleActionWheelComplete
               (setActionGamesFinished true
                  (setActionGameWinAmount 0 (setActionGameWinMessage "" paid))))
     else setActionGameWinAmount 0 (setActionGameWinMessage "" paid),
     []).
Proof.
  intros Hms. unfold afterWin, handleActionWheelWin.
  assert (H200 : (200 <=? ms) = true) by (apply Z.leb_le; lia).
  assert (H2000 : (2000 <=? ms) = true) by (apply Z.leb_le; lia).
  assert (H4000 : (4000 <=? ms) = true) by (apply Z.leb_le; lia).
  assert (H5000 : (5000 <=? ms) = true) by (apply Z.leb_le; lia).
  destruct (winDisplay wheelResult) as [message displayAmount].
  cbn -[Z.leb Z.eqb]. rewrite !Z.add_0_l. change (200 <=? 2000) with true.
  cbn -[Z.leb Z.eqb]. rewrite H200. cbn -[Z.leb Z.eqb]. rewrite H2000.
  destruct (remainingSpins =? 0); cbn -[Z.leb Z.eqb];
    change (2000 + 2000) with 4000; change (2000 + 3000) with 5000;
    rewrite ?H4000, ?H5000; reflexivity.
Qed.

(** X8.  One successful turn of the wheel, once its timers have fired:
    the balance and the accumulated win are those the server reported, no
    balance is pending, the win message is cleared and no timer is left.
    The wheel is closed, with no spins on hand, exactly when the spins on
    hand before the turn, minus one, plus the additional spins won, come to
    zero; otherwise the spins on hand are the server's remaining spins and
    the wheel stays as the spin handler left it.  A turn whose request
    fails changes nothing. *)
Theorem wheel_turn_settles (ms : Z) (response : ActionGameSpinResponse)
    (u : QArith_base.Q) (h : State) :
  is_random u →
  truthy (sessionId (machine h)) = true →
  0 < actionGameSpins (machine h) →
  balanceUpdateRef h = true →
  5000 ≤ ms →
  let hf := fst (turn ms (Some response) u h) in
  let remainingSpins := actionGameSpins (machine h) - 1 + w_additionalSpins response in
  snd (turn ms (Some response) u h) = []
  ∧ balance (machine hf) = w_balance response
  ∧ pendingBalanceUpdateRef (machine hf) = None
  ∧ accumulatedActionWin (machine hf) = w_accumulatedWin response
  ∧ actionGameWinMessage hf = ""
  ∧ actionGameWinAmount hf = 0
  ∧ (remainingSpins = 0 →
     showActionWheel (machine hf) = false
     ∧ actionGameSpins (machine hf) = 0
     ∧ actionGamesFinished hf = false)
  ∧ (remainingSpins ≠ 0 →
     actionGameSpins (machine hf) = w_remainingSpins response
     ∧ showActionWheel (machine hf)
       = (if 0 <? w_remainingSpins response then true else showActionWheel (machine h))
     ∧ actionGamesFinished hf = actionGamesFinished h)
  ∧ turn ms None u h = (h, []).
Proof.
  intros Hu Hsid Hspins Href Hms. cbv zeta.
  rewrite turn_resolved by done. rewrite afterWin_settled by done. cbv zeta.
  assert (Hfail : turn ms None u h = (h, [])).
  { unfold turn, onActionWheelSpin. rewrite Hsid. simpl negb. cbv iota.
    unfold Wheel.handleSpin. simpl orb.
    destruct (Z.leb_spec (actionGameSpins (machine h)) 0) as [Hle|_]; [lia|].
    vm_compute Wheel.winCalls. reflexivity. }
  unfold applyPendingBalance.
  destruct (winDisplay (w_wheelResult response)) as [message displayAmount].
  cbn [fst snd]. simpl machine. simpl balanceUpdateRef. rewrite Href.
  unfold handleActionWheelSpin. cbv zeta.
  destruct (0 <? w_remainingSpins response);
    (destruct (Z.eqb_spec (actionGameSpins (machine h) - 1 + w_additionalSpins response) 0)
       as [E|E];
     simpl; repeat split;
     first [done | intros; repeat split; reflexivity]).
Qed.

Lemma wheel_turn_settles_witness :
  let h := Examples.lastBonusSpin in
  let hf := fst (turn 5000 (Some Examples.tenRand) Examples.half h) in
  let remainingSpins :=
    actionGameSpins (machine h) - 1 + w_additionalSpins Examples.tenRand in
  snd (turn 5000 (Some Examples.tenRand) Examples.half h) = []
  ∧ balance (machine hf) = w_balance Examples.tenRand
  ∧ pendingBalanceUpdateRef (machine hf) = None
  ∧ accumulatedActionWin (machine hf) = w_accumulatedWin Examples.tenRand
  ∧ actionGameWinMessage hf = ""
  ∧ actionGameWinAmount hf = 0
  ∧ (remainingSpins = 0 →
     showActionWheel (machine hf) = false
     ∧ actionGameSpins (machine hf) = 0
     ∧ actionGamesFinished hf = false)
  ∧ (remainingSpins ≠ 0 →
     actionGameSpins (machine hf) = w_remainingSpins Examples.tenRand
     ∧ showActionWheel (machine hf)
       = (if 0 <? w_remainingSpins Examples.tenRand then true
          else showActionWheel (machine h))
     ∧ actionGamesFinished hf = actionGamesFinished h)
  ∧ turn 5000 None Examples.half h = (h, []).
Proof.
  cbv zeta.
  apply (wheel_turn_settles 5000 Examples.tenRand Examples.half Examples.lastBonusSpin).
  - split; vm_compute; [discriminate | reflexivity].
  - reflexivity.
  - reflexivity.
  - reflexivity.
  - lia.
Defined.

(** X9.  During the two seconds after a successful turn the parent shows
    the message of the result, with the amount 10 for "R10" whatever win
    the server reported and 0 otherwise.  The balance reported with the
    turn is held back meanwhile: for the first 200 ms the balance on
    display is the old one and the new one is pending; from then on the
    balance is the server's and nothing is pending. *)
Theorem wheel_turn_announces_before_paying (ms : Z) (response : ActionGameSpinResponse)
    (u : QArith_base.Q) (h : State) :
  is_random u →
  truthy (sessionId (machine h)) = true →
  0 < actionGameSpins (machine h) →
  balanceUpdateRef h = true →
  ms < 2000 →
  let hf := fst (turn ms (Some response) u h) in
  actionGameWinMessage hf = fst (winDisplay (w_wheelResult response))
  ∧ actionGameWinAmount hf = (if bool_decide (w_wheelResult response = "R10") then 10 else 0)
  ∧ accumulatedActionWin (machine hf) = w_accumulatedWin response
  ∧ actionGameSpins (machine hf) = w_remainingSpins response
  ∧ (ms < 200 →
     balance (machine hf) = balance (machine h)
     ∧ pendingBalanceUpdateRef (machine hf) = Some (w_balance response))
  ∧ (200 ≤ ms →
     balance (machine hf) = w_balance response
     ∧ pendingBalanceUpdateRef (machine hf) = None).
Proof.
  intros Hu Hsid Hspins Href Hms. cbv zeta. rewrite turn_resolved by done.
  assert (Hamount : snd (winDisplay (w_wheelResult response))
                    = if bool_decide (w_wheelResult response = "R10") then 10 else 0).
  { unfold winDisplay. repeat case_bool_decide; reflexivity. }
  destruct (Z.lt_ge_cases ms 200) as [Hearly|Hlate].
  - rewrite afterWin_announced by done. rewrite <- Hamount.
    unfold handleActionWheelSpin. cbv zeta.
    destruct (0 <? w_remainingSpins response); simpl;
      repeat split; first [done | intros; lia].
  - rewrite afterWin_paid by lia. rewrite <- Hamount.
    unfold applyPendingBalance. simpl balanceUpdateRef. rewrite Href.
    unfold handleActionWheelSpin. cbv zeta.
    destruct (0 <? w_remainingSpins response); simpl;
      repeat split; first [done | intros; lia].
Qed.

Lemma wheel_turn_announces_before_paying_witness :
  let h := Examples.lastBonusSpin in
  let hf := fst (turn 100 (Some Examples.tenRand) Examples.half h) in
  actionGameWinMessage hf = fst (winDisplay (w_wheelResult Examples.tenRand))
  ∧ actionGameWinAmount hf
    = (if bool_decide (w_wheelResult Examples.tenRand = "R10") then 10 else 0)
  ∧ accumulatedActionWin (machine hf) = w_accumulatedWin Examples.tenRand
  ∧ actionGameSpins (machine hf) = w_remainingSpins Examples.tenRand
  ∧ (100 < 200 →
     balance (machine hf) = balance (machine h)
     ∧ pendingBalanceUpdateRef (machine hf) = Some (w_balance Examples.tenRand))
  ∧ (200 ≤ 100 →
     balance (machine hf) = w_balance Examples.tenRand
     ∧ pendingBalanceUpdateRef (machine hf) = None).
Proof.
  cbv zeta.
  apply (wheel_turn_announces_before_paying 100 Examples.tenRand Examples.half
           Examples.lastBonusSpin).
  - split; vm_compute; [discriminate | reflexivity].
  - reflexivity.
  - reflexivity.
  - reflexivity.
  - lia.
Defined.

End HomeFacts.

(** ** The winning-lines overlay *)

Section LinesFacts.

Import Slot Lines.

Lemma points_lookup (line : list Z) (screen : Screen) (p : Z * Z) :
  p ∈ points line screen →
  ∃ (reel : nat) (row : Z),
    line !! reel = Some row ∧ p = getPointForCell (Z.of_nat reel) row screen.
Proof.
  unfold points. intros Hp. apply list_elem_of_lookup_1 in Hp as [reel Hp].
  rewrite list_lookup_imap in Hp.
  destruct (line !! reel) as [row|] eqn:Hrow; [|done].
  simpl in Hp. injection Hp as <-. by exists reel, row.
Qed.

(** X10.  The path of a payline has one point for each reel the payline
    covers, and when the payline fits the grid (no more entries than reels,
    every row on the grid) each point lies inside the view box, at least the
    padding and half a symbol away from every edge; points of different
    cells differ. *)
Theorem payline_path_stays_inside_the_view_box (screen : Screen) (numReels numRows : Z)
    (line : list Z) :
  Z.of_nat (length line) ≤ numReels →
  Forall (fun row => 0 ≤ row < numRows) line →
  length (points line screen) = length line
  ∧ (∀ p, p ∈ points line screen →
       let margin := padding (sizes screen) + symbolWidth (sizes screen) / 2 in
       margin ≤ fst p ≤ fst (viewBoxSize screen numReels numRows) - margin
       ∧ margin ≤ snd p ≤ snd (viewBoxSize screen numReels numRows) - margin)
  ∧ ∀ reel row reel' row',
      getPointForCell reel row screen = getPointForCell reel' row' screen →
      reel = reel' ∧ row = row'.
Proof.
  intros Hlen Hrows. split; [|split].
  - unfold points. by rewrite length_imap.
  - intros p Hp. apply points_lookup in Hp as (reel & row & Hrow & ->).
    pose proof (lookup_lt_Some _ _ _ Hrow) as Hreel.
    rewrite Forall_forall in Hrows.
    assert (Hr : 0 ≤ row < numRows).
    { apply Hrows. by eapply list_elem_of_lookup_2. }
    destruct screen;
      cbv [getPointForCell viewBoxSize sizes padding symbolWidth symbolHeight gap fst snd SYMBOL_WIDTH_MD SYMBOL_HEIGHT_MD GAP_MD PADDING_MD SYMBOL_WIDTH_SM SYMBOL_HEIGHT_SM GAP_SM PADDING_SM SYMBOL_WIDTH_XS SYMBOL_HEIGHT_XS GAP_XS PADDING_XS];
      change (196 / 2) with 98; lia.
  - intros reel row reel' row' Heq.
    destruct screen;
      cbv [getPointForCell viewBoxSize sizes padding symbolWidth symbolHeight gap fst snd SYMBOL_WIDTH_MD SYMBOL_HEIGHT_MD GAP_MD PADDING_MD SYMBOL_WIDTH_SM SYMBOL_HEIGHT_SM GAP_SM PADDING_SM SYMBOL_WIDTH_XS SYMBOL_HEIGHT_XS GAP_XS PADDING_XS] in Heq;
      change (196 / 2) with 98 in Heq; injection Heq as Hx Hy; lia.
Qed.

Lemma payline_path_stays_inside_the_view_box_witness :
  length (points [0; 1; 2; 1; 0] md) = 5%nat
  ∧ (∀ p, p ∈ points [0; 1; 2; 1; 0] md →
       let margin := padding (sizes md) + symbolWidth (sizes md) / 2 in
       margin ≤ fst p ≤ fst (viewBoxSize md 5 3) - margin
       ∧ margin ≤ snd p ≤ snd (viewBoxSize md 5 3) - margin)
  ∧ ∀ reel row reel' row',
      getPointForCell reel row md = getPointForCell reel' row' md →
      reel = reel' ∧ row = row'.
Proof.
  apply (payline_path_stays_inside_the_view_box md 5 3 [0; 1; 2; 1; 0]).
  - simpl. lia.
  - repeat constructor; lia.
Defined.

Lemma getPathForLine_truthy (line : list Z) (screen : Screen) :
  truthy (getPathForLine line screen) = bool_decide (line ≠ []).
Proof.
  destruct line as [|row line]; [reflexivity|].
  unfold getPathForLine, points. cbn [imap].
  destruct (imap _ line) as [|q qs]; reflexivity.
Qed.

(** X11.  The overlay draws a winning line exactly when its payline index
    names a payline of the configuration that is not empty; a scatter win
    (index [-1]) and an index beyond the configured paylines are skipped.
    Every line drawn has a colour of the palette and is keyed by its
    payline index. *)
Theorem overlay_draws_the_configured_paylines (paylines : list (list Z))
    (screen : Screen) (l : WinningLine) :
  (is_Some (drawLine paylines screen l) ↔
   ∃ payline, js_get paylines (paylineIndex l) = Some payline ∧ payline ≠ [])
  ∧ (paylineIndex l = -1 → drawLine paylines screen l = None)
  ∧ ∀ p, drawLine paylines screen l = Some p →
         key p = paylineIndex l
         ∧ d p = getPathForLine (default [] (js_get paylines (paylineIndex l))) screen
         ∧ ∃ colour, stroke p = Some colour ∧ colour ∈ PAYLINE_COLORS.
Proof.
  unfold drawLine.
  destruct (Z.ltb_spec (paylineIndex l) 0) as [Hneg|Hpos]; simpl orb; cbv iota.
  { split; [|split].
    - split; [intros [? ?]; done|]. intros (payline & Hget & _).
      unfold js_get in Hget. destruct (Z.ltb_spec (paylineIndex l) 0); [done | lia].
    - done.
    - done. }
  destruct (Z.leb_spec (Z.of_nat (length paylines)) (paylineIndex l)) as [Hbig|Hin]; cbv iota.
  { split; [|split].
    - split; [intros [? ?]; done|]. intros (payline & Hget & _).
      apply js_get_Some_range in Hget. lia.
    - done.
    - done. }
  destruct (js_get paylines (paylineIndex l)) as [payline|] eqn:Hget.
  2: { split; [|split]; [|lia|done].
       split; [intros [? ?]; done | intros (? & ? & _); done]. }
  rewrite getPathForLine_truthy.
  case_bool_decide as Hne; simpl negb; cbv iota.
  - split; [|split]; [|lia|].
    + split; [intros _; by exists payline | intros _; by eexists].
    + intros p [= <-]. simpl. split; [done|]. split; [done|].
      apply js_get_in_range. apply Z.mod_pos_bound. simpl. lia.
  - split; [|split]; [|lia|done].
    split; [intros [? ?]; done|]. intros (payline' & [= <-] & Hne'). done.
Qed.

End LinesFacts.

(** ** The game id of a request and the scatter symbol *)

Lemma js_or_truthy (a : option string) (b : string) : b ≠ "" → js_or a b ≠ "".
Proof.
  intros Hb. unfold js_or. destruct a as [x|]; [|done].
  unfold Slot.truthy. case_bool_decide; done.
Qed.

Lemma js_or_cases (a : option string) (b : string) :
  (a = Some (js_or a b) ∧ js_or a b ≠ "") ∨ (js_or a b = b ∧ (a = None ∨ a = Some "")).
Proof.
  unfold js_or. destruct a as [x|]; [|right; by split; [|left]].
  unfold Slot.truthy. case_bool_decide as Hx.
  - left. done.
  - right. split; [done|]. right. f_equal. by destruct (decide (x = "")).
Qed.

Lemma js_or_Some (x b : string) : x ≠ "" → js_or (Some x) b = x.
Proof. intros Hx. unfold js_or, Slot.truthy. by rewrite bool_decide_eq_true_2. Qed.

(** X12.  The body posted for a spin carries a game id that is never empty:
    the [gameId] of the configuration document when that is a non-empty
    string, and INFERNO_EMPRESS otherwise.  The query parameter and the
    environment variable that the request service consults play no part in
    it, and the other fields are those the spin put in.  A request without a
    game id is completed by the service with a non-empty one. *)
Theorem spin_posts_the_game_id_of_the_configuration (gameIdParam env : option string)
    (config : option GameConfig.FrontendGameConfig) (c : Slot.Closure) :
  let request := Slot.playRequest (Api.spinGameId config) c in
  let body := Api.playGame gameIdParam env request in
  body = request
  ∧ Slot.q_gameId body ≠ ""
  ∧ (config ≫= GameConfig.gameId = Some (Slot.q_gameId body)
     ∨ (Slot.q_gameId body = "INFERNO_EMPRESS"
        ∧ (config ≫= GameConfig.gameId = None ∨ config ≫= GameConfig.gameId = Some "")))
  ∧ ∀ q, Slot.q_gameId (Api.playGame gameIdParam env q) ≠ "".
Proof.
  cbv zeta.
  assert (Hid : Api.spinGameId config ≠ "") by (by apply js_or_truthy).
  assert (Hget : Api.getGameId gameIdParam env ≠ "").
  { unfold Api.getGameId. destruct gameIdParam as [p|].
    - unfold Slot.truthy. case_bool_decide; [done|]. by apply js_or_truthy.
    - by apply js_or_truthy. }
  assert (Hbody : Api.playGame gameIdParam env (Slot.playRequest (Api.spinGameId config) c)
                  = Slot.playRequest (Api.spinGameId config) c).
  { unfold Api.playGame. cbv zeta.
    change (Slot.q_gameId (Slot.playRequest (Api.spinGameId config) c))
      with (Api.spinGameId config).
    by rewrite js_or_Some. }
  rewrite Hbody.
  change (Slot.q_gameId (Slot.playRequest (Api.spinGameId config) c))
    with (Api.spinGameId config).
  split; [done|]. split; [done|]. split.
  - unfold Api.spinGameId in *.
    destruct (js_or_cases (config ≫= GameConfig.gameId) "INFERNO_EMPRESS") as [[H _]|[H H']].
    + by left.
    + right. by rewrite H.
  - intros q. unfold Api.playGame. cbv zeta.
    change (Slot.q_gameId {| Slot.q_gameId := ?g |}) with g.
    by apply js_or_truthy.
Qed.

(** X13.  The scatter symbol that the slot machine uses is never empty, and
    it is the symbol that the hook [useScatterSymbol] returns, except for a
    document without a book symbol whose [scatterSymbol] is the empty
    string: there the hook returns the empty string and the slot machine
    falls back to "Scatter".  The paytable names the same symbol as the slot
    machine whenever the document has a book symbol or has no scatter symbol
    of its own; otherwise the paytable shows "Scatter" and the slot machine
    the document's [scatterSymbol]. *)
Theorem scatter_symbol_of_machine_and_hook (ctx : GameConfig.GameConfigContextType) :
  Scatter.machineScatterSymbol (GameConfig.config ctx) ≠ ""
  ∧ (Scatter.useScatterSymbol ctx = Scatter.machineScatterSymbol (GameConfig.config ctx)
     ∨ (Scatter.useScatterSymbol ctx = ""
        ∧ Scatter.machineScatterSymbol (GameConfig.config ctx) = "Scatter"
        ∧ ∃ doc, GameConfig.config ctx = Some doc
                 ∧ GameConfig.scatterSymbol doc = Some ""
                 ∧ (GameConfig.bookSymbol doc = None ∨ GameConfig.bookSymbol doc = Some "")))
  ∧ ∀ doc,
      Scatter.paytableScatterSymbol doc = Scatter.machineScatterSymbol (Some doc)
      ∨ (Scatter.paytableScatterSymbol doc = "Scatter"
         ∧ GameConfig.scatterSymbol doc = Some (Scatter.machineScatterSymbol (Some doc))
         ∧ (GameConfig.bookSymbol doc = None ∨ GameConfig.bookSymbol doc = Some "")).
Proof.
  split; [|split].
  { unfold Scatter.machineScatterSymbol. apply js_or_truthy. by apply js_or_truthy. }
  { unfold Scatter.useScatterSymbol, Scatter.machineScatterSymbol.
    destruct (GameConfig.config ctx) as [doc|]; [|by left]. simpl.
    assert (Hrest : default "Scatter" (GameConfig.scatterSymbol doc)
                    = js_or (GameConfig.scatterSymbol doc) "Scatter"
                    ∨ (default "Scatter" (GameConfig.scatterSymbol doc) = ""
                       ∧ js_or (GameConfig.scatterSymbol doc) "Scatter" = "Scatter"
                       ∧ GameConfig.scatterSymbol doc = Some "")).
    { destruct (GameConfig.scatterSymbol doc) as [x|]; [|by left]. simpl.
      unfold Slot.truthy. case_bool_decide as Hx; [by left|].
      right. destruct (decide (x = "")) as [->|]; done. }
    destruct (GameConfig.bookSymbol doc) as [b|] eqn:Hb; simpl.
    - unfold Slot.truthy. case_bool_decide as Hbne; [by left|].
      assert (b = "") as -> by (by destruct (decide (b = ""))).
      destruct Hrest as [->|(-> & -> & Hs)]; [by left|].
      right. split; [done|]. split; [done|]. exists doc. split; [done|]. split; [done|].
      by right.
    - destruct Hrest as [->|(-> & -> & Hs)]; [by left|].
      right. split; [done|]. split; [done|]. exists doc. split; [done|]. split; [done|].
      by left. }
  intros doc. unfold Scatter.paytableScatterSymbol, Scatter.machineScatterSymbol. simpl.
  destruct (js_or_cases (GameConfig.bookSymbol doc)
              (js_or (GameConfig.scatterSymbol doc) "Scatter")) as [[Hb Hne]|[Hb Hbook]].
  - left. rewrite Hb at 1. rewrite js_or_Some by done. done.
  - rewrite Hb.
    assert (Hpay : js_or (GameConfig.bookSymbol doc) "Scatter" = "Scatter").
    { by destruct Hbook as [->| ->]. }
    rewrite Hpay.
    destruct (js_or_cases (GameConfig.scatterSymbol doc) "Scatter") as [[Hs _]|[Hs _]].
    + right. done.
    + left. by rewrite Hs.
Qed.

(** ** The session effect *)

(** X14.  The session effect gives the slot machine a session id that passes
    the session guard of a spin, and leaves a positive balance whatever the
    session request brings: the server's balance when that is positive, 500
    when it is not or when the request fails.  A failed request touches
    nothing but the balance; a loaded session restores the free spins, the
    feature symbol and the bonus wheel, which is shown exactly when bonus
    spins are on hand. *)
Theorem session_effect_leaves_a_playable_state (now : Z) (answer : option Slot.PlayResponse)
    (s : Slot.St) :
  Slot.truthy (Slot.sessionId (Session.initializeGame now s)) = true
  ∧ 0 < Slot.balance (Session.sessionLoaded answer s)
  ∧ Slot.sessionId (Session.sessionLoaded answer s) = Slot.sessionId s
  ∧ (answer = None →
     Session.sessionLoaded answer s = Slot.setBalance 500 s)
  ∧ ∀ r, answer = Some r →
      Slot.balance (Session.sessionLoaded answer s)
      = (if 0 <? Slot.p_balance r then Slot.p_balance r else 500)
      ∧ Slot.freeSpinsRemaining (Session.sessionLoaded answer s) = Slot.top_freeSpins r
      ∧ Slot.featureSymbol (Session.sessionLoaded answer s) = Slot.top_featureSymbol r
      ∧ Slot.actionGameSpins (Session.sessionLoaded answer s) = Slot.top_actionGameSpins r
      ∧ Slot.showActionWheel (Session.sessionLoaded answer s)
        = (0 <? Slot.top_actionGameSpins r)
      ∧ Slot.accumulatedActionWin (Session.sessionLoaded answer s)
        = default 0 (Slot.p_accumulatedActionGameWin r).
Proof.
  split; [reflexivity|].
  destruct answer as [r|]; simpl.
  - split; [destruct (Z.ltb_spec 0 (Slot.p_balance r)); lia|].
    split; [done|]. split; [done|]. intros r' [= <-]. repeat split; reflexivity.
  - split; [lia|]. split; [done|]. split; [done|]. done.
Qed.

(** ** The feature-symbol selection screen *)

Section SelectionFacts.

Import Selection.

Variables (symbols : list string) (selectedSymbol : string).

Lemma ticks_cleared (n : nat) (w : State) :
  intervalCleared w = true → ticks n symbols selectedSymbol w = w.
Proof. intros Hw. destruct n; simpl; [done | by rewrite Hw]. Qed.

Lemma ticks_add (n m : nat) :
  ∀ w, ticks (n + m) symbols selectedSymbol w
       = ticks m symbols selectedSymbol (ticks n symbols selectedSymbol w).
Proof.
  induction n as [|n IH]; intros w; simpl; [done|].
  destruct (intervalCleared w) eqn:Hw; [by rewrite ticks_cleared | apply IH].
Qed.

(** What a tick of the running interval shows at index [i]. *)
Lemma tick_running (w : State) :
  spinCount w + 1 < totalSpins →
  tick symbols selectedSymbol w
  = {| showAnimation := showAnimation w; showSymbol := showSymbol w;
       spinningSymbols :=
         [match eligibleSymbols symbols with
          | [] => None
          | _ => js_get (eligibleSymbols symbols)
                   (currentIndex w `mod` Z.of_nat (length (eligibleSymbols symbols)))
          end];
       currentIndex := currentIndex w + 1; spinCount := spinCount w + 1;
       intervalCleared := false |}.
Proof.
  intros Hn. unfold tick. cbv zeta.
  destruct (Z.leb_spec totalSpins (spinCount w + 1)); [lia | done].
Qed.

(** What [n] ticks of the running interval leave, short of the last tick. *)
Lemma ticks_running (n : nat) :
  ∀ w, intervalCleared w = false →
       spinCount w + Z.of_nat n < totalSpins →
       let w' := ticks n symbols selectedSymbol w in
       intervalCleared w' = false
       ∧ spinCount w' = spinCount w + Z.of_nat n
       ∧ currentIndex w' = currentIndex w + Z.of_nat n
       ∧ (n ≠ 0%nat →
          spinningSymbols w'
          = [match eligibleSymbols symbols with
             | [] => None
             | _ => js_get (eligibleSymbols symbols)
                      ((currentIndex w + Z.of_nat n - 1)
                       `mod` Z.of_nat (length (eligibleSymbols symbols)))
             end]).
Proof.
  induction n as [|n IH]; intros w Hw Hn; cbv zeta.
  { simpl. repeat split; first [done | lia]. }
  simpl. rewrite Hw.
  pose proof (tick_running w ltac:(lia)) as Htick.
  assert (Hsc : spinCount (tick symbols selectedSymbol w) = spinCount w + 1)
    by (by rewrite Htick).
  assert (Hci : currentIndex (tick symbols selectedSymbol w) = currentIndex w + 1)
    by (by rewrite Htick).
  assert (Hcl : intervalCleared (tick symbols selectedSymbol w) = false)
    by (by rewrite Htick).
  assert (Hsp : spinningSymbols (tick symbols selectedSymbol w)
                = [match eligibleSymbols symbols with
                   | [] => None
                   | _ => js_get (eligibleSymbols symbols)
                            (currentIndex w
                             `mod` Z.of_nat (length (eligibleSymbols symbols)))
                   end])
    by (by rewrite Htick).
  clear Htick.
  destruct (IH (tick symbols selectedSymbol w)) as (Hc & Hs & Hi & Hshown); [done | lia |].
  split; [done|]. split; [lia|]. split; [lia|]. intros _.
  destruct n as [|n].
  - simpl. rewrite Hsp. by replace (currentIndex w + Z.of_nat 1 - 1) with (currentIndex w) by lia.
  - rewrite Hshown by done. rewrite Hci.
    by replace (currentIndex w + 1 + Z.of_nat (S n) - 1)
         with (currentIndex w + Z.of_nat (S (S n)) - 1) by lia.
Qed.

Lemma eligibleSymbols_elem (x : string) :
  x ∈ eligibleSymbols symbols ↔ x ∈ symbols ∧ x ≠ "Scatter".
Proof.
  unfold eligibleSymbols. rewrite !list_elem_of_In, filter_In, negb_true_iff.
  by rewrite bool_decide_eq_false.
Qed.

(** X15.  While the selection screen cycles, its [n]-th tick, for [n] from
    1 to 49, shows exactly one symbol: the configured symbols other than
    "Scatter" in their order, starting again from the first after the
    last; so what is shown is a symbol of the configuration and never
    "Scatter".  (With no symbol other than "Scatter" configured, the tick
    shows the undefined element.)  The 50th tick stops the interval and
    shows the selected symbol, and later ticks change nothing. *)
Theorem selection_screen_never_cycles_through_scatter :
  (∀ n : nat, (0 < n < 50)%nat →
     (eligibleSymbols symbols = [] →
      spinningSymbols (ticks n symbols selectedSymbol opened) = [None])
     ∧ (eligibleSymbols symbols ≠ [] →
        ∃ x, spinningSymbols (ticks n symbols selectedSymbol opened) = [Some x]
             ∧ eligibleSymbols symbols
                 !! ((n - 1) `mod` length (eligibleSymbols symbols))%nat = Some x
             ∧ x ∈ symbols ∧ x ≠ "Scatter"))
  ∧ (∀ x, x ∈ eligibleSymbols symbols ↔ x ∈ symbols ∧ x ≠ "Scatter")
  ∧ ∀ n : nat, (50 ≤ n)%nat →
      spinningSymbols (ticks n symbols selectedSymbol opened) = [Some selectedSymbol]
      ∧ intervalCleared (ticks n symbols selectedSymbol opened) = true
      ∧ spinCount (ticks n symbols selectedSymbol opened) = 50.
Proof.
  split; [|split; [exact eligibleSymbols_elem|]].
  - intros n Hn.
    destruct (ticks_running n opened) as (_ & _ & _ & Hshown); [done | |].
    { change (spinCount opened) with 0. unfold totalSpins. lia. }
    rewrite Hshown by lia. change (currentIndex opened) with 0.
    split; [by intros ->|]. intros Hne.
    destruct (eligibleSymbols symbols) as [|e es] eqn:He; [done|].
    set (len := length (e :: es)) in *.
    assert (Hlen : (0 < len)%nat) by (subst len; simpl; lia).
    assert (Hidx : (0 + Z.of_nat n - 1) `mod` Z.of_nat len
                   = Z.of_nat ((n - 1) `mod` len)).
    { rewrite Nat2Z.inj_mod. f_equal. lia. }
    rewrite Hidx, js_get_nat.
    destruct (lookup_lt_is_Some_2 (e :: es) ((n - 1) `mod` len)) as [x Hx].
    { apply Nat.mod_upper_bound. lia. }
    exists x. rewrite Hx. split; [done|]. split; [done|].
    apply eligibleSymbols_elem. rewrite He. by eapply list_elem_of_lookup_2.
  - intros n Hn.
    replace n with (49 + (1 + (n - 50)))%nat by lia.
    rewrite (ticks_add 49 (1 + (n - 50))), (ticks_add 1 (n - 50)).
    destruct (ticks_running 49 opened) as (Hc & Hs & _ & _); [done | |].
    { change (spinCount opened) with 0. unfold totalSpins. lia. }
    change (spinCount opened) with 0 in Hs.
    set (w := ticks 49 symbols selectedSymbol opened) in *. clearbody w.
    assert (Hlast : ticks 1 symbols selectedSymbol w
                    = {| showAnimation := showAnimation w; showSymbol := showSymbol w;
                         spinningSymbols := [Some selectedSymbol];
                         currentIndex := currentIndex w + 1; spinCount := 50;
                         intervalCleared := true |}).
    { cbn [ticks]. rewrite Hc. unfold tick. cbv zeta. rewrite Hs.
      change (totalSpins <=? 0 + Z.of_nat 49 + 1) with true. cbv iota. reflexivity. }
    rewrite Hlast, ticks_cleared by reflexivity. repeat split; reflexivity.
Qed.

End SelectionFacts.

(** ** The count-up of the win animation *)

Section CountUp.

Import QArith Qminmax WinAnimation.

Lemma cube_grows (p q : Q) :
  (0 <= p)%Q → (p <= q)%Q → (q <= 1)%Q → (1 - (1 - p) ^ 3 <= 1 - (1 - q) ^ 3)%Q.
Proof.
  intros H0 Hpq H1. simpl.
  set (a := (1 - p)%Q). set (b := (1 - q)%Q).
  assert (Hb : (0 <= b)%Q) by (subst b; Lqa.lra).
  assert (Hab : (b <= a)%Q) by (subst a b; Lqa.lra).
  assert (Hsq : (b * b <= a * a)%Q) by Lqa.nra.
  assert (H2 : (0 <= (a - b) * (b * b))%Q).
  { apply Qmult_le_0_compat; [Lqa.lra|]. by apply Qmult_le_0_compat. }
  assert (H3 : (0 <= a * (a * a - b * b))%Q).
  { apply Qmult_le_0_compat; Lqa.lra. }
  Lqa.lra.
Qed.

(** The progress at [currentTime]. *)
Lemma progress_range (startTime currentTime : Q) :
  (startTime <= currentTime)%Q →
  (0 <= Qmin ((currentTime - startTime) / duration) 1)%Q
  ∧ (Qmin ((currentTime - startTime) / duration) 1 <= 1)%Q.
Proof.
  intros Ht. split; [|apply Q.le_min_r].
  apply Q.min_glb; [|Lqa.lra].
  apply Qle_shift_div_l; [reflexivity|]. Lqa.lra.
Qed.

Lemma progress_complete (startTime currentTime : Q) :
  Qlt_bool (Qmin ((currentTime - startTime) / duration) 1) 1 = false ↔
  (startTime + 4000 <= currentTime)%Q.
Proof.
  unfold Qlt_bool. rewrite negb_false_iff, Qle_bool_iff.
  assert (Hdiv : ((currentTime - startTime) / duration
                  == (currentTime - startTime) * (1 # 4000))%Q) by reflexivity.
  set (x := ((currentTime - startTime) / duration)%Q) in *.
  split.
  - intros H. pose proof (Q.le_min_l x 1) as Hl. Lqa.lra.
  - intros H. apply Q.min_glb; Lqa.lra.
Qed.

(** X24.  The amount shown by the win animation while it counts up, with
    times and amounts taken as exact numbers, for a win that is not
    negative and at times not before the start: it lies between zero and
    the win, and it never decreases from one frame to a later one.
    Counting ends exactly at the first frame four seconds or more after
    the start; that frame shows the win itself and reports it through
    [onCountComplete], and no frame before it reports anything. *)
Theorem win_count_up_rises_to_the_win (targetAmount startTime t t' : Q) :
  (0 <= targetAmount)%Q →
  (startTime <= t)%Q →
  (t <= t')%Q →
  (0 <= displayAmount (animate targetAmount startTime t))%Q
  ∧ (displayAmount (animate targetAmount startTime t) <= targetAmount)%Q
  ∧ (displayAmount (animate targetAmount startTime t)
     <= displayAmount (animate targetAmount startTime t'))%Q
  ∧ (again (animate targetAmount startTime t) = false ↔ (startTime + 4000 <= t)%Q)
  ∧ ((startTime + 4000 <= t)%Q →
     displayAmount (animate targetAmount startTime t) = targetAmount
     ∧ counted (animate targetAmount startTime t) = Some targetAmount)
  ∧ (¬ (startTime + 4000 <= t)%Q → counted (animate targetAmount startTime t) = None).
Proof.
  intros HT Ht Htt'.
  assert (Hshape : ∀ u, (startTime <= u)%Q →
            let p := Qmin ((u - startTime) / duration) 1 in
            (0 <= p)%Q ∧ (p <= 1)%Q
            ∧ (displayAmount (animate targetAmount startTime u)
               == targetAmount * (1 - (1 - p) ^ 3))%Q).
  { intros u Hu. cbv zeta. destruct (progress_range startTime u Hu) as [Hp0 Hp1].
    split; [done|]. split; [done|].
    unfold animate. cbv zeta. change (inject_Z 1) with 1%Q.
    destruct (Qlt_bool (Qmin ((u - startTime) / duration) 1) 1) eqn:Hb; [reflexivity|].
    unfold Qlt_bool in Hb. rewrite negb_false_iff, Qle_bool_iff in Hb.
    assert (Hone : (Qmin ((u - startTime) / duration) 1 == 1)%Q) by Lqa.lra.
    cbn [displayAmount]. rewrite Hone. simpl. ring. }
  destruct (Hshape t Ht) as (Hp0 & Hp1 & Hd).
  destruct (Hshape t' ltac:(Lqa.lra)) as (Hq0 & Hq1 & Hd').
  cbv zeta in *.
  set (p := Qmin ((t - startTime) / duration) 1) in *.
  set (q := Qmin ((t' - startTime) / duration) 1) in *.
  assert (Hpq : (p <= q)%Q).
  { subst p q. apply Q.min_le_compat_r.
    apply Qmult_le_compat_r; [Lqa.lra | discriminate]. }
  pose proof (cube_grows 0 p ltac:(Lqa.lra) Hp0 Hp1) as Hlo.
  pose proof (cube_grows p 1 Hp0 Hp1 ltac:(Lqa.lra)) as Hhi.
  pose proof (cube_grows p q Hp0 Hpq Hq1) as Hmono.
  set (e := (1 - (1 - p) ^ 3)%Q) in *. set (e' := (1 - (1 - q) ^ 3)%Q) in *.
  assert (He0 : (0 <= e)%Q) by (simpl in Hlo; Lqa.lra).
  assert (He1 : (e <= 1)%Q) by (simpl in Hhi; Lqa.lra).
  pose proof (progress_complete startTime t) as Hc. fold p in Hc.
  split; [|split; [|split; [|split; [|split]]]].
  - rewrite Hd. by apply Qmult_le_0_compat.
  - rewrite Hd. rewrite <- (Qmult_1_l targetAmount) at 2.
    rewrite (Qmult_comm targetAmount). by apply Qmult_le_compat_r.
  - rewrite Hd, Hd'. rewrite !(Qmult_comm targetAmount). by apply Qmult_le_compat_r.
  - unfold animate. cbv zeta. change (inject_Z 1) with 1%Q. fold p.
    destruct (Qlt_bool p 1); simpl; split; intros H; try done.
    + apply Hc in H. done.
    + by apply Hc.
  - intros Hend. apply Hc in Hend.
    unfold animate. cbv zeta. change (inject_Z 1) with 1%Q. fold p. by rewrite Hend.
  - intros Hnot. unfold animate. cbv zeta. change (inject_Z 1) with 1%Q. fold p.
    destruct (Qlt_bool p 1); [done|]. destruct Hnot. by apply Hc.
Qed.

Lemma win_count_up_rises_to_the_win_witness :
  (0 <= displayAmount (animate 50 0 2000))%Q
  ∧ (displayAmount (animate 50 0 2000) <= 50)%Q
  ∧ (displayAmount (animate 50 0 2000) <= displayAmount (animate 50 0 4000))%Q
  ∧ (again (animate 50 0 2000) = false ↔ (0 + 4000 <= 2000)%Q)
  ∧ ((0 + 4000 <= 2000)%Q →
     displayAmount (animate 50 0 2000) = 50%Q
     ∧ counted (animate 50 0 2000) = Some 50%Q)
  ∧ (¬ (0 + 4000 <= 2000)%Q → counted (animate 50 0 2000) = None).
Proof.
  apply (win_count_up_rises_to_the_win 50 0 2000 4000); vm_compute; discriminate.
Defined.

End CountUp.

(** ** One round, one request *)

Section Mute.

Import Slot Round Log.

Variables (numReels numRows : nat) (gameId : string).

Lemma mute_exec (a : NetAnswer) f k : logfree f → mute a k → mute a (f ;;; k).
Proof.
  intros Hf Hk log. apply triple_exec with (P' := fun s => requests s = log); [|apply Hk].
  intros s Hs. by rewrite Hf.
Qed.

Lemma mute_await (a : NetAnswer) ms k : mute a k → mute a (await ms k).
Proof.
  intros Hk log. apply triple_await with (P' := fun s => requests s = log); [|apply Hk].
  intros s s' Hs HR. by rewrite HR.
Qed.

Lemma mute_if_cancelled (a : NetAnswer) cleanup k :
  logfree cleanup → mute a k → mute a (if_cancelled cleanup k).
Proof.
  intros Hc Hk log. apply triple_if_cancelled; [|apply Hk].
  intros s Hs. by rewrite Hc.
Qed.

Lemma mute_detach (a : NetAnswer) child k :
  (∀ s, requests (fst (child s)) = requests s) → mute a k → mute a (detach child k).
Proof.
  intros Hc Hk log. apply triple_detach with (P' := fun s => requests s = log); [|apply Hk].
  intros s Hs. by rewrite Hc.
Qed.

Lemma mute_resolve (a : NetAnswer) r : mute a (resolve r).
Proof. intros log. by apply triple_resolve. Qed.

Lemma mute_finish (a : NetAnswer) c response : mute a (finish c response).
Proof.
  unfold finish. cbv zeta. apply mute_if_cancelled; [done|].
  do 4 (apply mute_exec; [intros s; reflexivity|]).
  do 3 (apply mute_exec; [repeat case_match; intros s; repeat case_match; reflexivity|]).
  apply mute_resolve.
Qed.

Lemma mute_expandReels (a : NetAnswer) c fs reels k :
  mute a k → mute a (expandReels numReels numRows c fs reels k).
Proof.
  intros Hk. induction reels as [|reelIndex rest IH]; simpl; [done|].
  apply mute_if_cancelled; [done|]. apply mute_await. apply mute_if_cancelled; [done|].
  apply mute_exec; [intros s; reflexivity|].
  apply mute_await. apply mute_if_cancelled; [done|]. apply IH.
Qed.

Lemma mute_stopReels (a : NetAnswer) c g i todo k :
  mute a k → mute a (stopReels numReels c g i todo k).
Proof.
  intros Hk. revert i. induction todo as [|todo IH]; intros i; simpl; [done|].
  apply mute_if_cancelled; [done|]. apply mute_await. apply mute_if_cancelled; [done|].
  apply mute_exec; [intros s; reflexivity|].
  apply mute_await.
  apply mute_exec; [intros s; reflexivity|].
  apply mute_detach; [intros s; reflexivity|].
  apply mute_exec; [intros s; reflexivity|].
  apply IH.
Qed.

Lemma mute_freeSpinsReveal (a : NetAnswer) c response reels bgl fgl :
  mute a (freeSpinsReveal numReels numRows c response reels bgl fgl).
Proof.
  unfold freeSpinsReveal. cbv zeta.
  apply mute_exec; [case_match; intros s; reflexivity|].
  match goal with
  | |- mute _ (_ ?rest) => assert (Hrest : mute a rest)
  end.
  { case_match.
    - apply mute_exec; [intros s; reflexivity|].
      apply mute_await. apply mute_if_cancelled; [done|].
      apply mute_expandReels, mute_await. apply mute_if_cancelled; [done|].
      do 2 (apply mute_exec; [intros s; reflexivity|]).
      destruct fgl;
        (do 2 (apply mute_exec; [intros s; reflexivity|]));
        apply mute_await; (apply mute_if_cancelled; [done|]);
        (apply mute_exec; [intros s; reflexivity|]); apply mute_finish.
    - apply mute_exec; [intros s; reflexivity|]. apply mute_finish. }
  match goal with |- mute _ (match ?l with [] => _ | _ => _ end _) => destruct l end.
  - apply mute_await, Hrest.
  - do 2 (apply mute_exec; [intros s; reflexivity|]). exact Hrest.
Qed.

Lemma mute_afterResponse (a : NetAnswer) c response elapsed :
  mute a (afterResponse numReels numRows c response elapsed).
Proof.
  unfold afterResponse. cbv zeta.
  apply mute_exec; [intros s; reflexivity|].
  apply mute_if_cancelled; [done|].
  match goal with
  | |- mute _ (_ ?rest) => assert (Hrest : mute a rest)
  end.
  { apply mute_if_cancelled; [done|].
    do 2 (apply mute_exec; [intros s; reflexivity|]).
    apply mute_stopReels. apply mute_if_cancelled; [done|].
    apply mute_await. apply mute_if_cancelled; [done|].
    destruct (c_isFreeSpinsMode c); [apply mute_freeSpinsReveal|].
    unfold normalReveal. apply mute_exec; [intros s; reflexivity|]. apply mute_finish. }
  destruct (0 <? Z.max 0 (pace c 200 600 - elapsed)); [apply mute_await|]; exact Hrest.
Qed.

Lemma mute_onError (a : NetAnswer) msg : mute a (onError numReels msg).
Proof.
  unfold onError.
  apply mute_exec; [intros s; by destruct (spinCancelledRef s)|].
  apply mute_exec; [intros s; reflexivity|].
  apply mute_resolve.
Qed.

(** The request of the round, then nothing more. *)
Lemma spinPromise_log (a : NetAnswer) c log :
  triple silent a (fun s => requests s = log) (spinPromise numReels numRows gameId c)
    (fun sf r => requests sf = log ++ [playRequest gameId c]
                 ∨ (requests sf = log ∧ r = None)).
Proof.
  unfold spinPromise. apply triple_if_cancelled.
  { intros s Hs. right. done. }
  intros s Hs sf r Hrun. unfold runs in Hrun. simpl in Hrun.
  inversion Hrun as [| | ? ? ? s' s1 c1 ? ? HR Hstep Hrest |]; subst.
  left. unfold silent in HR. simpl in HR.
  destruct a as [response elapsed|msg].
  - apply (mute_afterResponse (Replied response elapsed) c response elapsed _ s' HR sf r).
    unfold runs. by rewrite Hstep.
  - apply (mute_onError (Rejected msg) msg _ s' HR sf r). unfold runs. by rewrite Hstep.
Qed.

Lemma startReelsSequentially_log c i todo s :
  requests (fst (startReelsSequentially c i todo s)) = requests s.
Proof.
  destruct todo; simpl; [done|]. unfold if_cancelled.
  by destruct (spinCancelledRef s).
Qed.

End Mute.

(** The request a call of [spin] builds from its callback is, in a committed
    state, the one built from the state itself: every value in it is a
    dependency of the callback. *)
Lemma playRequest_memoised (gameId : string) (s : Slot.St) :
  Assert.memoised s →
  Slot.playRequest gameId (Slot.spinCallback s) = Slot.playRequest gameId (Slot.capture s).
Proof.
  intros Hm. unfold Slot.playRequest.
  destruct (memoised_closure s Hm) as (_ & _ & -> & _ & -> & -> & _ & -> & _).
  reflexivity.
Qed.

(** X16.  A call of [spin], nothing else sending a request while it runs,
    adds at most one request to those sent, and that request is the one built
    from the values its callback holds, which in a committed state are those
    of the render that called [spin] (its session id, bet and bonus spins),
    whatever the state has become by the time it is sent.  A call held back
    by a guard sends nothing, and a round that resolves with a result has
    sent its request. *)
Theorem spin_sends_at_most_one_request (numReels numRows : nat) (gameId : string)
    (a : Slot.NetAnswer) (s sf : Slot.St) (r : option Slot.SpinResult) :
  Round.runs Log.silent a (Slot.spin numReels numRows gameId) s sf r →
  (Slot.requests sf = Slot.requests s
   ∨ Slot.requests sf = Slot.requests s ++ [Slot.playRequest gameId (Slot.spinCallback s)])
  ∧ (Round.started (snd (Slot.spin numReels numRows gameId s)) = false →
     Slot.requests sf = Slot.requests s)
  ∧ (r ≠ None →
     Slot.requests sf = Slot.requests s ++ [Slot.playRequest gameId (Slot.spinCallback s)])
  ∧ (Assert.memoised s →
     Slot.playRequest gameId (Slot.spinCallback s) = Slot.playRequest gameId (Slot.capture s)).
Proof.
  intros Hrun.
  assert (Hlog : (Slot.requests sf = Slot.requests s
                  ∧ (Round.started (snd (Slot.spin numReels numRows gameId s)) = true
                     → r = None)
                  ∧ (Round.started (snd (Slot.spin numReels numRows gameId s)) = false
                     → r = None))
                 ∨ (Slot.requests sf
                    = Slot.requests s ++ [Slot.playRequest gameId (Slot.spinCallback s)]
                    ∧ Round.started (snd (Slot.spin numReels numRows gameId s)) = true)).
  { unfold Round.runs, Slot.spin in *. cbv zeta in *.
    repeat match type of Hrun with
    | context [if ?b then _ else _] =>
        destruct b; [simpl in Hrun; inversion Hrun; subst; left; done|]
    end.
    match type of Hrun with
    | Round.settles _ _ (fst (?m s)) _ _ _ =>
        assert (Hm : Round.triple Log.silent a (fun s' => Slot.requests s' = Slot.requests s) m
                       (fun sf r =>
                          Slot.requests sf
                          = Slot.requests s
                            ++ [Slot.playRequest gameId (Slot.spinCallback s)]
                          ∨ (Slot.requests sf = Slot.requests s ∧ r = None)))
    end.
    { do 11 (apply triple_exec with (P' := fun s' => Slot.requests s' = Slot.requests s);
             [done|]).
      apply triple_await with (P' := fun s' => Slot.requests s' = Slot.requests s).
      { intros s1 s2 Hs1 HR. by rewrite HR. }
      apply triple_exec with (P' := fun s' => Slot.requests s' = Slot.requests s); [done|].
      apply triple_detach with (P' := fun s' => Slot.requests s' = Slot.requests s).
      { intros s1 Hs1. by rewrite startReelsSequentially_log. }
      apply spinPromise_log. }
    destruct (Hm s eq_refl sf r Hrun) as [Hsent | [Hsame Hnone]].
    - right. done.
    - left. done. }
  destruct Hlog as [(Hsame & Hr1 & Hr2) | (Hsent & Hstarted)].
  - split; [by left|]. split; [done|]. split; [|apply playRequest_memoised]. intros Hr.
    destruct (Round.started (snd (Slot.spin numReels numRows gameId s)));
      [by destruct Hr; apply Hr1 | by destruct Hr; apply Hr2].
  - split; [by right|]. split; [|split; [done | apply playRequest_memoised]].
    intros Hno. congruence.
Qed.

Lemma spin_sends_at_most_one_request_witness :
  let run := Round.drive (Slot.Replied Samples.coinResponse 100)
               (snd (Slot.spin 5 3 Samples.gid Samples.idle))
               (fst (Slot.spin 5 3 Samples.gid Samples.idle)) in
  (Slot.requests (fst run) = Slot.requests Samples.idle
   ∨ Slot.requests (fst run)
     = Slot.requests Samples.idle
       ++ [Slot.playRequest Samples.gid (Slot.spinCallback Samples.idle)])
  ∧ (Round.started (snd (Slot.spin 5 3 Samples.gid Samples.idle)) = false →
     Slot.requests (fst run) = Slot.requests Samples.idle)
  ∧ (snd run ≠ None →
     Slot.requests (fst run)
     = Slot.requests Samples.idle
       ++ [Slot.playRequest Samples.gid (Slot.spinCallback Samples.idle)])
  ∧ (Assert.memoised Samples.idle →
     Slot.playRequest Samples.gid (Slot.spinCallback Samples.idle)
     = Slot.playRequest Samples.gid (Slot.capture Samples.idle)).
Proof.
  cbv zeta.
  apply (spin_sends_at_most_one_request 5 3 Samples.gid (Slot.Replied Samples.coinResponse 100)
           Samples.idle).
  apply drive_runs. intros s. reflexivity.
Defined.

(** ** Which borders are drawn *)

Section BorderFacts.

Import Slot.

Lemma foldl_appends {A B : Type} (f : list B → A → list B) (g : A → list B) :
  (∀ acc l, f acc l = acc ++ g l) →
  ∀ ls acc, foldl f acc ls = acc ++ flat_map g ls.
Proof.
  intros Hf. induction ls as [|l ls IH]; intros acc; simpl.
  - by rewrite app_nil_r.
  - by rewrite IH, Hf, <- app_assoc.
Qed.

Lemma foldl_keeps {A B : Type} (f : B → A → B) :
  (∀ acc l, f acc l = acc) → ∀ ls acc, foldl f acc ls = acc.
Proof.
  intros Hf. induction ls as [|l ls IH]; intros acc; simpl; [done|].
  by rewrite Hf, IH.
Qed.

(** X17.  In the base game a cell carries the border of a payline exactly
    when some current winning line of that payline (one of the five active
    ones) runs through the cell, the reel lies within the line's count and
    the cell shows the line's symbol or the scatter symbol; and it carries
    the scatter mark 10 exactly when a current scatter line counts at least
    three and the cell shows its symbol. *)
Theorem base_game_borders (scatterSymbol : string) (s : St) (reelIndex rowIndex : nat)
    (x : Z) :
  isFreeSpinsMode s = false →
  let cell := grid s !! reelIndex ≫= (.!! rowIndex) in
  x ∈ getWinningLineIndices scatterSymbol s reelIndex rowIndex ↔
  ∃ l, l ∈ winningLines s
       ∧ ((paylineIndex l ≠ -1
           ∧ x = paylineIndex l
           ∧ paylineIndex l < numPaylines
           ∧ line l !! reelIndex = Some (Z.of_nat rowIndex)
           ∧ Z.of_nat reelIndex < count l
           ∧ (cell = Some (symbol l) ∨ cell = Some scatterSymbol))
          ∨ (paylineIndex l = -1
             ∧ x = 10
             ∧ 3 ≤ count l
             ∧ cell = Some (symbol l))).
Proof.
  intros Hbase. cbv zeta. unfold getWinningLineIndices. rewrite Hbase.
  destruct (winningLines s) as [|l0 ls] eqn:Hw.
  { split; [intros H; by apply elem_of_nil in H|].
    intros (l & Hl & _). by apply elem_of_nil in Hl. }
  cbv zeta. simpl andb. cbv iota.
  set (cell := grid s !! reelIndex ≫= (.!! rowIndex)).
  set (g := fun l : WinningLine =>
              if negb (paylineIndex l =? -1) then
                if (paylineIndex l <? numPaylines)
                   && bool_decide (line l !! reelIndex = Some (Z.of_nat rowIndex))
                   && (Z.of_nat reelIndex <? count l)
                   && (bool_decide (cell = Some (symbol l))
                       || bool_decide (cell = Some scatterSymbol))
                then [paylineIndex l] else []
              else
                if (3 <=? count l) && bool_decide (cell = Some (symbol l))
                then [10] else []).
  rewrite (foldl_appends _ g).
  2: { intros acc l. subst g. cbv beta.
       destruct (negb (paylineIndex l =? -1)); simpl negb; simpl orb; rewrite ?andb_true_r;
         case_match; by rewrite ?app_nil_r. }
  rewrite app_nil_l, list_elem_of_In, in_flat_map.
  split.
  - intros (l & Hl & Hx). exists l. split; [by apply list_elem_of_In|].
    subst g. cbv beta in Hx.
    destruct (Z.eqb_spec (paylineIndex l) (-1)) as [E|E]; simpl negb in Hx; cbv iota in Hx.
    + right. destruct ((3 <=? count l) && _) eqn:Hc; [|by destruct Hx].
      destruct Hx as [<-|[]]. apply andb_true_iff in Hc as [H3 Hsym].
      apply Z.leb_le in H3. apply bool_decide_eq_true in Hsym. done.
    + left. destruct (_ && _ && _ && _) eqn:Hc; [|by destruct Hx].
      destruct Hx as [<-|[]].
      apply andb_true_iff in Hc as [Hc Hsym]. apply andb_true_iff in Hc as [Hc Hcount].
      apply andb_true_iff in Hc as [Hidx Hline].
      apply Z.ltb_lt in Hidx, Hcount. apply bool_decide_eq_true in Hline.
      apply orb_true_iff in Hsym.
      repeat split; try done.
      destruct Hsym as [Hs|Hs]; apply bool_decide_eq_true in Hs; [by left | by right].
  - intros (l & Hl & Hcases). exists l. split; [by apply list_elem_of_In|].
    subst g. cbv beta.
    destruct Hcases as [(Hne & -> & Hidx & Hline & Hcount & Hsym) | (Hneg & -> & H3 & Hsym)].
    + destruct (Z.eqb_spec (paylineIndex l) (-1)) as [E|E]; [done|]. simpl negb. cbv iota.
      rewrite (proj2 (Z.ltb_lt _ _) Hidx), (proj2 (Z.ltb_lt _ _) Hcount).
      rewrite (bool_decide_eq_true_2 _ Hline). simpl andb.
      destruct Hsym as [Hs|Hs]; rewrite (bool_decide_eq_true_2 _ Hs);
        rewrite ?orb_true_r; simpl; by left.
    + rewrite Hneg. simpl negb. cbv iota.
      rewrite (proj2 (Z.leb_le _ _) H3), (bool_decide_eq_true_2 _ Hsym). simpl. by left.
Qed.

Lemma base_game_borders_witness :
  let s := setWinningLines [Samples.coinLine] (setGrid Samples.coinGrid Samples.idle) in
  let cell := grid s !! 0%nat ≫= (.!! 1%nat) in
  0 ∈ getWinningLineIndices "Scatter" s 0 1 ↔
  ∃ l, l ∈ winningLines s
       ∧ ((paylineIndex l ≠ -1
           ∧ 0 = paylineIndex l
           ∧ paylineIndex l < numPaylines
           ∧ line l !! 0%nat = Some (Z.of_nat 1)
           ∧ Z.of_nat 0 < count l
           ∧ (cell = Some (symbol l) ∨ cell = Some "Scatter"))
          ∨ (paylineIndex l = -1
             ∧ 0 = 10
             ∧ 3 ≤ count l
             ∧ cell = Some (symbol l))).
Proof.
  cbv zeta.
  apply (base_game_borders "Scatter"
           (setWinningLines [Samples.coinLine] (setGrid Samples.coinGrid Samples.idle)) 0 1 0).
  reflexivity.
Defined.

(** X18.  While the feature wins of a free spin are on display (free-spin
    mode, the expansion threshold reached), borders are drawn on expanded
    reels only: every cell of an expanded reel carries the payline indices
    of all current lines of the feature symbol on active paylines, in
    their order, whatever its row and its symbol; every other cell carries
    no border, not even a scatter mark. *)
Theorem feature_display_borders (scatterSymbol : string) (s : St)
    (reelIndex rowIndex : nat) :
  isFreeSpinsMode s = true →
  showFeatureGameWins s = true →
  (expansionThreshold (featureSymbol s) ≤ length (reelsToExpand s))%nat →
  getWinningLineIndices scatterSymbol s reelIndex rowIndex
  = if bool_decide (reelIndex ∈ reelsToExpand s) && truthy (featureSymbol s)
    then map paylineIndex
           (List.filter (fun l => negb (paylineIndex l =? -1)
                                  && bool_decide (symbol l = featureSymbol s)
                                  && (paylineIndex l <? numPaylines))
                        (winningLines s))
    else [].
Proof.
  intros Hfree Hshow Hthr. unfold getWinningLineIndices. rewrite Hfree, Hshow.
  rewrite (bool_decide_eq_true_2 _ Hthr).
  destruct (winningLines s) as [|l0 ls] eqn:Hw.
  { by destruct (_ && _). }
  cbv zeta. simpl andb.
  set (fgl := List.filter _ (l0 :: ls)).
  assert (Hfold : ∀ f : list Z → WinningLine → list Z,
            (∀ acc l, f acc l = acc) → foldl f [] (l0 :: ls) = []).
  { intros f Hf. by apply foldl_keeps. }
  destruct (bool_decide (reelIndex ∈ reelsToExpand s) && truthy (featureSymbol s)).
  - destruct fgl as [|l fgl']; [|done]. by apply Hfold.
  - by apply Hfold.
Qed.

End BorderFacts.

(** ** The payline numbers *)

Section NumbersFacts.

Import Slot Numbers.

Lemma distinct_elem (a : list Z) :
  ∀ seen x, x ∈ distinct seen a ↔ x ∈ a ∧ x ∉ seen.
Proof.
  induction a as [|y a IH]; intros seen x; simpl.
  - split; [intros H; by apply elem_of_nil in H | intros [H _]; by apply elem_of_nil in H].
  - case_bool_decide as Hy.
    + rewrite IH. split.
      * intros [Hx Hns]. split; [apply elem_of_cons; by right | done].
      * intros [Hx Hns]. split; [|done].
        apply elem_of_cons in Hx as [->|Hx]; [done | done].
    + split.
      * intros Hx. apply elem_of_cons in Hx as [->|Hx].
        -- split; [apply elem_of_cons; by left | done].
        -- apply IH in Hx as [Hx Hns]. split; [apply elem_of_cons; by right|].
           intros Hin. apply Hns. apply elem_of_cons. by right.
      * intros [Hx Hns]. apply elem_of_cons in Hx as [->|Hx].
        -- apply elem_of_cons. by left.
        -- destruct (decide (x = y)) as [->|Hne]; [apply elem_of_cons; by left|].
           apply elem_of_cons. right. apply IH. split; [done|].
           intros Hin. apply elem_of_cons in Hin as [?|?]; done.
Qed.

Lemma distinct_NoDup (a : list Z) : ∀ seen, NoDup (distinct seen a).
Proof.
  induction a as [|y a IH]; intros seen; simpl; [apply NoDup_nil_2|].
  case_bool_decide; [apply IH|].
  apply NoDup_cons. split; [|apply IH].
  intros Hin. apply distinct_elem in Hin as [_ Hns]. apply Hns, elem_of_cons. by left.
Qed.

(** X23.  A payline number beside the grid is rendered exactly when its
    payline is configured and not empty, and it is highlighted exactly when
    a current winning line lies on that payline and the payline is among
    the active ones; scatter lines (index [-1]) highlight nothing, and the
    list of active paylines holds no index twice. *)
Theorem payline_number_is_lit_by_its_winning_lines (paylines : list (list Z))
    (numPaylines : Z) (winningLines : list WinningLine) (number : Z) :
  number ∈ paylineNumbers →
  (is_Some (numberBadge paylines numPaylines winningLines number) ↔
   ∃ payline, js_get paylines (number - 1) = Some payline ∧ payline ≠ [])
  ∧ (numberBadge paylines numPaylines winningLines number = Some true ↔
     (∃ payline, js_get paylines (number - 1) = Some payline ∧ payline ≠ [])
     ∧ number - 1 < numPaylines
     ∧ ∃ l, l ∈ winningLines ∧ paylineIndex l = number - 1)
  ∧ NoDup (activePaylines numPaylines winningLines)
  ∧ -1 ∉ activePaylines numPaylines winningLines.
Proof.
  intros Hnumber.
  assert (Hpos : 1 ≤ number ≤ 5).
  { unfold paylineNumbers in Hnumber. apply list_elem_of_fmap in Hnumber as (i & -> & Hi).
    apply elem_of_seq in Hi. lia. }
  assert (Hact : ∀ x, x ∈ activePaylines numPaylines winningLines ↔
                      x ≠ -1 ∧ x < numPaylines ∧ ∃ l, l ∈ winningLines ∧ paylineIndex l = x).
  { intros x. unfold activePaylines. rewrite distinct_elem.
    rewrite list_elem_of_In, filter_In, <- list_elem_of_In, list_elem_of_fmap.
    rewrite andb_true_iff, negb_true_iff, Z.eqb_neq, Z.ltb_lt.
    split.
    - intros [[(l & -> & Hl) [Hne Hlt]] _]. split; [done|]. split; [done|]. by exists l.
    - intros (Hne & Hlt & l & Hl & <-). split; [|by intros H; apply elem_of_nil in H].
      split; [by exists l | done]. }
  split; [|split; [|split]].
  - unfold numberBadge. cbv zeta.
    destruct (js_get paylines (number - 1)) as [[|row payline]|].
    + split; [intros [? ?]; done | intros (? & [= <-] & ?); done].
    + split; [intros _; by eexists | intros _; by eexists].
    + split; [intros [? ?]; done | intros (? & ? & _); done].
  - unfold numberBadge. cbv zeta.
    destruct (js_get paylines (number - 1)) as [[|row payline]|].
    + split; [done | intros [(? & [= <-] & ?) _]; done].
    + split.
      * intros [= Hb]. apply bool_decide_eq_true in Hb. apply Hact in Hb as (_ & Hlt & Hl).
        split; [by eexists | done].
      * intros (_ & Hlt & Hl). f_equal. apply bool_decide_eq_true. apply Hact.
        split; [lia | done].
    + split; [done | intros [(? & ? & _) _]; done].
  - apply distinct_NoDup.
  - intros Hin. apply Hact in Hin as [Hne _]. done.
Qed.

Lemma payline_number_is_lit_by_its_winning_lines_witness :
  (is_Some (numberBadge Examples.fivePaylines 5 [Samples.coinLine] 1) ↔
   ∃ payline, js_get Examples.fivePaylines (1 - 1) = Some payline ∧ payline ≠ [])
  ∧ (numberBadge Examples.fivePaylines 5 [Samples.coinLine] 1 = Some true ↔
     (∃ payline, js_get Examples.fivePaylines (1 - 1) = Some payline ∧ payline ≠ [])
     ∧ 1 - 1 < 5
     ∧ ∃ l, l ∈ [Samples.coinLine] ∧ paylineIndex l = 1 - 1)
  ∧ NoDup (activePaylines 5 [Samples.coinLine])
  ∧ -1 ∉ activePaylines 5 [Samples.coinLine].
Proof.
  apply (payline_number_is_lit_by_its_winning_lines Examples.fivePaylines 5
           [Samples.coinLine] 1).
  apply elem_of_cons. by left.
Defined.

End NumbersFacts.

(** ** Instances on the sample data *)

Lemma undisturbed_round_completes_witness :
  let round := Slot.spin 5 3 Samples.gid Samples.idle in
  let end_ := Round.drive_amid (Slot.setIsTurboMode true)
                (Slot.Replied Samples.coinResponse 100) (snd round) (fst round) in
  snd end_ = Some (Slot.p_results Samples.coinResponse)
  ∧ Assert.synced Samples.coinResponse (fst end_)
  ∧ Round.runs Assert.undisturbed (Slot.Replied Samples.coinResponse 100)
      (Slot.spin 5 3 Samples.gid) Samples.idle (fst end_) (snd end_).
Proof.
  apply (proj2 (undisturbed_round_completes 5 3 Samples.gid Samples.idle
                  Samples.coinResponse 100 eq_refl) (Slot.setIsTurboMode true)).
  intros s. reflexivity.
Defined.

Lemma spin_resets_before_request_witness :
  let s' := fst (Slot.spin 5 3 Samples.gid Samples.showingWin) in
  Slot.spinCancelledRef s' = true
  ∧ Slot.requests s' = Slot.requests Samples.showingWin
  ∧ Slot.lastWin s' = 0
  ∧ Slot.winningLines s' = []
  ∧ Slot.baseGameWinningLines s' = []
  ∧ Slot.featureGameWinningLines s' = []
  ∧ Slot.showFeatureGameWins s' = false
  ∧ Slot.reelsToExpand s' = []
  ∧ Slot.winningFeedback s' = None
  ∧ Slot.expandingReels s' = replicate 5 false
  ∧ Slot.bouncingReels s' = replicate 5 false
  ∧ Slot.spinningReels s' = replicate 5 false.
Proof.
  apply (spin_resets_before_request 5 3 Samples.gid Samples.showingWin). reflexivity.
Defined.

Lemma autoplayEffect_stops_witness :
  (snd (Slot.autoplayEffect Samples.autoplaying) = Slot.StoppedAtZero ↔
   Slot.spinsRemaining (Slot.autoplayState Samples.autoplaying) ≤ 0)
  ∧ (snd (Slot.autoplayEffect Samples.autoplaying) = Slot.StoppedInsufficient ↔
     0 < Slot.spinsRemaining (Slot.autoplayState Samples.autoplaying)
     ∧ Slot.balance Samples.autoplaying < Slot.totalBet Samples.autoplaying
     ∧ Slot.isFreeSpinsMode Samples.autoplaying = false
     ∧ Slot.actionGameSpins Samples.autoplaying = 0)
  ∧ (Slot.isActive (Slot.autoplayState (fst (Slot.autoplayEffect Samples.autoplaying))) = false ↔
     snd (Slot.autoplayEffect Samples.autoplaying) = Slot.StoppedAtZero
     ∨ snd (Slot.autoplayEffect Samples.autoplaying) = Slot.StoppedInsufficient).
Proof.
  apply (autoplayEffect_stops Samples.autoplaying); [reflexivity | discriminate].
Defined.

Lemma feature_display_borders_witness :
  let s := Slot.setShowFeatureGameWins true
             (Slot.setReelsToExpand [1%nat; 3%nat]
                (Slot.setWinningLines [Samples.queenLine] Samples.freeSpinning)) in
  Slot.getWinningLineIndices "Scatter" s 1 0
  = if bool_decide (1%nat ∈ Slot.reelsToExpand s) && Slot.truthy (Slot.featureSymbol s)
    then map Slot.paylineIndex
           (List.filter (fun l => negb (Slot.paylineIndex l =? -1)
                                  && bool_decide (Slot.symbol l = Slot.featureSymbol s)
                                  && (Slot.paylineIndex l <? Slot.numPaylines))
                        (Slot.winningLines s))
    else [].
Proof.
  cbv zeta.
  apply (feature_display_borders "Scatter"
           (Slot.setShowFeatureGameWins true
              (Slot.setReelsToExpand [1%nat; 3%nat]
                 (Slot.setWinningLines [Samples.queenLine] Samples.freeSpinning))) 1 0).
  - reflexivity.
  - reflexivity.
  - vm_compute. lia.
Defined.
